(** * ReadNCDF: the ExodusII reader, embedded in Rocq

    A shallow embedding of [ReadNCDF.cpp].  Every C++ member function that a
    property below talks about is translated into a Rocq function of the same
    name.  [int] values are integers of [Z]; entity handles are integers as
    well; [std::vector] is [list]; [std::map] is [gmap]; the NetCDF file and
    the mesh database, which the reader only uses through their interfaces,
    are small records holding the data those interfaces hand out.

    A result of type [option _] is [None] exactly where the behaviour of the
    C++ code is undefined: an array read outside its bounds, a null pointer
    dereferenced.  Arithmetic on [int] is that of [Z], which is the
    arithmetic of the C++ code as long as the values fit an [int].  Where a
    value leaves that range the wrap-around is written out ([to_int],
    [to_unsigned], [long_to_int]), or the property that depends on the value
    bounds it by a hypothesis. *)

From stdpp Require Import base list gmap strings pretty.
From Stdlib Require Import ZArith Lia Ascii.

Local Open Scope Z_scope.

(** ** Error codes (the enumerators of [ErrorCode] the reader returns) *)

Inductive ErrorCode :=
  | MB_SUCCESS
  | MB_TYPE_OUT_OF_RANGE
  | MB_ENTITY_NOT_FOUND
  | MB_TAG_NOT_FOUND
  | MB_FILE_DOES_NOT_EXIST
  | MB_NOT_IMPLEMENTED
  | MB_INVALID_SIZE
  | MB_UNSUPPORTED_OPERATION
  | MB_FAILURE.

#[global] Instance ErrorCode_eq_dec : EqDecision ErrorCode.
Proof. solve_decision. Defined.

(** ** Element types

    [ExoIIElementType] is declared in a header outside this file; the reader
    compares its enumerators with [<=] and [>=], so they are kept as their
    integer values and supplied through a class. *)

Class ExoIIEnum := {
  EXOII_TRI : Z;      EXOII_TRI7 : Z;
  EXOII_QUAD : Z;     EXOII_QUAD9 : Z;
  EXOII_SHELL : Z;    EXOII_SHELL9 : Z;
  EXOII_TETRA : Z;    EXOII_TETRA14 : Z;
  EXOII_HEX : Z;      EXOII_HEX27 : Z;
  EXOII_MAX_ELEM_TYPE : Z
}.

(** [struct ReadBlockData].  [startMBId] is assigned by [read_elements] only;
    [read_block_headers] leaves it unset, which the model writes as 0. *)
Record ReadBlockData := {
  blockId : Z;
  startExoId : Z;
  startMBId : Z;
  numElements : Z;
  reading_in : bool;
  elemType : Z
}.

(** ** The NetCDF file, as far as the reader looks at it *)

Module Nc.

Record NcDim := { dim_name : string; dim_is_valid : bool; dim_size : Z }.

Record NcVar (A : Type) := {
  var_name : string;
  var_is_valid : bool;
  var_values : list A
}.
Arguments var_name {A} _.
Arguments var_is_valid {A} _.
Arguments var_values {A} _.

(** [ncFile->get_dim(name)] and [ncFile->get_var(name)]: the first entry of
    that name, a null pointer when there is none. *)
Definition get_dim (dims : list NcDim) (name : string) : option NcDim :=
  List.find (fun d => String.eqb name (dim_name d)) dims.

Definition get_var {A} (vars : list (NcVar A)) (name : string)
  : option (NcVar A) :=
  List.find (fun v => String.eqb name (var_name v)) vars.

(** [var->get(buffer, count)]: [count] leading values, status 0 (here
    [None]) when the variable holds fewer. *)
Definition get {A} (v : NcVar A) (count : Z) : option (list A) :=
  if (Z.to_nat count <=? length (var_values v))%nat
  then Some (take (Z.to_nat count) (var_values v))
  else None.

(** [ReadNCDF::dimension_exists] *)
Definition dimension_exists (dims : list NcDim) (attrib_name : string) : bool :=
  existsb (fun d => dim_is_valid d && String.eqb attrib_name (dim_name d)) dims.

(** [INS_ID(stringvar, prefix, id)], for the prefixes ending in [%d]. *)
Definition INS_ID (prefix : string) (id : Z) : string := prefix +:+ pretty id.

(** The macro [GET_DIMB]: [inl] is its [return MB_FAILURE], [inr] the value
    it stores in [val]. *)
Definition GET_DIMB (dims : list NcDim) (varname : string) (id : Z)
  : ErrorCode + Z :=
  let name := INS_ID varname id in
  if dimension_exists dims name then
    match get_dim dims name with
    | Some ncdim =>
        if dim_is_valid ncdim then inr (dim_size ncdim) else inl MB_FAILURE
    | None => inl MB_FAILURE
    end
  else inr 0.

End Nc.

(** ** [load_file]: the subset list *)

Module LoadFile.

(** [ReaderIface::IDTag] and [ReaderIface::SubsetList]. *)
Record IDTag := {
  tag_name : string;
  tag_values : list Z;
  num_tag_values : Z
}.

Record SubsetList := {
  tag_list : list IDTag;
  tag_list_length : Z;
  num_parts : Z;
  part_number : Z
}.

Section load_file.

(** The tag-name constant of [MBTagConventions.hpp]. *)
Variable MATERIAL_SET_TAG_NAME : string.

(** What [load_file] does once the subset list is dealt with (reading the
    [tdata] option, [update] or the eight reading passes), given
    [blocks_to_load] and [num_blocks]. *)
Variable load_passes : option (list Z) -> Z -> ErrorCode.

(** [strcmp(a, b) == 0] *)
Definition strcmp_is_zero (a b : string) : bool := String.eqb a b.

(** The first statements of [load_file]: [inl] is an early return, [inr]
    carries [blocks_to_load] (a null pointer is [None]) and [num_blocks].
    The outer [None]: [tag_list[0]] of an empty array. *)
Definition subset_stage (subset_list : option SubsetList)
  : option (ErrorCode + option (list Z) * Z) :=
  match subset_list with
  | None => Some (inr (None, 0))
  | Some sl =>
      if 1 <? tag_list_length sl then Some (inl MB_UNSUPPORTED_OPERATION)
      else
        match tag_list sl !! 0%nat with
        | None => None
        | Some t0 =>
            if strcmp_is_zero (tag_name t0) MATERIAL_SET_TAG_NAME
            then Some (inl MB_UNSUPPORTED_OPERATION)
            else if negb (num_parts sl =? 0)
            then Some (inl MB_UNSUPPORTED_OPERATION)
            else Some (inr (Some (tag_values t0), num_tag_values t0))
        end
  end.

Definition load_file (subset_list : option SubsetList) : option ErrorCode :=
  match subset_stage subset_list with
  | None => None
  | Some (inl rc) => Some rc
  | Some (inr (blocks_to_load, num_blocks)) =>
      Some (load_passes blocks_to_load num_blocks)
  end.

(** A subset list of one material-id entry, no partitioning. *)
Definition material_subset (ids : list Z) : SubsetList :=
  {| tag_list := [ {| tag_name := MATERIAL_SET_TAG_NAME;
                      tag_values := ids;
                      num_tag_values := Z.of_nat (length ids) |} ];
     tag_list_length := 1;
     num_parts := 0;
     part_number := 0 |}.

End load_file.

End LoadFile.

(** ** [read_block_headers] *)

Module BlockHeaders.

(** The reader's members this pass uses. *)
Record Reader := {
  dims : list Nc.NcDim;
  int_vars : list (Nc.NcVar Z);
  numberElementBlocks_loading : Z;
  blocksLoading : list ReadBlockData
}.

Definition push_block (r : Reader) (b : ReadBlockData) : Reader :=
  {| dims := dims r; int_vars := int_vars r;
     numberElementBlocks_loading := numberElementBlocks_loading r;
     blocksLoading := blocksLoading r ++ [b] |}.

(** A [std::vector<int>::iterator] is a pointer into the vector's storage:
    [begin()] is the storage address, each step adds [sizeof(int)]. *)
Definition sizeof_int : Z := 4.

Definition vec_end (base : Z) (v : list Z) : Z :=
  base + sizeof_int * Z.of_nat (length v).

(** [std::find(v.begin(), v.end(), x)]: the first position holding [x],
    else [v.end()]. *)
Fixpoint std_find (base : Z) (v : list Z) (x : Z) : Z :=
  match v with
  | [] => base
  | y :: v' => if y =? x then base else std_find (base + sizeof_int) v' x
  end.

(** The value an [int] holds after an addition: the sum, wrapped to 32
    bits. *)
Definition to_int (x : Z) : Z := (x + 2 ^ 31) mod 2 ^ 32 - 2 ^ 31.

Section read_block_headers.

Context `{ExoIIEnum}.

(** Where the two local vectors [block_ids] and [new_blocks] are stored. *)
Variables (addr_block_ids addr_new_blocks : Z).

(** One turn of the loop over [block_ids]; the [int exodus_id] is threaded,
    [exodus_id += num_elements] being an addition of [int]s. *)
Definition block_header (r : Reader) (block_ids new_blocks : list Z)
    (block_seq_id exodus_id id : Z) : ErrorCode + Reader * Z :=
  match Nc.GET_DIMB (dims r) "num_el_in_blk" block_seq_id with
  | inl rc => inl rc
  | inr num_elements =>
    match Nc.GET_DIMB (dims r) "num_nod_per_el" block_seq_id with
    | inl rc => inl rc
    | inr num_nodes_per_element =>
      match Nc.GET_DIMB (dims r) "num_att_in_blk" block_seq_id with
      | inl rc => inl rc
      | inr num_attribs =>
        let block_data :=
          {| elemType := EXOII_MAX_ELEM_TYPE;
             blockId := id;
             startExoId := exodus_id;
             startMBId := 0;
             numElements := num_elements;
             reading_in :=
               negb (std_find addr_new_blocks new_blocks id
                     =? vec_end addr_block_ids block_ids) |} in
        inr (push_block r block_data, to_int (exodus_id + num_elements))
      end
    end
  end.

Fixpoint block_loop (r : Reader) (block_ids new_blocks : list Z)
    (block_seq_id exodus_id : Z) (rest : list Z) : ErrorCode * Reader :=
  match rest with
  | [] => (MB_SUCCESS, r)
  | id :: rest' =>
      match block_header r block_ids new_blocks block_seq_id exodus_id id with
      | inl rc => (rc, r)
      | inr (r', exodus_id') =>
          block_loop r' block_ids new_blocks (block_seq_id + 1) exodus_id' rest'
      end
  end.

(** [blocks_to_load] is a pointer: [None] is the null pointer, [Some a]
    points at the array [a]. *)
Definition read_block_headers (r : Reader)
    (blocks_to_load : option (list Z)) (num_blocks : Z)
  : option (ErrorCode * Reader) :=
  match Nc.get_var (int_vars r) "eb_prop1" with
  | None => Some (MB_FAILURE, r)
  | Some nc_block_ids =>
    if negb (Nc.var_is_valid nc_block_ids) then Some (MB_FAILURE, r) else
    match Nc.get nc_block_ids (numberElementBlocks_loading r) with
    | None => Some (MB_FAILURE, r)
    | Some block_ids =>
      let blocks_to_load' :=
        match blocks_to_load with
        | None => block_ids
        | Some a => if num_blocks =? 0 then block_ids else a
        end in
      let n := Z.to_nat (numberElementBlocks_loading r) in
      if (n <=? length blocks_to_load')%nat then
        let new_blocks := take n blocks_to_load' in
        Some (block_loop r block_ids new_blocks 1 1 block_ids)
      else None
    end
  end.

End read_block_headers.

(** The selection rule of the specification: a block is selected iff the
    caller's list is null or empty, or holds the block's id. *)
Definition selected_by_spec (blocks_to_load : option (list Z))
    (num_blocks : Z) (id : Z) : bool :=
  match blocks_to_load with
  | None => true
  | Some a =>
      (num_blocks =? 0) || bool_decide (id ∈ take (Z.to_nat num_blocks) a)
  end.

End BlockHeaders.

(** ** [read_elements] *)

Module Elements.

(** [(unsigned)x] for a 32-bit [int] [x]. *)
Definition to_unsigned (x : Z) : Z := x mod 2 ^ 32.

(** A string attribute of a variable, as [temp_var->get_att(name)] finds
    it; an attribute that is missing or not valid has no entry. *)
Record NcAtt := { att_var : string; att_name : string; att_value : string }.

Definition get_att (atts : list NcAtt) (var name : string) : option string :=
  att_value <$>
    List.find (fun a => String.eqb var (att_var a) && String.eqb name (att_name a))
              atts.

Record Reader := {
  int_vars : list (Nc.NcVar Z);
  atts : list NcAtt;
  numberNodes_loading : Z;
  vertexOffset : Z;
  blocksLoading : list ReadBlockData;
  nodesInLoadedBlocks : list bool
}.

(** The loop that turns exodus indices into vertex handles.  [k] is [i + 1]
    for the loop variable [i], which runs from [number_nodes - 1] down to 0;
    [tmp_ptr] holds the integers as read, [conn] the handles written so far
    (the C++ code keeps both in one buffer and reads each integer before
    its slot is overwritten).  [inl] is the early return, with the marks and
    the handles as they are then. *)
Fixpoint convert_connectivity (vertexOffset : Z) (k : nat) (tmp_ptr : list Z)
    (nodesInLoadedBlocks : list bool) (conn : list Z)
  : ErrorCode * list bool * list Z + list bool * list Z :=
  match k with
  | O => inr (nodesInLoadedBlocks, conn)
  | S i =>
      let x := default 0 (tmp_ptr !! i) in
      if Z.of_nat (length nodesInLoadedBlocks) <=? to_unsigned x
      then inl (MB_FAILURE, nodesInLoadedBlocks, conn)
      else convert_connectivity vertexOffset i tmp_ptr
             (<[Z.to_nat x := true]> nodesInLoadedBlocks)
             (<[i := x + vertexOffset]> conn)
  end.

Section read_elements.

(** The mesh database and the tables of [ExoIIUtil], used through their
    interfaces only. *)
Variable Mesh : Type.
Variable static_element_name_to_type : string -> Z.
Variable VerticesPerElement : Z -> Z.
Variable ExoIIElementMBEntity : Z -> Z.
(** [get_element_connect]: reserves the elements, gives [startMBId]. *)
Variable get_element_connect : Mesh -> Z -> Z -> Z -> Z -> Mesh * Z.
(** [create_meshset], [add_entities] of the element range and the
    mid-node tag: the database as the calls leave it, with the new set, or
    with [None] when one of the calls does not succeed. *)
Variable create_block_set : Mesh -> Z -> Z -> Z -> Z -> Mesh * option Z.
(** Reordering, [update_adjacencies], the material and global-id tags and
    the file ids, with the converted connectivity: the database as the calls
    leave it, and [false] when setting a tag does not succeed. *)
Variable store_block : Mesh -> ReadBlockData -> Z -> list Z -> bool -> Mesh * bool.

Definition set_blocks (r : Reader) (bs : list ReadBlockData)
    (touched : list bool) : Reader :=
  {| int_vars := int_vars r; atts := atts r;
     numberNodes_loading := numberNodes_loading r;
     vertexOffset := vertexOffset r;
     blocksLoading := bs;
     nodesInLoadedBlocks := touched |}.

(** The body of the loop over [blocksLoading] for a block that is read in:
    the block with [elemType] and [startMBId] filled in, the node marks
    and the database.  [inl] is an early return, with the error and the
    three as they are then: [elemType] and [startMBId] are written once the
    attribute is read, the marks as far as the conversion got.  (The handles
    the conversion wrote before it failed stay in the buffer the database
    handed out; [Mesh] does not show them.) *)
Definition read_block (r : Reader) (touched : list bool) (m : Mesh)
    (block_seq_id : Z) (b : ReadBlockData) (file_id_tag : bool)
  : ErrorCode * ReadBlockData * list bool * Mesh + ReadBlockData * list bool * Mesh :=
  let temp_string := Nc.INS_ID "connect" block_seq_id in
  match Nc.get_var (int_vars r) temp_string with
  | None => inl (MB_FAILURE, b, touched, m)
  | Some temp_var =>
    if negb (Nc.var_is_valid temp_var) then inl (MB_FAILURE, b, touched, m) else
    match get_att (atts r) temp_string "elem_type" with
    | None => inl (MB_FAILURE, b, touched, m)
    | Some dum_str =>
      let elem_type := static_element_name_to_type dum_str in
      let verts_per_element := VerticesPerElement elem_type in
      let number_nodes := numElements b * verts_per_element in
      let mb_type := ExoIIElementMBEntity elem_type in
      let '(m1, start) :=
        get_element_connect m (numElements b) verts_per_element mb_type
                            (startExoId b) in
      let b' := {| blockId := blockId b; startExoId := startExoId b;
                   startMBId := start; numElements := numElements b;
                   reading_in := reading_in b; elemType := elem_type |} in
      match create_block_set m1 start (numElements b) mb_type verts_per_element with
      | (m2, None) => inl (MB_FAILURE, b', touched, m2)
      | (m2, Some ms_handle) =>
        match Nc.get temp_var number_nodes with
        | None => inl (MB_FAILURE, b', touched, m2)
        | Some tmp_ptr =>
          match convert_connectivity (vertexOffset r) (Z.to_nat number_nodes)
                  tmp_ptr touched (replicate (Z.to_nat number_nodes) 0) with
          | inl (rc, touched', _) => inl (rc, b', touched', m2)
          | inr (touched', conn) =>
            match store_block m2 b' ms_handle conn file_id_tag with
            | (m3, false) => inl (MB_FAILURE, b', touched', m3)
            | (m3, true) => inr (b', touched', m3)
            end
          end
        end
      end
    end
  end.

(** The loop over [blocksLoading]; [done] are the blocks already passed.
    After an early return the blocks, the marks and the database are as the
    failing block leaves them. *)
Fixpoint block_loop (r : Reader) (done : list ReadBlockData)
    (touched : list bool) (m : Mesh) (block_seq_id : Z)
    (rest : list ReadBlockData) (file_id_tag : bool)
  : ErrorCode * Reader * Mesh :=
  match rest with
  | [] => (MB_SUCCESS, set_blocks r done touched, m)
  | b :: rest' =>
      if negb (reading_in b)
      then block_loop r (done ++ [b]) touched m (block_seq_id + 1) rest' file_id_tag
      else
        match read_block r touched m block_seq_id b file_id_tag with
        | inl (rc, b', touched', m') =>
            (rc, set_blocks r (done ++ b' :: rest') touched', m')
        | inr (b', touched', m') =>
            block_loop r (done ++ [b']) touched' m' (block_seq_id + 1) rest'
                       file_id_tag
        end
  end.

Definition read_elements (r : Reader) (m : Mesh) (file_id_tag : bool)
  : ErrorCode * Reader * Mesh :=
  block_loop r [] (replicate (Z.to_nat (numberNodes_loading r + 1)) false) m 1
             (blocksLoading r) file_id_tag.

End read_elements.

End Elements.

(** ** Sequencing of fallible, stateful code

    A member function that works on state [S] is a function from [S]; it
    gives the state it leaves and either a value ([inr]) or the error code of
    an early [return] ([inl]).  [None] is undefined behaviour. *)

Module Exec.

Definition M (S A : Type) : Type := S -> option (S * (ErrorCode + A)).

Definition ret {S A} (a : A) : M S A := fun s => Some (s, inr a).

Definition bind {S A B} (m : M S A) (k : A -> M S B) : M S B :=
  fun s =>
    match m s with
    | None => None
    | Some (s', inl rc) => Some (s', inl rc)
    | Some (s', inr a) => k a s'
    end.

(** [return rc;] *)
Definition exit {S A} (rc : ErrorCode) : M S A := fun s => Some (s, inl rc).

Definition undefined {S A} : M S A := fun _ => None.

(** The error code the function returns, with the state it leaves;
    falling off the end is the final [return MB_SUCCESS]. *)
Definition run {S} (m : M S unit) (s : S) : option (ErrorCode * S) :=
  match m s with
  | None => None
  | Some (s', inl rc) => Some (rc, s')
  | Some (s', inr _) => Some (MB_SUCCESS, s')
  end.

End Exec.

Declare Scope exec_scope.
Delimit Scope exec_scope with exec.
Notation "x <~ m ;; k" := (Exec.bind m (fun x => k))
  (at level 100, m at next level, right associativity) : exec_scope.
Notation "m ;;; k" := (Exec.bind m (fun _ => k))
  (at level 100, right associativity) : exec_scope.

(** ** The mesh database behind [mdbImpl]

    The reader drives the database through [Interface]; the record below
    keeps what those calls store and hand back.  [D] stands for [double]: the
    reader moves such values around and never computes with them in the
    passes that use this record. *)

Module Db.

Inductive EntityType :=
  | MBVERTEX | MBEDGE | MBTRI | MBQUAD | MBPOLYGON | MBTET | MBPYRAMID
  | MBPRISM | MBKNIFE | MBHEX | MBPOLYHEDRON | MBENTITYSET | MBMAXTYPE.

#[global] Instance EntityType_eq_dec : EqDecision EntityType.
Proof. solve_decision. Defined.

(** [CN::Dimension] *)
Definition Dimension (t : EntityType) : Z :=
  match t with
  | MBVERTEX => 0
  | MBEDGE => 1
  | MBTRI | MBQUAD | MBPOLYGON => 2
  | MBTET | MBPYRAMID | MBPRISM | MBKNIFE | MBHEX | MBPOLYHEDRON => 3
  | MBENTITYSET => 4
  | MBMAXTYPE => -1
  end.

(** An entity set: [MESHSET_ORDERED] keeps a sequence, [MESHSET_SET] keeps
    each member once. *)
Record MeshSet := { ordered : bool; contents : list Z }.

Definition MESHSET_SET : bool := false.
Definition MESHSET_ORDERED : bool := true.

Section db.

Variable D : Type.

(** The fields: all entity handles, in the order a [Range] lists them; the
    entity sets; type and connectivity of the elements; the integer tags
    that exist, each with its default value if it has one; the values of
    integer tags set on entities; the values of the variable-length tag
    [distFactor]; the handle the next entity created gets. *)
Record Moab := {
  entities : list Z;
  meshsets : gmap Z MeshSet;
  elements : gmap Z (EntityType * list Z);
  tags : gmap string (option Z);
  int_tag_data : gmap (string * Z) Z;
  dist_factor_data : gmap Z (list D);
  next_handle : Z
}.

Definition with_sets (db : Moab) (es : list Z) (ms : gmap Z MeshSet) (n : Z) : Moab :=
  {| entities := es; meshsets := ms; elements := elements db;
     tags := tags db; int_tag_data := int_tag_data db;
     dist_factor_data := dist_factor_data db; next_handle := n |}.

Definition with_elements (db : Moab) (es : list Z)
    (el : gmap Z (EntityType * list Z)) (n : Z) : Moab :=
  {| entities := es; meshsets := meshsets db; elements := el;
     tags := tags db; int_tag_data := int_tag_data db;
     dist_factor_data := dist_factor_data db; next_handle := n |}.

Definition with_tags (db : Moab) (ts : gmap string (option Z))
    (td : gmap (string * Z) Z) : Moab :=
  {| entities := entities db; meshsets := meshsets db; elements := elements db;
     tags := ts; int_tag_data := td;
     dist_factor_data := dist_factor_data db; next_handle := next_handle db |}.

Definition with_dist_factors (db : Moab) (df : gmap Z (list D)) : Moab :=
  {| entities := entities db; meshsets := meshsets db; elements := elements db;
     tags := tags db; int_tag_data := int_tag_data db;
     dist_factor_data := df; next_handle := next_handle db |}.

(** [create_meshset(flags, handle)] *)
Definition create_meshset (is_ordered : bool) (db : Moab) : Moab * Z :=
  let h := next_handle db in
  (with_sets db (entities db ++ [h])
             (<[h := {| ordered := is_ordered; contents := [] |}]> (meshsets db))
             (h + 1),
   h).

(** Appending to a sequence; adding to a set. *)
Definition add_to_set (s : MeshSet) (ents : list Z) : MeshSet :=
  {| ordered := ordered s;
     contents :=
       if ordered s then contents s ++ ents
       else foldl (fun acc e => if bool_decide (e ∈ acc) then acc else acc ++ [e])
                  (contents s) ents |}.

(** [add_entities(set, entities, n)] *)
Definition add_entities (set : Z) (ents : list Z) (db : Moab) : ErrorCode * Moab :=
  match meshsets db !! set with
  | None => (MB_ENTITY_NOT_FOUND, db)
  | Some s =>
      (MB_SUCCESS,
       with_sets db (entities db) (<[set := add_to_set s ents]> (meshsets db))
                 (next_handle db))
  end.

(** [get_entities_by_handle(set, vector)] for an entity set. *)
Definition get_entities_by_handle (set : Z) (db : Moab) : ErrorCode + list Z :=
  match meshsets db !! set with
  | None => inl MB_ENTITY_NOT_FOUND
  | Some s => inr (contents s)
  end.

(** [get_entities_by_type(0, MBENTITYSET, range)] *)
Definition all_meshsets (db : Moab) : list Z :=
  List.filter (fun h => bool_decide (is_Some (meshsets db !! h))) (entities db).

(** [subtract(range, initRange)] *)
Definition subtract (range initRange : list Z) : list Z :=
  List.filter (fun h => bool_decide (h ∉ initRange)) range.

(** [tag_get_data(tag, &entity, 1, &value)] for an integer tag: the value
    set on the entity, else the tag's default value. *)
Definition tag_get_data (tag : string) (ent : Z) (db : Moab) : ErrorCode + Z :=
  match int_tag_data db !! (tag, ent) with
  | Some v => inr v
  | None =>
      match tags db !! tag with
      | Some (Some dflt) => inr dflt
      | _ => inl MB_TAG_NOT_FOUND
      end
  end.

(** [tag_set_data(tag, &entity, 1, &value)] *)
Definition tag_set_data (tag : string) (ent : Z) (v : Z) (db : Moab)
  : ErrorCode * Moab :=
  if bool_decide (ent ∈ entities db)
  then (MB_SUCCESS, with_tags db (tags db) (<[(tag, ent) := v]> (int_tag_data db)))
  else (MB_ENTITY_NOT_FOUND, db).

(** [tag_get_handle(name, tag)] and [tag_create(name, .., &default)] *)
Definition tag_get_handle (name : string) (db : Moab) : ErrorCode :=
  if bool_decide (is_Some (tags db !! name)) then MB_SUCCESS else MB_TAG_NOT_FOUND.

Definition tag_create (name : string) (dflt : Z) (db : Moab) : ErrorCode * Moab :=
  (MB_SUCCESS, with_tags db (<[name := Some dflt]> (tags db)) (int_tag_data db)).

(** The variable-length tag: [tag_get_data(mDistFactorTag, .., &ptr, &size)]
    and [tag_set_data(mDistFactorTag, .., &ptr, &size)]. *)
Definition get_dist_factors (ent : Z) (db : Moab) : ErrorCode + list D :=
  match dist_factor_data db !! ent with
  | Some v => inr v
  | None => inl MB_TAG_NOT_FOUND
  end.

Definition set_dist_factors (ent : Z) (v : list D) (db : Moab) : ErrorCode * Moab :=
  if bool_decide (ent ∈ entities db)
  then (MB_SUCCESS, with_dist_factors db (<[ent := v]> (dist_factor_data db)))
  else (MB_ENTITY_NOT_FOUND, db).

(** [get_connectivity] *)
Definition get_connectivity (ent : Z) (db : Moab) : ErrorCode + list Z :=
  match elements db !! ent with
  | Some (_, c) => inr c
  | None => inl MB_ENTITY_NOT_FOUND
  end.

(** [get_adjacencies(&vertex, 1, to_dim, false, adj)]: the entities of
    dimension [to_dim] that have the vertex in their connectivity. *)
Definition get_adjacencies (vertex : Z) (to_dim : Z) (db : Moab) : list Z :=
  List.filter
    (fun h => match elements db !! h with
              | Some (t, c) =>
                  bool_decide (Dimension t = to_dim) && bool_decide (vertex ∈ c)
              | None => false
              end)
    (entities db).

(** [create_element(type, conn, n, handle)] *)
Definition create_element (t : EntityType) (conn : list Z) (db : Moab) : Moab * Z :=
  let h := next_handle db in
  (with_elements db (entities db ++ [h]) (<[h := (t, conn)]> (elements db)) (h + 1),
   h).

End db.

Arguments entities {D} _.
Arguments meshsets {D} _.
Arguments elements {D} _.
Arguments tags {D} _.
Arguments int_tag_data {D} _.
Arguments dist_factor_data {D} _.
Arguments next_handle {D} _.
Arguments create_meshset {D} _ _.
Arguments add_entities {D} _ _ _.
Arguments get_entities_by_handle {D} _ _.
Arguments all_meshsets {D} _.
Arguments tag_get_data {D} _ _ _.
Arguments tag_set_data {D} _ _ _ _.
Arguments tag_get_handle {D} _ _.
Arguments tag_create {D} _ _ _.
Arguments get_dist_factors {D} _ _.
Arguments set_dist_factors {D} _ _ _.
Arguments get_connectivity {D} _ _.
Arguments get_adjacencies {D} _ _ _.
Arguments create_element {D} _ _ _.

End Db.

(** ** [read_nodesets] *)

Module NodeSets.

Import Exec.
Local Open Scope exec_scope.

Section read_nodesets.

Variable D : Type.

(** The value [0.0] a [std::vector<double>] is filled with. *)
Variable dzero : D.

(** [CREATE_HANDLE(type, id, err)] of [Internals.hpp]. *)
Variable CREATE_HANDLE : Db.EntityType -> Z -> Z.

Record Reader := {
  dims : list Nc.NcDim;
  int_vars : list (Nc.NcVar Z);
  double_vars : list (Nc.NcVar D);
  numberNodeSets_loading : Z;
  vertexOffset : Z;
  nodesInLoadedBlocks : list bool;
  initRange : list Z
}.

Abbreviation Moab := (Db.Moab D).

(** A database call that only reads, and one that changes the database and
    reports a status. *)
Definition query {A} (f : Moab -> A) : M Moab A := fun db => Some (db, inr (f db)).

Definition call (f : Moab -> ErrorCode * Moab) : M Moab ErrorCode :=
  fun db => let '(rc, db') := f db in Some (db', inr rc).

(** [if (rc != MB_SUCCESS) return MB_FAILURE;] *)
Definition or_fail (rc : ErrorCode) : M Moab unit :=
  if decide (rc = MB_SUCCESS) then ret tt else exit MB_FAILURE.

(** [GET_DIMB] inside a member function. *)
Definition get_dimb (dims : list Nc.NcDim) (varname : string) (id : Z) : M Moab Z :=
  match Nc.GET_DIMB dims varname id with
  | inl rc => exit rc
  | inr v => ret v
  end.

(** The search for a set that already carries the id: the first handle of
    [candidates] whose tag value is [id], else 0. *)
Fixpoint find_set (tag : string) (id : Z) (db : Moab) (candidates : list Z) : Z :=
  match candidates with
  | [] => 0
  | h :: rest =>
      match Db.tag_get_data tag h db with
      | inl _ => find_set tag id db rest
      | inr set_id => if id =? set_id then h else find_set tag id db rest
      end
  end.

(** The distribution factors of the set as read from the file: a vector of
    [number_nodes_in_set] zeros, overwritten from its start by the
    [number_dist_factors_in_set] values of [dist_fact_ns<i>]. *)
Definition read_dist_factors (r : Reader) (i : Z)
    (number_nodes_in_set number_dist_factors_in_set : Z) : M Moab (list D) :=
  if number_dist_factors_in_set =? 0
  then ret (replicate (Z.to_nat number_nodes_in_set) dzero)
  else
    match Nc.get_var (double_vars r) (Nc.INS_ID "dist_fact_ns" (i + 1)) with
    | None => exit MB_FAILURE
    | Some temp_var =>
        if negb (Nc.var_is_valid temp_var) then exit MB_FAILURE else
        match Nc.get temp_var number_dist_factors_in_set with
        | None => exit MB_FAILURE
        | Some data =>
            if number_nodes_in_set <? number_dist_factors_in_set then undefined
            else ret (data ++ replicate (Z.to_nat (number_nodes_in_set
                                                   - number_dist_factors_in_set)) dzero)
        end
    end.

(** The handle the loop below makes of an exodus node index (it is kept in
    an [unsigned int]). *)
Definition node_id_of (r : Reader) (node_handle : Z) : Z :=
  Elements.to_unsigned (CREATE_HANDLE Db.MBVERTEX (node_handle + vertexOffset r)).

(** The loop over [j]: [node_handles] and [temp_dist_factor_vector] from
    position [j] on, [nodes] and [dist_factor_vector] as filled so far. *)
Fixpoint node_loop (r : Reader) (ns_handle : Z) (nodes_of_nodeset : list Z)
    (number_dist_factors_in_set : Z)
    (node_handles : list Z) (temp_dist_factor_vector : list D)
    (nodes : list Z) (dist_factor_vector : list D) : option (list Z * list D) :=
  match node_handles with
  | [] => Some (nodes, dist_factor_vector)
  | nh :: node_handles' =>
      let df := default dzero (head temp_dist_factor_vector) in
      let next := node_loop r ns_handle nodes_of_nodeset number_dist_factors_in_set
                            node_handles' (tail temp_dist_factor_vector) in
      if nh <? 0 then None else
      match nodesInLoadedBlocks r !! Z.to_nat nh with
      | None => None
      | Some false => next nodes dist_factor_vector
      | Some true =>
          let node_id := node_id_of r nh in
          if (ns_handle =? 0) || negb (bool_decide (node_id ∈ nodes_of_nodeset))
          then next (nodes ++ [node_id])
                    (if number_dist_factors_in_set =? 0 then dist_factor_vector
                     else dist_factor_vector ++ [df])
          else next nodes dist_factor_vector
      end
  end.

(** The end of the loop body: create the set or extend the one found. *)
Definition commit_nodeset (id : Z) (ns_handle : Z) (nodes : list Z)
    (dist_factor_vector : list D) : M Moab unit :=
  match nodes with
  | [] => ret tt
  | _ :: _ =>
      ns_handle' <~
        (if ns_handle =? 0 then
           h <~ (fun db => let '(db', h) := Db.create_meshset Db.MESHSET_ORDERED db in
                           Some (db', inr h)) ;;
           rc <~ call (Db.tag_set_data "mDirichletSetTag" h id) ;;
           or_fail rc ;;;
           rc <~ call (Db.tag_set_data "mGlobalIdTag" h id) ;;
           or_fail rc ;;;
           match dist_factor_vector with
           | [] => ret h
           | _ :: _ =>
               rc <~ call (Db.set_dist_factors h dist_factor_vector) ;;
               or_fail rc ;;;
               ret h
           end
         else
           match dist_factor_vector with
           | [] => ret ns_handle
           | _ :: _ =>
               old <~ query (Db.get_dist_factors ns_handle) ;;
               match old with
               | inl _ => exit MB_FAILURE
               | inr data =>
                   rc <~ call (Db.set_dist_factors ns_handle (dist_factor_vector ++ data)) ;;
                   or_fail rc ;;;
                   ret ns_handle
               end
           end) ;;
      rc <~ call (Db.add_entities ns_handle' nodes) ;;
      or_fail rc
  end.

(** The body of the loop over the node sets, for set [i] (from 0) with id
    [id_array[i]]. *)
Definition read_nodeset (r : Reader) (i : Z) (id : Z) : M Moab unit :=
  number_nodes_in_set <~ get_dimb (dims r) "num_nod_ns" (i + 1) ;;
  number_dist_factors_in_set <~ get_dimb (dims r) "num_df_ns" (i + 1) ;;
  temp_dist_factor_vector <~
    read_dist_factors r i number_nodes_in_set number_dist_factors_in_set ;;
  match Nc.get_var (int_vars r) (Nc.INS_ID "node_ns" (i + 1)) with
  | None => exit MB_FAILURE
  | Some temp_var =>
      if negb (Nc.var_is_valid temp_var) then exit MB_FAILURE else
      match Nc.get temp_var number_nodes_in_set with
      | None => exit MB_FAILURE
      | Some node_handles =>
          child_meshsets <~ query (fun db => Db.subtract (Db.entities db) (initRange r)) ;;
          ns_handle <~ query (fun db => find_set "mDirichletSetTag" id db child_meshsets) ;;
          nodes_of_nodeset <~
            (if ns_handle =? 0 then ret []
             else
               found <~ query (Db.get_entities_by_handle ns_handle) ;;
               match found with
               | inl _ => exit MB_FAILURE
               | inr l => ret l
               end) ;;
          match node_loop r ns_handle nodes_of_nodeset number_dist_factors_in_set
                          node_handles temp_dist_factor_vector [] [] with
          | None => undefined
          | Some (nodes, dist_factor_vector) =>
              commit_nodeset id ns_handle nodes dist_factor_vector
          end
      end
  end.

Fixpoint nodeset_loop (r : Reader) (i : Z) (ids : list Z) : M Moab unit :=
  match ids with
  | [] => ret tt
  | id :: ids' => read_nodeset r i id ;;; nodeset_loop r (i + 1) ids'
  end.

Definition read_nodesets (r : Reader) : M Moab unit :=
  if numberNodeSets_loading r =? 0 then exit MB_SUCCESS else
  match Nc.get_var (int_vars r) "ns_prop1" with
  | None => exit MB_FAILURE
  | Some temp_var =>
      if negb (Nc.var_is_valid temp_var) then exit MB_FAILURE else
      match Nc.get temp_var (numberNodeSets_loading r) with
      | None => exit MB_FAILURE
      | Some id_array => nodeset_loop r 0 id_array
      end
  end.

End read_nodesets.

Arguments dims {D} _.
Arguments int_vars {D} _.
Arguments double_vars {D} _.
Arguments numberNodeSets_loading {D} _.
Arguments vertexOffset {D} _.
Arguments nodesInLoadedBlocks {D} _.
Arguments initRange {D} _.

End NodeSets.

(** ** Side sets: [find_side_element_type], [create_sideset_element],
    [create_ss_elements] and [read_sidesets] *)

Module SideSets.

Import Exec.
Local Open Scope exec_scope.

Definition between (lo hi x : Z) : bool := (lo <=? x) && (x <=? hi).

Section find_side_element_type.

Context `{ExoIIEnum}.

(** [find_side_element_type]: the status, [elem_type], the block copied into
    [block_data] (if any) and [df_index] as the call leaves them.  The sum
    [startExoId + numElements] of the range test is the sum in [Z]: it is the
    sum of the two [int]s as long as that fits an [int]; where it does not,
    the C++ addition overflows and the test made is not the one written
    here. *)
Fixpoint find_side_element_type (blocksLoading : list ReadBlockData)
    (exodus_id : Z) (df_index : Z) (side_id : Z)
  : ErrorCode * Z * option ReadBlockData * Z :=
  match blocksLoading with
  | [] => (MB_FAILURE, EXOII_MAX_ELEM_TYPE, None, df_index)
  | b :: rest =>
      if (startExoId b <=? exodus_id) && (exodus_id <? startExoId b + numElements b)
      then
        let elem_type := elemType b in
        if negb (reading_in b) then
          let df_index' :=
            if between EXOII_HEX EXOII_HEX27 elem_type then df_index + 4
            else if between EXOII_TETRA EXOII_TETRA14 elem_type then df_index + 3
            else if between EXOII_QUAD EXOII_QUAD9 elem_type then df_index + 2
            else if between EXOII_SHELL EXOII_SHELL9 elem_type then
              (if (side_id =? 1) || (side_id =? 2) then df_index + 4
               else df_index + 2)
            else if between EXOII_TRI EXOII_TRI7 elem_type then df_index + 3
            else df_index in
          (MB_FAILURE, elem_type, None, df_index')
        else (MB_SUCCESS, elem_type, Some b, df_index)
      else find_side_element_type rest exodus_id df_index side_id
  end.

End find_side_element_type.

(** *** [create_sideset_element] *)

(** [std::find(v.begin(), v.end(), x) - v.begin()] *)
Fixpoint find_index (x : Z) (v : list Z) : nat :=
  match v with
  | [] => O
  | y :: v' => if y =? x then O else S (find_index x v')
  end.

(** [std::rotate(v.begin(), v.begin() + k, v.end())] *)
Definition std_rotate (v : list Z) (k : nat) : list Z := drop k v ++ take k v.

Definition at_index (v : list Z) (j : nat) : Z := default 0 (v !! j).

(** The first comparison loop, [steps] turns from index [j] on. *)
Fixpoint same_sense (connectivity match_conn : list Z) (j steps : nat) : bool :=
  match steps with
  | O => true
  | S steps' =>
      if negb (at_index connectivity j =? at_index match_conn j) then false
      else same_sense connectivity match_conn (S j) steps'
  end.

(** The second one, which also walks [k] down. *)
Fixpoint opposite_sense (connectivity match_conn : list Z) (j k steps : nat) : bool :=
  match steps with
  | O => true
  | S steps' =>
      if negb (at_index connectivity j =? at_index match_conn k) then false
      else opposite_sense connectivity match_conn (S j) (Nat.pred k) steps'
  end.

(** The test made of one adjacent entity whose connectivity is [match_conn]. *)
Definition candidate_matches (connectivity match_conn : list Z) : bool :=
  if negb (length match_conn =? length connectivity)%nat then false else
  let iter := find_index (at_index connectivity 0) match_conn in
  if (iter =? length match_conn)%nat then false else
  let match_conn := std_rotate match_conn iter in
  let n := length connectivity in
  if same_sense connectivity match_conn 1 (n - 1) then true
  else opposite_sense connectivity match_conn 1 (n - 1) (n - 1).

Section sidesets.

Context `{ExoIIEnum}.

Variable D : Type.

Abbreviation Moab := (Db.Moab D).

(** The loop over [adj_ent]: the first entity that matches. *)
Fixpoint match_loop (db : Moab) (connectivity : list Z) (adj_ent : list Z) : option Z :=
  match adj_ent with
  | [] => None
  | e :: rest =>
      match Db.get_connectivity e db with
      | inl _ => match_loop db connectivity rest
      | inr match_conn =>
          if candidate_matches connectivity match_conn then Some e
          else match_loop db connectivity rest
      end
  end.

(** [create_sideset_element]: the value left in [handle]; stored elements are
    never refused by this database, so the status is [MB_SUCCESS]. *)
Definition create_sideset_element (connectivity : list Z) (type : Db.EntityType)
  : M Moab Z :=
  match connectivity with
  | [] => undefined
  | v0 :: _ =>
      fun db =>
        let to_dim := Db.Dimension type in
        let adj_ent := Db.get_adjacencies v0 to_dim db in
        match match_loop db connectivity adj_ent with
        | Some e => Some (db, inr e)
        | None =>
            let '(db', h) := Db.create_element type connectivity db in
            Some (db', inr h)
        end
  end.

(** *** [create_ss_elements] *)

(** The tables of [ExoIIUtil] and [CN]: the entity type of an element type,
    and for a side of an element its type with the positions of its nodes in
    the element's connectivity. *)
Variable ExoIIElementMBEntity : Z -> Db.EntityType.
Variable SubEntityNodeIndices :
  Db.EntityType -> Z -> Z -> Z -> Db.EntityType * list Z.

Record Reader := {
  dims : list Nc.NcDim;
  int_vars : list (Nc.NcVar Z);
  double_vars : list (Nc.NcVar D);
  numberSideSets_loading : Z;
  numberDimensions_loading : Z;
  blocksLoading : list ReadBlockData;
  initRange : list Z
}.

(** The vectors [create_ss_elements] fills, and its cursor. *)
Record Sides := {
  entities_to_add : list Z;
  reverse_entities : list Z;
  dist_factor_vector : list D;
  df_index : Z
}.

Definition set_df_index (s : Sides) (i : Z) : Sides :=
  {| entities_to_add := entities_to_add s; reverse_entities := reverse_entities s;
     dist_factor_vector := dist_factor_vector s; df_index := i |}.

Definition add_entity (s : Sides) (h : Z) : Sides :=
  {| entities_to_add := entities_to_add s ++ [h];
     reverse_entities := reverse_entities s;
     dist_factor_vector := dist_factor_vector s; df_index := df_index s |}.

Definition add_reverse (s : Sides) (h : Z) : Sides :=
  {| entities_to_add := entities_to_add s;
     reverse_entities := reverse_entities s ++ [h];
     dist_factor_vector := dist_factor_vector s; df_index := df_index s |}.

(** [for (k = 0; k < n; k++)
      dist_factor_vector.push_back(temp_dist_factor_vector[df_index++]);]
    under [if (num_dist_factors)]. *)
Fixpoint push_factors (temp_dist_factor_vector : list D) (n : nat) (s : Sides)
  : option Sides :=
  match n with
  | O => Some s
  | S n' =>
      if df_index s <? 0 then None else
      match temp_dist_factor_vector !! Z.to_nat (df_index s) with
      | None => None
      | Some d =>
          push_factors temp_dist_factor_vector n'
            {| entities_to_add := entities_to_add s;
               reverse_entities := reverse_entities s;
               dist_factor_vector := dist_factor_vector s ++ [d];
               df_index := df_index s + 1 |}
      end
  end.

Definition read_factors (num_dist_factors : Z) (temp_dist_factor_vector : list D)
    (n : nat) (s : Sides) : M Moab Sides :=
  if num_dist_factors =? 0 then ret s
  else match push_factors temp_dist_factor_vector n s with
       | None => undefined
       | Some s' => ret s'
       end.

(** [connectivity[k] = nodes[side_node_idx[k]]] for every [k]. *)
Fixpoint gather (nodes : list Z) (side_node_idx : list Z) : option (list Z) :=
  match side_node_idx with
  | [] => Some []
  | i :: rest =>
      if i <? 0 then None else
      match nodes !! Z.to_nat i, gather nodes rest with
      | Some v, Some c => Some (v :: c)
      | _, _ => None
      end
  end.

(** The statements every branch that builds a side shares: connectivity of
    the element, the side's nodes, [create_sideset_element]. *)
Definition make_side (type : Db.EntityType) (ent_handle : Z) (side_dim side_index : Z)
  : M Moab Z :=
  got <~ (fun db => Some (db, inr (Db.get_connectivity ent_handle db))) ;;
  match got with
  | inl _ => exit MB_FAILURE
  | inr nodes =>
      let num_elem_nodes := Z.of_nat (length nodes) in
      let '(subtype, side_node_idx) :=
        SubEntityNodeIndices type num_elem_nodes side_dim side_index in
      match side_node_idx with
      | [] => exit MB_FAILURE
      | _ :: _ =>
          match gather nodes side_node_idx with
          | None => undefined
          | Some connectivity => create_sideset_element connectivity subtype
          end
      end
  end.

(** One turn of the loop over the sides. *)
Definition side_step (r : Reader) (num_dist_factors : Z)
    (temp_dist_factor_vector : list D) (s : Sides) (element_id side : Z)
  : M Moab Sides :=
  let '(rc, exoii_type, found, df_index') :=
    find_side_element_type (blocksLoading r) element_id (df_index s) side in
  let s := set_df_index s df_index' in
  match rc, found with
  | MB_SUCCESS, Some block_data =>
      let type := ExoIIElementMBEntity exoii_type in
      let ent_handle := element_id - startExoId block_data + startMBId block_data in
      let side_num := side - 1 in
      let factors := read_factors num_dist_factors temp_dist_factor_vector in
      if decide (type = Db.MBHEX) then
        h <~ make_side type ent_handle 2 side_num ;;
        factors 4%nat (add_entity s h)
      else if decide (type = Db.MBTET) then
        h <~ make_side type ent_handle 2 side_num ;;
        factors 3%nat (add_entity s h)
      else if bool_decide (type = Db.MBQUAD)
              && (EXOII_SHELL <=? exoii_type) && (exoii_type <=? EXOII_SHELL9) then
        if side =? 1 then factors 4%nat (add_entity s ent_handle)
        else if side =? 2 then factors 4%nat (add_reverse s ent_handle)
        else
          h <~ make_side type ent_handle 1 (side_num - 2) ;;
          factors 2%nat (add_entity s h)
      else if decide (type = Db.MBQUAD) then
        h <~ make_side type ent_handle 1 side_num ;;
        factors 2%nat (add_entity s h)
      else if decide (type = Db.MBTRI) then
        if (numberDimensions_loading r =? 3) && (side <=? 2) then
          factors 3%nat (add_entity s ent_handle)
        else
          let side_offset :=
            if (numberDimensions_loading r =? 3) && (2 <? side) then 2 else 0 in
          h <~ make_side type ent_handle 1 (side_num - side_offset) ;;
          factors 2%nat (add_entity s h)
      else ret s
  | _, _ => ret s
  end.

Fixpoint side_loop (r : Reader) (num_dist_factors : Z)
    (temp_dist_factor_vector : list D) (s : Sides)
    (element_ids side_list : list Z) : M Moab Sides :=
  match element_ids, side_list with
  | element_id :: element_ids', side :: side_list' =>
      s' <~ side_step r num_dist_factors temp_dist_factor_vector s element_id side ;;
      side_loop r num_dist_factors temp_dist_factor_vector s' element_ids' side_list'
  | _, _ => ret s
  end.

Definition create_ss_elements (r : Reader) (element_ids side_list : list Z)
    (num_dist_factors : Z) (ss_seq_id : Z) : M Moab Sides :=
  let start := {| entities_to_add := []; reverse_entities := [];
                  dist_factor_vector := []; df_index := 0 |} in
  if num_dist_factors =? 0
  then side_loop r num_dist_factors [] start element_ids side_list
  else
    match Nc.get_var (double_vars r) (Nc.INS_ID "dist_fact_ss" ss_seq_id) with
    | None => exit MB_FAILURE
    | Some temp_var =>
        if negb (Nc.var_is_valid temp_var) then exit MB_FAILURE else
        match Nc.get temp_var num_dist_factors with
        | None => exit MB_FAILURE
        | Some temp_dist_factor_vector =>
            side_loop r num_dist_factors temp_dist_factor_vector start
                      element_ids side_list
        end
    end.

(** *** [read_sidesets] *)

(** [if (m != MB_SUCCESS) return rc;] around a call of a member function. *)
Definition or_return {A} (rc : ErrorCode) (m : M Moab A) : M Moab A :=
  fun db =>
    match m db with
    | Some (db', inl _) => Some (db', inl rc)
    | other => other
    end.

Definition call (f : Moab -> ErrorCode * Moab) : M Moab ErrorCode :=
  fun db => let '(rc, db') := f db in Some (db', inr rc).

Definition query {A} (f : Moab -> A) : M Moab A := fun db => Some (db, inr (f db)).

Definition new_meshset (is_ordered : bool) : M Moab Z :=
  fun db => let '(db', h) := Db.create_meshset is_ordered db in Some (db', inr h).

(** [if (rc != MB_SUCCESS) return MB_FAILURE;] and
    [if (result != MB_SUCCESS) return result;] *)
Definition or_fail (rc : ErrorCode) : M Moab unit :=
  if decide (rc = MB_SUCCESS) then ret tt else exit MB_FAILURE.

Definition or_result (result : ErrorCode) : M Moab unit :=
  if decide (result = MB_SUCCESS) then ret tt else exit result.

(** The reverse set of a side set that has just been created. *)
Definition make_reverse_set (ss_handle : Z) (reverse_entities : list Z) : M Moab unit :=
  reverse_set <~ new_meshset Db.MESHSET_SET ;;
  result <~ call (Db.add_entities ss_handle [reverse_set]) ;;
  or_result result ;;;
  result <~ call (Db.add_entities reverse_set reverse_entities) ;;
  or_result result ;;;
  result <~ query (Db.tag_get_handle "SENSE") ;;
  result <~ (if decide (result = MB_TAG_NOT_FOUND)
             then call (Db.tag_create "SENSE" 0)
             else ret result) ;;
  or_result result ;;;
  result <~ call (Db.tag_set_data "SENSE" reverse_set (-1)) ;;
  or_result result.

(** What [read_sidesets] does with the sides of one set once
    [create_ss_elements] has returned. *)
Definition commit_sideset (id : Z) (child_meshsets : list Z)
    (number_dist_factors_in_set : Z) (s : Sides) : M Moab unit :=
  match entities_to_add s, reverse_entities s with
  | [], [] => ret tt
  | _, _ =>
      found <~ query (fun db => NodeSets.find_set D "mNeumannSetTag" id db child_meshsets) ;;
      ss_handle <~
        (if found =? 0 then
           ss_handle <~ new_meshset Db.MESHSET_ORDERED ;;
           if ss_handle =? 0 then exit MB_FAILURE else
           rc <~ call (Db.tag_set_data "mNeumannSetTag" ss_handle id) ;;
           or_fail rc ;;;
           rc <~ call (Db.tag_set_data "mGlobalIdTag" ss_handle id) ;;
           or_fail rc ;;;
           match reverse_entities s with
           | [] => ret ss_handle
           | _ :: _ => make_reverse_set ss_handle (reverse_entities s) ;;; ret ss_handle
           end
         else ret found) ;;
      rc <~ call (Db.add_entities ss_handle (entities_to_add s)) ;;
      or_fail rc ;;;
      if number_dist_factors_in_set =? 0 then ret tt
      else
        old <~ query (Db.get_dist_factors ss_handle) ;;
        let temp_dist_factor_vector :=
          match old with
          | inr data => dist_factor_vector s ++ data
          | inl _ => dist_factor_vector s
          end in
        rc <~ call (Db.set_dist_factors ss_handle temp_dist_factor_vector) ;;
        or_fail rc
  end.

(** The body of the loop over the side sets, for set [i] (from 0). *)
Definition read_sideset (r : Reader) (child_meshsets : list Z) (i : Z) (id : Z)
  : M Moab unit :=
  number_sides_in_set <~ NodeSets.get_dimb D (dims r) "num_side_ss" (i + 1) ;;
  number_dist_factors_in_set <~ NodeSets.get_dimb D (dims r) "num_df_ss" (i + 1) ;;
  match Nc.get_var (int_vars r) (Nc.INS_ID "side_ss" (i + 1)) with
  | None => exit MB_FAILURE
  | Some side_var =>
      if negb (Nc.var_is_valid side_var) then exit MB_FAILURE else
      match Nc.get side_var number_sides_in_set with
      | None => exit MB_FAILURE
      | Some side_list =>
          match Nc.get_var (int_vars r) (Nc.INS_ID "elem_ss" (i + 1)) with
          | None => exit MB_FAILURE
          | Some elem_var =>
              if negb (Nc.var_is_valid elem_var) then exit MB_FAILURE else
              match Nc.get elem_var number_sides_in_set with
              | None => exit MB_FAILURE
              | Some element_list =>
                  s <~ or_return MB_FAILURE
                         (create_ss_elements r element_list side_list
                            number_dist_factors_in_set (i + 1)) ;;
                  commit_sideset id child_meshsets number_dist_factors_in_set s
              end
          end
      end
  end.

Fixpoint sideset_loop (r : Reader) (child_meshsets : list Z) (i : Z) (ids : list Z)
  : M Moab unit :=
  match ids with
  | [] => ret tt
  | id :: ids' =>
      read_sideset r child_meshsets i id ;;; sideset_loop r child_meshsets (i + 1) ids'
  end.

Definition read_sidesets (r : Reader) : M Moab unit :=
  if numberSideSets_loading r =? 0 then exit MB_SUCCESS else
  match Nc.get_var (int_vars r) "ss_prop1" with
  | None => exit MB_FAILURE
  | Some temp_var =>
      if negb (Nc.var_is_valid temp_var) then exit MB_FAILURE else
      match Nc.get temp_var (numberSideSets_loading r) with
      | None => exit MB_FAILURE
      | Some id_array =>
          child_meshsets <~
            query (fun db => Db.subtract (Db.all_meshsets db) (initRange r)) ;;
          sideset_loop r child_meshsets 0 id_array
      end
  end.

End sidesets.

Arguments dims {D} _.
Arguments int_vars {D} _.
Arguments double_vars {D} _.
Arguments numberSideSets_loading {D} _.
Arguments numberDimensions_loading {D} _.
Arguments blocksLoading {D} _.
Arguments initRange {D} _.
Arguments entities_to_add {D} _.
Arguments reverse_entities {D} _.
Arguments dist_factor_vector {D} _.
Arguments df_index {D} _.
Arguments set_df_index {D} _ _.
Arguments add_entity {D} _ _.
Arguments add_reverse {D} _ _.

End SideSets.

(** ** [tokenize] and [update] *)

Module Update.

(** *** [tokenize] *)

Definition is_delimiter (delimiters : string) (c : ascii) : bool :=
  existsb (Ascii.eqb c) (String.list_ascii_of_string delimiters).

Fixpoint first_index (p : ascii -> bool) (l : list ascii) : option nat :=
  match l with
  | [] => None
  | c :: l' => if p c then Some O else S <$> first_index p l'
  end.

(** [str.find_first_of(delimiters, pos)] and [str.find_first_not_of]; [None]
    is [std::string::npos]. *)
Definition find_first_of (delimiters : string) (str : list ascii) (pos : option nat)
  : option nat :=
  match pos with
  | None => None
  | Some p => (fun k => (p + k)%nat) <$> first_index (is_delimiter delimiters) (drop p str)
  end.

Definition find_first_not_of (delimiters : string) (str : list ascii) (pos : option nat)
  : option nat :=
  match pos with
  | None => None
  | Some p =>
      (fun k => (p + k)%nat)
        <$> first_index (fun c => negb (is_delimiter delimiters c)) (drop p str)
  end.

(** [str.substr(pos, n)] *)
Definition substr (str : list ascii) (pos n : nat) : string :=
  String.string_of_list_ascii (take n (drop pos str)).

(** The [while] loop; every turn moves [last] past the token it pushed, so
    [fuel] turns with [fuel] above the length of [str] never run out (lemma
    [tokenize_fuel_enough]). *)
Fixpoint tokenize_loop (fuel : nat) (delimiters : string) (str : list ascii)
    (last pos : option nat) (tokens : list string) : list string :=
  match fuel with
  | O => tokens
  | S fuel' =>
      match pos, last with
      | Some p, Some l =>
          let tokens := tokens ++ [substr str l (p - l)] in
          let last := find_first_not_of delimiters str (Some p) in
          let pos := find_first_of delimiters str last in
          let pos := match pos with None => Some (length str) | Some _ => pos end in
          tokenize_loop fuel' delimiters str last pos tokens
      | _, _ => tokens
      end
  end.

Definition tokenize (s : string) (delimiters : string) : list string :=
  let str := String.list_ascii_of_string s in
  let last := find_first_not_of delimiters str (Some O) in
  let pos := find_first_of delimiters str last in
  tokenize_loop (S (length str)) delimiters str last pos [].

(** *** The file and the mesh [update] works on *)

(** What [update] prints about the nodes. *)
Inductive Message :=
  | CannotMatch (exo_id : Z)
  | NodesMatched (found : Z)
  | NodesNotMatched (lost : Z).

Section update.

Variable D : Type.

(** Addition of [double]s, and the content of a [double] that was never
    written. *)
Variable dadd : D -> D -> D.
Variable indeterminate : D.

(** [strtol(s, &endptr, 0)]: the value and the text [endptr] is left at. *)
Variable strtol : string -> Z * string.

(** The deformed file: whether it opens, what [read_exodus_header] returns
    and leaves in [numberNodes_loading] and [numberDimensions_loading], and
    its dimensions and variables ([vals_nod_var<d>] has a row per time
    step). *)
Record ExoFile := {
  is_valid : bool;
  header_rval : ErrorCode;
  numberNodes_loading : Z;
  numberDimensions_loading : Z;
  dims : list Nc.NcDim;
  int_vars : list (Nc.NcVar Z);
  coord_vars : list (Nc.NcVar D);
  nodal_vars : list (Nc.NcVar (list D))
}.

(** The reference mesh: the vertices of the file set (or the error of
    [get_entities_by_type]), their global ids and their coordinates. *)
Record Mesh := {
  cub_file_set_verts : ErrorCode + list Z;
  global_id : gmap Z Z;
  coords : gmap Z (D * D * D)
}.

(** [set_coords(&vertex, 1, xyz)] *)
Definition set_coords (v : Z) (xyz : D * D * D) (m : Mesh) : ErrorCode * Mesh :=
  match coords m !! v with
  | None => (MB_ENTITY_NOT_FOUND, m)
  | Some _ =>
      (MB_SUCCESS,
       {| cub_file_set_verts := cub_file_set_verts m; global_id := global_id m;
          coords := <[v := xyz]> (coords m) |})
  end.

(** [tag_get_data(mGlobalIdTag, cub_verts, &cub_ids[0])] *)
Fixpoint get_global_ids (m : Mesh) (verts : list Z) : ErrorCode + list Z :=
  match verts with
  | [] => inr []
  | v :: verts' =>
      match global_id m !! v, get_global_ids m verts' with
      | Some id, inr ids => inr (id :: ids)
      | None, _ => inl MB_TAG_NOT_FOUND
      | _, inl rc => inl rc
      end
  end.

(** [std::map::insert]: an existing key keeps its value. *)
Definition map_insert (k v : Z) (m : gmap Z Z) : gmap Z Z :=
  match m !! k with
  | Some _ => m
  | None => <[k := v]> m
  end.

Fixpoint fill_id_map (cub_ids cub_verts : list Z) (m : gmap Z Z) : gmap Z Z :=
  match cub_ids, cub_verts with
  | id :: cub_ids', v :: cub_verts' => fill_id_map cub_ids' cub_verts' (map_insert id v m)
  | _, _ => m
  end.

(** *** The directive *)

(** The conversion of a [long] to [int]. *)
Definition long_to_int (pval : Z) : Z := (pval + 2 ^ 31) mod 2 ^ 32 - 2 ^ 31.

Definition token (tokens : list string) (i : nat) : string := default "" (tokens !! i).

(** Step 1, the time step: [inl] is the early return. *)
Definition parse_time_step (tokens : list string) : ErrorCode + Z :=
  if (1 <? length tokens)%nat && negb (String.eqb (token tokens 1) "") then
    let '(pval, endptr) := strtol (token tokens 1) in
    if negb (String.eqb endptr "") then inl MB_TYPE_OUT_OF_RANGE else
    let time_step := long_to_int pval in
    if negb (pval =? time_step) then inl MB_TYPE_OUT_OF_RANGE
    else if time_step <=? 0 then inl MB_TYPE_OUT_OF_RANGE
    else inr time_step
  else inr 1.

(** Step 2, the operation. *)
Definition check_operation (tokens : list string) : ErrorCode + string :=
  if (length tokens <? 3)%nat
     || (negb (String.eqb (token tokens 2) "set")
         && negb (String.eqb (token tokens 2) "add"))
  then inl MB_TYPE_OUT_OF_RANGE
  else inr (token tokens 2).

(** *** Reading the deformed file *)

(** [var->set_cur(t, 0)] followed by [var->get(buffer, 1, n)]; [None] when
    either reports status 0. *)
Definition get_row (v : Nc.NcVar (list D)) (t n : Z) : option (list D) :=
  if t <? 0 then None else
  match Nc.var_values v !! Z.to_nat t with
  | None => None
  | Some row =>
      if (Z.to_nat n <=? length row)%nat then Some (take (Z.to_nat n) row) else None
  end.

(** The arrays [update] reads: [node_num_map], the original coordinates and
    the displacements, each of the three by direction. *)
Record Arrays := {
  ptr : list Z;
  orig_coords : list D * list D * list D;
  deformed_arrays : list D * list D * list D
}.

Definition valid_var {A} (vars : list (Nc.NcVar A)) (name : string)
  : option (Nc.NcVar A) :=
  match Nc.get_var vars name with
  | Some v => if Nc.var_is_valid v then Some v else None
  | None => None
  end.

(** From opening the file to the last coordinate array.  A direction that is
    not read keeps the never-written content of its reserved vector, here the
    empty list.  The outer [None]: the file has no [time_step] dimension, which
    the code dereferences unchecked. *)
Definition read_arrays (f : ExoFile) (time_step : Z) : option (ErrorCode + Arrays) :=
  if negb (is_valid f) then Some (inl MB_FILE_DOES_NOT_EXIST) else
  if negb (bool_decide (header_rval f = MB_SUCCESS)) then Some (inl (header_rval f)) else
  match Nc.get_dim (dims f) "time_step" with
  | None => None
  | Some ncdim =>
    Some (
    if negb (Nc.dim_is_valid ncdim) then inl MB_FAILURE else
    let max_time_steps := Nc.dim_size ncdim in
    if max_time_steps <? time_step then inl MB_FAILURE else
    let n := numberNodes_loading f in
    let three := numberDimensions_loading f =? 3 in
    match (match Nc.get_var (int_vars f) "node_num_map" with
           | None => Some (replicate (Z.to_nat n) 0)
           | Some temp_var => Nc.get temp_var n
           end) with
    | None => inl MB_FAILURE
    | Some ptr =>
      match valid_var (nodal_vars f) "vals_nod_var1",
            valid_var (nodal_vars f) "vals_nod_var2",
            (if three then valid_var (nodal_vars f) "vals_nod_var3"
             else Some {| Nc.var_name := ""; Nc.var_is_valid := true;
                          Nc.var_values := [] |}) with
      | Some coordx, Some coordy, Some coordz =>
        match get_row coordx (time_step - 1) n,
              get_row coordy (time_step - 1) n,
              (if three then get_row coordz (time_step - 1) n else Some []) with
        | Some dx, Some dy, Some dz =>
          match valid_var (coord_vars f) "coordx",
                valid_var (coord_vars f) "coordy",
                (if three then valid_var (coord_vars f) "coordz"
                 else Some {| Nc.var_name := ""; Nc.var_is_valid := true;
                              Nc.var_values := [] |}) with
          | Some coord1, Some coord2, Some coord3 =>
            match Nc.get coord1 n, Nc.get coord2 n,
                  (if three then Nc.get coord3 n else Some []) with
            | Some ox, Some oy, Some oz =>
                inr {| ptr := ptr; orig_coords := (ox, oy, oz);
                       deformed_arrays := (dx, dy, dz) |}
            | _, _, _ => inl MB_FAILURE
            end
          | _, _, _ => inl MB_FAILURE
          end
        | _, _, _ => inl MB_FAILURE
        end
      | _, _, _ => inl MB_FAILURE
      end
    end)
  end.

(** *** Matching the nodes *)

(** The counters and the map the loop over the exodus nodes maintains, and
    what it prints. *)
Record Matching := {
  found : Z;
  lost : Z;
  matched_cub_vert_id_map : gmap Z Z;
  messages : list Message
}.

Definition at_node (a : list D) (i : nat) : D := default indeterminate (a !! i).

(** The loop [for (i = 0; i < numberNodes_loading; ++i)], from node [i] on;
    [ids] is [ptr] from position [i].  Matching is by id
    ([match_node_ids] is [true]).  The displacement magnitudes, which are
    only printed, are left out.  The status is [MB_SUCCESS] when the loop
    runs to its end, else the [rval] it returns. *)
Fixpoint match_nodes (three : bool) (cub_verts_id_map : gmap Z Z) (a : Arrays)
    (i : nat) (ids : list Z) (st : Matching) (m : Mesh)
  : ErrorCode * Matching * Mesh :=
  match ids with
  | [] => (MB_SUCCESS, st, m)
  | exo_id :: ids' =>
      match cub_verts_id_map !! exo_id with
      | Some cub_vert =>
          let '(ox, oy, oz) := orig_coords a in
          let '(dx, dy, dz) := deformed_arrays a in
          let updated_exo_coords :=
            (dadd (at_node ox i) (at_node dx i),
             dadd (at_node oy i) (at_node dy i),
             if three then dadd (at_node oz i) (at_node dz i) else indeterminate) in
          let st' :=
            {| found := found st; lost := lost st;
               matched_cub_vert_id_map :=
                 map_insert exo_id cub_vert (matched_cub_vert_id_map st);
               messages := messages st |} in
          match set_coords cub_vert updated_exo_coords m with
          | (MB_SUCCESS, m') =>
              match_nodes three cub_verts_id_map a (S i) ids'
                {| found := found st' + 1; lost := lost st';
                   matched_cub_vert_id_map := matched_cub_vert_id_map st';
                   messages := messages st' |}
                m'
          | (rval, m') => (rval, st', m')
          end
      | None =>
          match_nodes three cub_verts_id_map a (S i) ids'
            {| found := found st; lost := lost st + 1;
               matched_cub_vert_id_map := matched_cub_vert_id_map st;
               messages := messages st ++ [CannotMatch exo_id] |}
            m
      end
  end.

(** The summary after the loop; the [return MB_FAILURE] for lost nodes is
    commented out in the code. *)
Definition summarize (st : Matching) : Matching :=
  {| found := found st; lost := lost st;
     matched_cub_vert_id_map := matched_cub_vert_id_map st;
     messages :=
       messages st ++ [NodesMatched (found st)]
       ++ (if negb (lost st =? 0) then [NodesNotMatched (lost st)] else []) |}.

Definition no_matching : Matching :=
  {| found := 0; lost := 0; matched_cub_vert_id_map := ∅; messages := [] |}.

(** From the check of the variable name to the summary: the part of [update]
    headed "Move nodes to their deformed locations", after the file is read.
    [inl] is an early return, with the mesh and the messages as they are
    then. *)
Definition move_nodes (tokens : list string) (op : string) (f : ExoFile) (a : Arrays)
    (m : Mesh) : ErrorCode * Mesh * list Message + Matching * Mesh :=
  if negb (String.eqb (token tokens 0) "coord") && negb (String.eqb (token tokens 0) "COORD")
  then inl (MB_NOT_IMPLEMENTED, m, [])
  else if negb (String.eqb op "set") && negb (String.eqb op " set")
  then inl (MB_NOT_IMPLEMENTED, m, [])
  else
    match cub_file_set_verts m with
    | inl rval => inl (rval, m, [])
    | inr cub_verts =>
        match get_global_ids m cub_verts with
        | inl rval => inl (rval, m, [])
        | inr cub_ids =>
            let cub_verts_id_map := fill_id_map cub_ids cub_verts ∅ in
            match match_nodes (numberDimensions_loading f =? 3) cub_verts_id_map a O
                    (ptr a) no_matching m with
            | (MB_SUCCESS, st, m') => inr (summarize st, m')
            | (rval, st, m') => inl (rval, m', messages st)
            end
        end
    end.

(** The part of [update] headed "Remove dead elements from the MOAB
    instance": it gets the file, the time step, [ptr], the map of matched
    nodes and the mesh, and its return value is that of [update]. *)
Variable remove_dead_elements :
  ExoFile -> Z -> list Z -> gmap Z Z -> Mesh -> ErrorCode * Mesh.

(** [update], from the tokens of the [tdata] option on. *)
Definition update_tokens (tokens : list string) (f : ExoFile) (m : Mesh)
  : option (ErrorCode * Mesh * list Message) :=
  match parse_time_step tokens with
  | inl rc => Some (rc, m, [])
  | inr time_step =>
      match check_operation tokens with
      | inl rc => Some (rc, m, [])
      | inr op =>
          match read_arrays f time_step with
          | None => None
          | Some (inl rc) => Some (rc, m, [])
          | Some (inr a) =>
              match move_nodes tokens op f a m with
              | inl early => Some early
              | inr (st, m') =>
                  let '(rc, m'') :=
                    remove_dead_elements f time_step (ptr a)
                                         (matched_cub_vert_id_map st) m' in
                  Some (rc, m'', messages st)
              end
          end
      end
  end.

(** [update]; [tdata] is the value of the option of that name, [None] when
    [get_str_option] does not succeed. *)
Definition update (tdata : option string) (f : ExoFile) (m : Mesh)
  : option (ErrorCode * Mesh * list Message) :=
  match tdata with
  | None => Some (MB_FAILURE, m, [])
  | Some s => update_tokens (tokenize s ",") f m
  end.

End update.

Arguments is_valid {D} _.
Arguments header_rval {D} _.
Arguments numberNodes_loading {D} _.
Arguments numberDimensions_loading {D} _.
Arguments dims {D} _.
Arguments int_vars {D} _.
Arguments coord_vars {D} _.
Arguments nodal_vars {D} _.
Arguments ptr {D} _.
Arguments orig_coords {D} _.
Arguments deformed_arrays {D} _.
Arguments coords {D} _.
Arguments global_id {D} _.
Arguments cub_file_set_verts {D} _.

End Update.

(** ** [read_exodus_header] and [read_tag_values] *)

Module Header.

Import Exec.
Local Open Scope exec_scope.

(** [NcType], and a global attribute of the file with what [type()],
    [num_vals()], [as_int(0)] and [as_string(0)] give for it. *)
Inductive NcType := ncNoType | ncByte | ncChar | ncShort | ncInt | ncFloat | ncDouble.

#[global] Instance NcType_eq_dec : EqDecision NcType.
Proof. solve_decision. Defined.

Record NcAtt := {
  att_name : string;
  att_is_valid : bool;
  att_type : NcType;
  att_num_vals : Z;
  att_as_int : Z;
  att_as_string : string
}.

(** The file: its dimensions, the number of its variables, its global
    attributes and its integer variables. *)
Record NcFile := {
  is_valid : bool;
  dims : list Nc.NcDim;
  num_vars : Z;
  atts : list NcAtt;
  int_vars : list (Nc.NcVar Z)
}.

Definition get_att (f : NcFile) (name : string) : option NcAtt :=
  List.find (fun a => String.eqb name (att_name a)) (atts f).

(** The members of the reader that [read_exodus_header] assigns. *)
Record Counts := {
  CPU_WORD_SIZE : Z;
  IO_WORD_SIZE : Z;
  numberDimensions_loading : Z;
  numberNodes_loading : Z;
  numberElements_loading : Z;
  numberElementBlocks_loading : Z;
  numberNodeSets_loading : Z;
  numberSideSets_loading : Z;
  max_str_length : Z;
  max_line_length : Z
}.

(** The members by name, for the assignments. *)
Inductive Member :=
  | cpu_word_size | io_word_size | num_dim | num_nodes | num_elem | num_el_blk
  | num_node_sets | num_side_sets | len_string | len_line.

Definition assign (x : Member) (v : Z) (c : Counts) : Counts :=
  {| CPU_WORD_SIZE := if x is cpu_word_size then v else CPU_WORD_SIZE c;
     IO_WORD_SIZE := if x is io_word_size then v else IO_WORD_SIZE c;
     numberDimensions_loading := if x is num_dim then v else numberDimensions_loading c;
     numberNodes_loading := if x is num_nodes then v else numberNodes_loading c;
     numberElements_loading := if x is num_elem then v else numberElements_loading c;
     numberElementBlocks_loading :=
       if x is num_el_blk then v else numberElementBlocks_loading c;
     numberNodeSets_loading := if x is num_node_sets then v else numberNodeSets_loading c;
     numberSideSets_loading := if x is num_side_sets then v else numberSideSets_loading c;
     max_str_length := if x is len_string then v else max_str_length c;
     max_line_length := if x is len_line then v else max_line_length c |}.

Definition set (x : Member) (v : Z) : M Counts unit := fun c => Some (assign x v c, inr tt).

(** The macro [GET_DIM(ncdim, name, val)] with [val] the member [x]; a null
    [ncdim] is dereferenced. *)
Definition GET_DIM (f : NcFile) (name : string) (x : Member) : M Counts unit :=
  if Nc.dimension_exists (dims f) name then
    match Nc.get_dim (dims f) name with
    | Some ncdim =>
        if Nc.dim_is_valid ncdim then set x (Nc.dim_size ncdim) else exit MB_FAILURE
    | None => undefined
    end
  else set x 0.

Definition sizeof_double : Z := 8.

Section read_exodus_header.

(** The limits of [netcdf.h]. *)
Variables (NC_MAX_DIMS NC_MAX_VARS : Z).

(** A scalar attribute of the type [t], as the two checks of the word size
    and of the version have it: [inl] is the early return. *)
Definition scalar_att (f : NcFile) (name : string) (t : NcType) : M Counts NcAtt :=
  match get_att f name with
  | None => exit MB_FAILURE
  | Some temp_att =>
      if negb (att_is_valid temp_att) then exit MB_FAILURE
      else if negb (bool_decide (att_type temp_att = t)) || negb (att_num_vals temp_att =? 1)
      then exit MB_FAILURE
      else ret temp_att
  end.

(** The title is copied with [strcpy] into [max_line_length + 1] characters. *)
Definition copy_title (f : NcFile) : M Counts unit :=
  fun c =>
    if max_line_length c + 1 <? 0 then None else
    match get_att f "title" with
    | None => Some (c, inl MB_FAILURE)
    | Some temp_att =>
        if negb (att_is_valid temp_att) then Some (c, inl MB_FAILURE)
        else if att_num_vals temp_att =? 1 then
          if Z.of_nat (String.length (att_as_string temp_att)) <=? max_line_length c
          then Some (c, inr tt)
          else None
        else Some (c, inr tt)
    end.

Definition read_exodus_header (f : NcFile) : M Counts unit :=
  set cpu_word_size sizeof_double ;;;
  set io_word_size sizeof_double ;;;
  if NC_MAX_DIMS <? Z.of_nat (length (dims f)) then exit MB_FAILURE else
  if NC_MAX_VARS <? num_vars f then exit MB_FAILURE else
  temp_att <~ scalar_att f "floating_point_word_size" ncInt ;;
  set io_word_size (att_as_int temp_att) ;;;
  scalar_att f "version" ncFloat ;;;
  GET_DIM f "num_dim" num_dim ;;;
  GET_DIM f "num_nodes" num_nodes ;;;
  GET_DIM f "num_elem" num_elem ;;;
  GET_DIM f "num_el_blk" num_el_blk ;;;
  GET_DIM f "num_elem" num_elem ;;;
  GET_DIM f "num_node_sets" num_node_sets ;;;
  GET_DIM f "num_side_sets" num_side_sets ;;;
  GET_DIM f "len_string" len_string ;;;
  GET_DIM f "len_line" len_line ;;;
  copy_title f.

End read_exodus_header.

(** *** [read_tag_values] *)

Section read_tag_values.

Variables (NC_MAX_DIMS NC_MAX_VARS : Z).

(** The tag-name constants of [MBTagConventions.hpp]. *)
Variables (MATERIAL_SET_TAG_NAME DIRICHLET_SET_TAG_NAME NEUMANN_SET_TAG_NAME : string).

(** [id_array.resize(count)] *)
Definition resize (id_array : list Z) (count : Z) : list Z :=
  take (Z.to_nat count) id_array
  ++ replicate (Z.to_nat count - length id_array) 0.

(** The count and the variable that go with the tag name; [None] is the
    last [else]. *)
Definition count_and_prop (c : Counts) (tag_name : string) : option (Z * string) :=
  if String.eqb tag_name MATERIAL_SET_TAG_NAME
  then Some (numberElementBlocks_loading c, "eb_prop1"%string)
  else if String.eqb tag_name DIRICHLET_SET_TAG_NAME
  then Some (numberNodeSets_loading c, "ns_prop1"%string)
  else if String.eqb tag_name NEUMANN_SET_TAG_NAME
  then Some (numberSideSets_loading c, "ss_prop1"%string)
  else None.

(** [read_tag_values]: the status, the reader's members and [id_array] as
    the call leaves them.  [subset_list] is [true] for a pointer that is not
    null. *)
Definition read_tag_values (f : NcFile) (tag_name : string) (subset_list : bool)
    (id_array : list Z) (c : Counts) : option (ErrorCode * Counts * list Z) :=
  if subset_list then Some (MB_UNSUPPORTED_OPERATION, c, id_array) else
  if negb (is_valid f) then Some (MB_FILE_DOES_NOT_EXIST, c, id_array) else
  match run (read_exodus_header NC_MAX_DIMS NC_MAX_VARS f) c with
  | None => None
  | Some (rval, c') =>
      if decide (rval = MB_FAILURE) then Some (rval, c', id_array) else
      match count_and_prop c' tag_name with
      | None => Some (MB_TAG_NOT_FOUND, c', id_array)
      | Some (count, prop) =>
          if count =? 0 then Some (MB_SUCCESS, c', id_array) else
          match Nc.get_var (int_vars f) prop with
          | None => Some (MB_FAILURE, c', id_array)
          | Some nc_var =>
              if negb (Nc.var_is_valid nc_var) then Some (MB_FAILURE, c', id_array)
              else if count <? 0 then None
              else
                match Nc.get nc_var count with
                | None => Some (MB_FAILURE, c', resize id_array count)
                | Some ids => Some (MB_SUCCESS, c', ids)
                end
          end
      end
  end.

End read_tag_values.

End Header.


(** ** [load_file]: the passes

    What [load_file] does with [blocks_to_load] and [num_blocks] once the
    subset list is dealt with.  The passes are member functions that work on
    the reader and the database; here they are functions on a state [S] that
    holds both. *)

Module Passes.

Import Exec.
Local Open Scope exec_scope.

Section load_passes.

Variable S : Type.

(** [opts.get_str_option("tdata", s)]: the status and [s]. *)
Variable tdata : ErrorCode * string.

(** [update], [reset], whether the file opens, and the passes in the order
    of their calls; [get_init_range] is
    [mdbImpl->get_entities_by_handle(0, initRange)]. *)
Variable update : Z -> option (list Z) -> Z -> S -> option (ErrorCode * S).
Variable reset : S -> S.
Variable file_is_valid : bool.
Variables (read_exodus_header get_init_range : S -> option (ErrorCode * S)).
Variable read_nodes : S -> option (ErrorCode * S).
Variable read_block_headers : option (list Z) -> Z -> S -> option (ErrorCode * S).
Variables (read_elements read_global_ids read_nodesets read_sidesets
           : S -> option (ErrorCode * S)).
Variable read_qa_records : Z -> S -> option (ErrorCode * S).

(** [status = pass(); if (MB_FAILURE == status) return status;] *)
Definition pass (p : S -> option (ErrorCode * S)) : M S unit :=
  fun s =>
    match p s with
    | None => None
    | Some (status, s') =>
        if decide (status = MB_FAILURE) then Some (s', inl status) else Some (s', inr tt)
    end.

(** [file_set] is a pointer: [None] is the null pointer, which the call of
    [update] dereferences. *)
Definition load_passes (file_set : option Z) (blocks_to_load : option (list Z))
    (num_blocks : Z) : M S unit :=
  let '(rval, s) := tdata in
  if bool_decide (rval = MB_SUCCESS) && negb (String.eqb s "") then
    match file_set with
    | None => undefined
    | Some cub_file_set =>
        fun st =>
          match update num_blocks blocks_to_load cub_file_set st with
          | None => None
          | Some (rc, st') => Some (st', inl rc)
          end
    end
  else
    (fun st => Some (reset st, inr tt)) ;;;
    if negb file_is_valid then exit MB_FILE_DOES_NOT_EXIST else
    pass read_exodus_header ;;;
    pass get_init_range ;;;
    pass read_nodes ;;;
    pass (read_block_headers blocks_to_load num_blocks) ;;;
    pass read_elements ;;;
    pass read_global_ids ;;;
    pass read_nodesets ;;;
    pass read_sidesets ;;;
    match file_set with
    | Some h => pass (read_qa_records h)
    | None => ret tt
    end.

End load_passes.

End Passes.


(** ** [read_global_ids] *)

Module GlobalIds.

Import Exec.
Local Open Scope exec_scope.

Record Reader := {
  int_vars : list (Nc.NcVar Z);
  numberElements_loading : Z;
  numberNodes_loading : Z;
  vertexOffset : Z;
  blocksLoading : list ReadBlockData
}.

Section read_global_ids.

Variable D : Type.

(** [MB_START_ID] of [Internals.hpp]. *)
Variable MB_START_ID : Z.

Abbreviation Moab := (Db.Moab D).

(** [tag_set_data(tag, range, data)] for the range of the [length data]
    handles from [first] on: entity by entity, up to the first one the
    database does not know. *)
Fixpoint tag_set_range (tag : string) (first : Z) (data : list Z) (db : Moab)
  : ErrorCode * Moab :=
  match data with
  | [] => (MB_SUCCESS, db)
  | v :: data' =>
      match Db.tag_set_data tag first v db with
      | (MB_SUCCESS, db') => tag_set_range tag (first + 1) data' db'
      | (error, db') => (error, db')
      end
  end.

(** The loop over [blocksLoading]; [ptr] is the element map as read and
    [ptr_pos] the position in it.  The database call reads [numElements]
    integers from [&ptr[ptr_pos]]. *)
Fixpoint block_loop (ptr : list Z) (ptr_pos : Z) (blocks : list ReadBlockData)
  : M Moab unit :=
  match blocks with
  | [] => ret tt
  | b :: rest =>
      if reading_in b then
        if startMBId b =? 0 then exit MB_FAILURE
        else if (0 <? numElements b)
                && ((ptr_pos <? 0)
                    || (Z.of_nat (length ptr) <? ptr_pos + numElements b))
        then undefined
        else
          error <~ NodeSets.call D
                     (tag_set_range "mGlobalIdTag" (startMBId b)
                        (take (Z.to_nat (numElements b)) (drop (Z.to_nat ptr_pos) ptr))) ;;
          if decide (error = MB_SUCCESS)
          then block_loop ptr (ptr_pos + numElements b) rest
          else exit error
      else block_loop ptr ptr_pos rest
  end.

(** The node map: read and stored when the file has the variable
    [node_num_map]; a failure to store it is reported and no more. *)
Definition node_map (r : Reader) : M Moab unit :=
  match Nc.get_var (int_vars r) "node_num_map" with
  | None => ret tt
  | Some temp_var =>
      match Nc.get temp_var (numberNodes_loading r) with
      | None => exit MB_FAILURE
      | Some ptr =>
          NodeSets.call D (tag_set_range "mGlobalIdTag" (MB_START_ID + vertexOffset r) ptr) ;;;
          ret tt
      end
  end.

(** [read_global_ids]; it starts with [new int[numberElements_loading]]. *)
Definition read_global_ids (r : Reader) : M Moab unit :=
  if numberElements_loading r <? 0 then undefined else
  match Nc.get_var (int_vars r) "elem_map" with
  | None => exit MB_FAILURE
  | Some temp_var =>
      if negb (Nc.var_is_valid temp_var) then exit MB_FAILURE else
      match Nc.get temp_var (numberElements_loading r) with
      | None => exit MB_FAILURE
      | Some ptr => block_loop ptr 0 (blocksLoading r) ;;; node_map r
      end
  end.

End read_global_ids.

End GlobalIds.


(** ** The QA records: [read_qa_string], [read_qa_information] and
    [read_qa_records] *)

Module Qa.

(** The variable [qa_records]: per record its four strings, each the
    characters the file holds for it. *)
Record Reader := {
  dims : list Nc.NcDim;
  char_vars : list (Nc.NcVar (list (list ascii)));
  max_str_length : Z
}.

(** The macro [GET_DIM]: [inl] is its [return MB_FAILURE]. *)
Definition GET_DIM (dims : list Nc.NcDim) (name : string) : option (ErrorCode + Z) :=
  if Nc.dimension_exists dims name then
    match Nc.get_dim dims name with
    | Some ncdim =>
        Some (if Nc.dim_is_valid ncdim then inr (Nc.dim_size ncdim) else inl MB_FAILURE)
    | None => None
    end
  else Some (inr 0).

(** [read_qa_string]: the [max_str_length] characters it writes from the
    start of [temp_string], or the error. *)
Definition read_qa_string (r : Reader) (record_number record_position : nat)
  : ErrorCode + list ascii :=
  match Nc.get_var (char_vars r) "qa_records" with
  | None => inl MB_FAILURE
  | Some temp_var =>
      if negb (Nc.var_is_valid temp_var) then inl MB_FAILURE else
      match Nc.var_values temp_var !! record_number with
      | None => inl MB_FAILURE
      | Some record =>
          match record !! record_position with
          | None => inl MB_FAILURE
          | Some chars =>
              if (Z.to_nat (max_str_length r) <=? length chars)%nat
              then inr (take (Z.to_nat (max_str_length r)) chars)
              else inl MB_FAILURE
          end
      end
  end.

(** The string a [char*] stands for: the characters in front of the first
    [NUL]. *)
Fixpoint c_string (data : list ascii) : list ascii :=
  match data with
  | [] => []
  | c :: data' => if Ascii.eqb c Ascii.zero then [] else c :: c_string data'
  end.

(** The loop over [j] and the loop over [i] of [read_qa_information]; the
    list is given back as filled so far, also with an error. *)
Fixpoint string_loop (r : Reader) (i : nat) (j : nat) (count : nat)
    (qa_record_list : list (list ascii)) : ErrorCode * list (list ascii) :=
  match count with
  | O => (MB_SUCCESS, qa_record_list)
  | S count' =>
      match read_qa_string r i j with
      | inl _ => (MB_FAILURE, qa_record_list)
      | inr data =>
          string_loop r i (S j) count' (qa_record_list ++ [c_string data])
      end
  end.

Fixpoint record_loop (r : Reader) (i : nat) (count : nat)
    (qa_record_list : list (list ascii)) : ErrorCode * list (list ascii) :=
  match count with
  | O => (MB_SUCCESS, qa_record_list)
  | S count' =>
      match string_loop r i 0 4 qa_record_list with
      | (MB_SUCCESS, l) => record_loop r (S i) count' l
      | failed => failed
      end
  end.

(** [read_qa_information]; [None] when the buffer of [max_str_length + 1]
    characters cannot be made, or is written at [data[-1]]. *)
Definition read_qa_information (r : Reader) (qa_record_list : list (list ascii))
  : option (ErrorCode * list (list ascii)) :=
  match GET_DIM (dims r) "num_qa_rec" with
  | None => None
  | Some (inl rc) => Some (rc, qa_record_list)
  | Some (inr number_records) =>
      if max_str_length r + 1 <? 0 then None
      else if number_records <=? 0 then Some (MB_SUCCESS, qa_record_list)
      else if max_str_length r <? 0 then None
      else Some (record_loop r 0 (Z.to_nat number_records) qa_record_list)
  end.

(** The database, as far as [read_qa_records] uses it: the handles it
    knows and the values of the tag [qaRecord]. *)
Record Store := {
  entities : list Z;
  qa_record : gmap Z (list ascii)
}.

(** [tag_set_data(mQaRecordTag, &file_set, 1, &ptr, &size)] *)
Definition tag_set_data (file_set : Z) (tag_data : list ascii) (db : Store)
  : ErrorCode * Store :=
  if bool_decide (file_set ∈ entities db)
  then (MB_SUCCESS,
        {| entities := entities db; qa_record := <[file_set := tag_data]> (qa_record db) |})
  else (MB_ENTITY_NOT_FOUND, db).

(** The bytes stored: every record followed by a [NUL]. *)
Definition tag_bytes (qa_records : list (list ascii)) : list ascii :=
  flat_map (fun record => record ++ [Ascii.zero]) qa_records.

Definition read_qa_records (r : Reader) (file_set : Z) (db : Store)
  : option (ErrorCode * Store) :=
  match read_qa_information r [] with
  | None => None
  | Some (_, qa_records) =>
      let tag_data := tag_bytes qa_records in
      match tag_data with
      | [] => Some (MB_SUCCESS, db)
      | _ :: _ =>
          let '(rc, db') := tag_set_data file_set tag_data db in
          if decide (rc = MB_SUCCESS) then Some (MB_SUCCESS, db')
          else Some (MB_FAILURE, db')
      end
  end.

End Qa.


(** ** [read_nodes] *)

Module Nodes.

Section read_nodes.

Variable D : Type.

(** The value [0.0], and the content of a coordinate that was never
    written. *)
Variables (dzero indeterminate : D).

(** [MB_START_ID] and [ID_FROM_HANDLE] of [Internals.hpp]. *)
Variable MB_START_ID : Z.
Variable ID_FROM_HANDLE : Z -> Z.

(** The reader's members the pass uses; [coord] has a row per dimension. *)
Record Reader := {
  double_vars : list (Nc.NcVar (list D));
  numberNodes_loading : Z;
  numberDimensions_loading : Z;
  vertexOffset : Z
}.

(** The database, as far as the pass uses it: the coordinates of the
    vertices, the ids [assign_ids] gives, and the handle the next vertex
    sequence starts at. *)
Record Mesh := {
  coords : gmap Z (D * D * D);
  file_ids : gmap Z Z;
  next_vertex : Z
}.

(** Writing one of the three arrays that [get_node_coords] hands out: entry
    [k] of the array is a coordinate of the vertex [node_handle + k]. *)
Inductive Axis := X_axis | Y_axis | Z_axis.

Definition put (a : Axis) (v : D) (xyz : D * D * D) : D * D * D :=
  let '(x, y, z) := xyz in
  match a with
  | X_axis => (v, y, z)
  | Y_axis => (x, v, z)
  | Z_axis => (x, y, v)
  end.

Fixpoint write_array (a : Axis) (node_handle : Z) (values : list D) (m : Mesh) : Mesh :=
  match values with
  | [] => m
  | v :: values' =>
      write_array a (node_handle + 1) values'
        {| coords := alter (put a v) node_handle (coords m);
           file_ids := file_ids m; next_vertex := next_vertex m |}
  end.

(** [get_node_coords(3, n, MB_START_ID, node_handle, arrays)]: a sequence of
    [n] new vertices, their coordinates not written yet.  The reader does not
    look at the status of the call; the call is taken to succeed. *)
Fixpoint new_vertices (node_handle : Z) (n : nat) (c : gmap Z (D * D * D))
  : gmap Z (D * D * D) :=
  match n with
  | O => c
  | S n' =>
      new_vertices (node_handle + 1) n'
        (<[node_handle := (indeterminate, indeterminate, indeterminate)]> c)
  end.

Definition get_node_coords (n : Z) (m : Mesh) : Mesh * Z :=
  let node_handle := next_vertex m in
  ({| coords := new_vertices node_handle (Z.to_nat n) (coords m);
      file_ids := file_ids m;
      next_vertex := node_handle + Z.of_nat (Z.to_nat n) |},
   node_handle).

(** [assign_ids(tag, range, start)]: the entities of the range get the ids
    from [start] on. *)
Fixpoint assign_ids (node_handle : Z) (n : nat) (start : Z) (ids : gmap Z Z) : gmap Z Z :=
  match n with
  | O => ids
  | S n' => assign_ids (node_handle + 1) n' (start + 1) (<[node_handle := start]> ids)
  end.

Definition set_offset (r : Reader) (offset : Z) : Reader :=
  {| double_vars := double_vars r; numberNodes_loading := numberNodes_loading r;
     numberDimensions_loading := numberDimensions_loading r; vertexOffset := offset |}.

(** [read_nodes]; [file_id_tag] is [true] for a pointer that is not null. *)
Definition read_nodes (r : Reader) (file_id_tag : bool) (m : Mesh)
  : ErrorCode * Reader * Mesh :=
  let n := numberNodes_loading r in
  let '(m, node_handle) := get_node_coords n m in
  let r := set_offset r (ID_FROM_HANDLE node_handle - MB_START_ID) in
  match Update.valid_var (double_vars r) "coord" with
  | None => (MB_FAILURE, r, m)
  | Some coords_var =>
      match Update.get_row D coords_var 0 n with
      | None => (MB_FAILURE, r, m)
      | Some xs =>
          let m := write_array X_axis node_handle xs m in
          match Update.get_row D coords_var 1 n with
          | None => (MB_FAILURE, r, m)
          | Some ys =>
              let m := write_array Y_axis node_handle ys m in
              let z_read :=
                if numberDimensions_loading r =? 2
                then Some (replicate (Z.to_nat n) dzero)
                else Update.get_row D coords_var 2 n in
              match z_read with
              | None => (MB_FAILURE, r, m)
              | Some zs =>
                  let m := write_array Z_axis node_handle zs m in
                  (MB_SUCCESS, r,
                   if file_id_tag
                   then {| coords := coords m;
                           file_ids := assign_ids node_handle (Z.to_nat n)
                                                  (vertexOffset r) (file_ids m);
                           next_vertex := next_vertex m |}
                   else m)
              end
          end
      end
  end.

End read_nodes.

Arguments double_vars {D} _.
Arguments numberNodes_loading {D} _.
Arguments numberDimensions_loading {D} _.
Arguments vertexOffset {D} _.
Arguments coords {D} _.
Arguments file_ids {D} _.
Arguments next_vertex {D} _.

End Nodes.

(** * Notions the properties are stated with, and example data *)

(** Enumerator values for the examples, in the order of declaration of the
    element families; the reader depends on nothing but their order. *)
Definition sample_enum : ExoIIEnum :=
  {| EXOII_TRI := 11;   EXOII_TRI7 := 14;
     EXOII_QUAD := 15;  EXOII_QUAD9 := 19;
     EXOII_SHELL := 20; EXOII_SHELL9 := 24;
     EXOII_TETRA := 25; EXOII_TETRA14 := 29;
     EXOII_HEX := 37;   EXOII_HEX27 := 41;
     EXOII_MAX_ELEM_TYPE := 43 |}.

(** A file of one element block, with id 20 and three elements. *)
Definition one_block_file : BlockHeaders.Reader :=
  {| BlockHeaders.dims :=
       [ {| Nc.dim_name := "num_el_in_blk1"; Nc.dim_is_valid := true; Nc.dim_size := 3 |};
         {| Nc.dim_name := "num_nod_per_el1"; Nc.dim_is_valid := true; Nc.dim_size := 4 |} ];
     BlockHeaders.int_vars :=
       [ {| Nc.var_name := "eb_prop1"; Nc.var_is_valid := true; Nc.var_values := [20] |} ];
     BlockHeaders.numberElementBlocks_loading := 1;
     BlockHeaders.blocksLoading := [] |}.

(** A file of four nodes and one block of one [QUAD4] whose connectivity
    names node 0; the vertices of the file are the handles 101 to 104. *)
Definition quad_with_node_zero : Elements.Reader :=
  {| Elements.int_vars :=
       [ {| Nc.var_name := "connect1"; Nc.var_is_valid := true;
            Nc.var_values := [0; 1; 2; 3] |} ];
     Elements.atts :=
       [ {| Elements.att_var := "connect1"; Elements.att_name := "elem_type";
            Elements.att_value := "QUAD4" |} ];
     Elements.numberNodes_loading := 4;
     Elements.vertexOffset := 100;
     Elements.blocksLoading :=
       [ {| blockId := 7; startExoId := 1; startMBId := 0; numElements := 1;
            reading_in := true; elemType := 43 |} ];
     Elements.nodesInLoadedBlocks := [] |}.

(** A database that records, per block, the set handle and the connectivity
    stored; every call succeeds. *)
Definition read_sample_elements (r : Elements.Reader)
  : ErrorCode * Elements.Reader * list (Z * list Z) :=
  Elements.read_elements (list (Z * list Z))
    (fun _ => 16) (fun _ => 4) (fun _ => 3)
    (fun m _ _ _ _ => (m, 1))
    (fun m _ _ _ _ => (m, Some 500))
    (fun m _ ms_handle conn _ => (m ++ [(ms_handle, conn)], true))
    r [] false.

Section side_families.

Context `{ExoIIEnum}.

Definition is_hex (t : Z) : bool := SideSets.between EXOII_HEX EXOII_HEX27 t.
Definition is_tet (t : Z) : bool := SideSets.between EXOII_TETRA EXOII_TETRA14 t.
Definition is_quad (t : Z) : bool := SideSets.between EXOII_QUAD EXOII_QUAD9 t.
Definition is_shell (t : Z) : bool := SideSets.between EXOII_SHELL EXOII_SHELL9 t.
Definition is_tri (t : Z) : bool := SideSets.between EXOII_TRI EXOII_TRI7 t.

(** The block holds the element with this exodus id. *)
Definition owns (b : ReadBlockData) (exodus_id : Z) : Prop :=
  startExoId b <= exodus_id < startExoId b + numElements b.

End side_families.

(** Two blocks: four quads that are read, then two hexes that are not. *)
Definition quads_then_skipped_hexes : SideSets.Reader Z :=
  {| SideSets.dims := []; SideSets.int_vars := []; SideSets.double_vars := [];
     SideSets.numberSideSets_loading := 1;
     SideSets.numberDimensions_loading := 3;
     SideSets.blocksLoading :=
       [ {| blockId := 10; startExoId := 1; startMBId := 201; numElements := 4;
            reading_in := true; elemType := 16 |};
         {| blockId := 20; startExoId := 5; startMBId := 0; numElements := 2;
            reading_in := false; elemType := 38 |} ];
     SideSets.initRange := [] |}.

Definition no_sides : SideSets.Sides Z :=
  {| SideSets.entities_to_add := []; SideSets.reverse_entities := [];
     SideSets.dist_factor_vector := []; SideSets.df_index := 0 |}.

(** The match of the specification.  The candidate is turned, one vertex at
    a time, until its first vertex is the first vertex of the query; the
    query has to be that sequence, or that sequence walked the other way
    round from the same first vertex. *)
Fixpoint align_steps (n : nat) (v : Z) (c : list Z) : list Z :=
  match n, c with
  | S n', x :: rest => if x =? v then c else align_steps n' v (rest ++ [x])
  | _, _ => c
  end.

Definition aligned (v : Z) (c : list Z) : list Z := align_steps (length c) v c.

Definition reverse_traversal (c : list Z) : list Z :=
  match c with
  | [] => []
  | x :: rest => x :: reverse rest
  end.

Definition matches_query (query candidate : list Z) : Prop :=
  length candidate = length query
  /\ hd 0 query ∈ candidate
  /\ (aligned (hd 0 query) candidate = query
      \/ query = reverse_traversal (aligned (hd 0 query) candidate)).

#[global] Instance matches_query_dec query candidate :
  Decision (matches_query query candidate).
Proof. unfold matches_query. apply _. Defined.

(** The first adjacent entity, in the order the database lists them, whose
    connectivity matches the query. *)
Definition first_match {D} (db : Db.Moab D) (query : list Z) (adj_ent : list Z)
  : option Z :=
  List.find (fun e => match Db.get_connectivity e db with
                      | inr c => bool_decide (matches_query query c)
                      | inl _ => false
                      end) adj_ent.

Definition preserves {S A : Type} (R : S -> S -> Prop) (m : Exec.M S A) : Prop :=
  forall s s' res, m s = Some (s', res) -> R s s'.

(** The members of an entity set (none when the handle is no set). *)
Definition members {D : Type} (db : Db.Moab D) (h : Z) : list Z :=
  match Db.meshsets db !! h with
  | Some s => Db.contents s
  | None => []
  end.

(** Every member a set has afterwards was there before or satisfies [P]. *)
Definition grows_by {D : Type} (P : Z -> Prop) (db db' : Db.Moab D) : Prop :=
  forall h v, v ∈ members db' h -> v ∈ members db h \/ P v.

(** The handle of an exodus node index [j] whose mark in
    [nodesInLoadedBlocks] is set. *)
Definition touched_node {D : Type} (CREATE_HANDLE : Db.EntityType -> Z -> Z)
    (r : NodeSets.Reader D) (v : Z) : Prop :=
  exists j, 0 <= j
            /\ NodeSets.nodesInLoadedBlocks r !! Z.to_nat j = Some true
            /\ v = NodeSets.node_id_of D CREATE_HANDLE r j.

(** A database that holds node set 5 already, as set 1 with the vertices
    101 and 103 and the factors 10 and 30. *)
Definition db_with_nodeset : Db.Moab Z :=
  {| Db.entities := [1];
     Db.meshsets := {[ 1 := {| Db.ordered := true; Db.contents := [101; 103] |} ]};
     Db.elements := ∅;
     Db.tags := ∅;
     Db.int_tag_data := {[ ("mDirichletSetTag", 1) := 5; ("mGlobalIdTag", 1) := 5 ]};
     Db.dist_factor_data := {[ 1 := [10; 30] ]};
     Db.next_handle := 2 |}.

(** A file whose node set 5 lists the nodes 1, 3 and 4 with the factors 11,
    31 and 40; the nodes 1, 3 and 4 are touched, and nothing of the database
    belongs to [initRange]. *)
Definition nodeset_with_new_node : NodeSets.Reader Z :=
  {| NodeSets.dims :=
       [ {| Nc.dim_name := "num_nod_ns1"; Nc.dim_is_valid := true; Nc.dim_size := 3 |};
         {| Nc.dim_name := "num_df_ns1"; Nc.dim_is_valid := true; Nc.dim_size := 3 |} ];
     NodeSets.int_vars :=
       [ {| Nc.var_name := "ns_prop1"; Nc.var_is_valid := true; Nc.var_values := [5] |};
         {| Nc.var_name := "node_ns1"; Nc.var_is_valid := true;
            Nc.var_values := [1; 3; 4] |} ];
     NodeSets.double_vars :=
       [ {| Nc.var_name := "dist_fact_ns1"; Nc.var_is_valid := true;
            Nc.var_values := [11; 31; 40] |} ];
     NodeSets.numberNodeSets_loading := 1;
     NodeSets.vertexOffset := 100;
     NodeSets.nodesInLoadedBlocks := [false; true; false; true; true];
     NodeSets.initRange := [] |}.

Definition read_sample_nodesets (r : NodeSets.Reader Z) (db : Db.Moab Z)
  : option (ErrorCode * Db.Moab Z) :=
  Exec.run (NodeSets.read_nodesets Z 0 (fun _ id => id) r) db.

(** The handles of the database lie below the next one to be given out,
    which is not the null handle. *)
Definition well_formed {D : Type} (db : Db.Moab D) : Prop :=
  0 < Db.next_handle db /\ Forall (fun h => h < Db.next_handle db) (Db.entities db).

(** Tables for the examples: the entity type of an element type of
    [sample_enum], and the edges of a quadrilateral. *)
Definition sample_entity_type (t : Z) : Db.EntityType :=
  if SideSets.between 11 14 t then Db.MBTRI
  else if SideSets.between 15 24 t then Db.MBQUAD
  else if SideSets.between 25 29 t then Db.MBTET
  else if SideSets.between 37 41 t then Db.MBHEX
  else Db.MBMAXTYPE.

Definition sample_sub_entity (type : Db.EntityType) (num_nodes side_dim side_index : Z)
  : Db.EntityType * list Z :=
  match type with
  | Db.MBQUAD =>
      if (side_dim =? 1) && SideSets.between 0 3 side_index
      then (Db.MBEDGE, [side_index; (side_index + 1) mod 4])
      else (Db.MBMAXTYPE, [])
  | _ => (Db.MBMAXTYPE, [])
  end.

Definition read_sample_sidesets (r : SideSets.Reader Z) (db : Db.Moab Z)
  : option (ErrorCode * Db.Moab Z) :=
  Exec.run (@SideSets.read_sidesets sample_enum Z sample_entity_type sample_sub_entity r) db.

(** The [reverse_entities] that [create_ss_elements] hands back for a set
    without distribution factors. *)
Definition sample_reverse_entities (r : SideSets.Reader Z) (element_ids side_list : list Z)
    (db : Db.Moab Z) : option (list Z) :=
  match @SideSets.create_ss_elements sample_enum Z sample_entity_type sample_sub_entity
          r element_ids side_list 0 1 db with
  | Some (_, inr s) => Some (SideSets.reverse_entities s)
  | _ => None
  end.

(** One [SHELL4] element, read in as element 201. *)
Definition shell_block : ReadBlockData :=
  {| blockId := 10; startExoId := 1; startMBId := 201; numElements := 1;
     reading_in := true; elemType := 21 |}.

(** A file with side set 9 made of the sides [sides] of element 1. *)
Definition shell_sideset (sides : list Z) : SideSets.Reader Z :=
  {| SideSets.dims :=
       [ {| Nc.dim_name := "num_side_ss1"; Nc.dim_is_valid := true;
            Nc.dim_size := Z.of_nat (length sides) |} ];
     SideSets.int_vars :=
       [ {| Nc.var_name := "ss_prop1"; Nc.var_is_valid := true; Nc.var_values := [9] |};
         {| Nc.var_name := "side_ss1"; Nc.var_is_valid := true; Nc.var_values := sides |};
         {| Nc.var_name := "elem_ss1"; Nc.var_is_valid := true;
            Nc.var_values := map (fun _ => 1) sides |} ];
     SideSets.double_vars := [];
     SideSets.numberSideSets_loading := 1;
     SideSets.numberDimensions_loading := 3;
     SideSets.blocksLoading := [shell_block];
     SideSets.initRange := [] |}.

(** The database once the shell is read: element 201 on the vertices 101 to
    104, no set. *)
Definition db_with_shell : Db.Moab Z :=
  {| Db.entities := [201];
     Db.meshsets := ∅;
     Db.elements := {[ 201 := (Db.MBQUAD, [101; 102; 103; 104]) ]};
     Db.tags := ∅;
     Db.int_tag_data := ∅;
     Db.dist_factor_data := ∅;
     Db.next_handle := 900 |}.

(** The same with side set 9 present as set 900, holding the shell. *)
Definition db_with_sideset : Db.Moab Z :=
  {| Db.entities := [201; 900];
     Db.meshsets := {[ 900 := {| Db.ordered := true; Db.contents := [201] |} ]};
     Db.elements := {[ 201 := (Db.MBQUAD, [101; 102; 103; 104]) ]};
     Db.tags := ∅;
     Db.int_tag_data := {[ ("mNeumannSetTag", 900) := 9; ("mGlobalIdTag", 900) := 9 ]};
     Db.dist_factor_data := ∅;
     Db.next_handle := 901 |}.

(** The two refusals [update] makes on the tokens: of the operation, before
    the file is opened, and of the variable name, after it is read. *)
Definition op_refused (tokens : list string) : bool :=
  (length tokens <? 3)%nat
  || (negb (String.eqb (Update.token tokens 2) "set")
      && negb (String.eqb (Update.token tokens 2) "add")).

Definition name_refused (tokens : list string) : bool :=
  negb (String.eqb (Update.token tokens 0) "coord")
  && negb (String.eqb (Update.token tokens 0) "COORD").

(** A [strtol] for the examples: it reads decimal digits. *)
Fixpoint decimal_strtol (acc : Z) (s : string) : Z * string :=
  match s with
  | EmptyString => (acc, EmptyString)
  | String c rest =>
      let d := Z.of_nat (nat_of_ascii c) - 48 in
      if (0 <=? d) && (d <=? 9) then decimal_strtol (10 * acc + d) rest
      else (acc, s)
  end.

(** A deformed file of two nodes with ids 7 and 8 and two time steps; at
    step 2 node 7 moves by (1, 0, -1). *)
Definition deformed_file : Update.ExoFile Z :=
  {| Update.is_valid := true;
     Update.header_rval := MB_SUCCESS;
     Update.numberNodes_loading := 2;
     Update.numberDimensions_loading := 3;
     Update.dims :=
       [ {| Nc.dim_name := "time_step"; Nc.dim_is_valid := true; Nc.dim_size := 2 |} ];
     Update.int_vars :=
       [ {| Nc.var_name := "node_num_map"; Nc.var_is_valid := true;
            Nc.var_values := [7; 8] |} ];
     Update.coord_vars :=
       [ {| Nc.var_name := "coordx"; Nc.var_is_valid := true; Nc.var_values := [10; 0] |};
         {| Nc.var_name := "coordy"; Nc.var_is_valid := true; Nc.var_values := [20; 0] |};
         {| Nc.var_name := "coordz"; Nc.var_is_valid := true; Nc.var_values := [30; 0] |} ];
     Update.nodal_vars :=
       [ {| Nc.var_name := "vals_nod_var1"; Nc.var_is_valid := true;
            Nc.var_values := [[0; 0]; [1; 0]] |};
         {| Nc.var_name := "vals_nod_var2"; Nc.var_is_valid := true;
            Nc.var_values := [[0; 0]; [0; 0]] |};
         {| Nc.var_name := "vals_nod_var3"; Nc.var_is_valid := true;
            Nc.var_values := [[0; 0]; [-1; 0]] |} ] |}.

(** A reference mesh of two vertices: 501 with global id 7, and 502 with
    global id 99, which no node of the file carries. *)
Definition reference_mesh : Update.Mesh Z :=
  {| Update.cub_file_set_verts := inr [501; 502];
     Update.global_id := {[ 501 := 7; 502 := 99 ]};
     Update.coords := {[ 501 := (10, 20, 30); 502 := (0, 0, 0) ]} |}.

(** [update] on the examples; removing the dead elements is taken to remove
    nothing and succeed. *)
Definition sample_update (tdata : string) (f : Update.ExoFile Z) (m : Update.Mesh Z)
  : option (ErrorCode * Update.Mesh Z * list Update.Message) :=
  Update.update Z Z.add 0 (decimal_strtol 0) (fun _ _ _ _ m' => (MB_SUCCESS, m'))
                (Some tdata) f m.

(** Every vertex the id map leads to has coordinates in the mesh. *)
Definition vertices_known {D : Type} (cub_verts_id_map : gmap Z Z) (m : Update.Mesh D) : Prop :=
  forall k v, cub_verts_id_map !! k = Some v -> is_Some (Update.coords m !! v).

(** The exodus ids of [ids] that the id map knows, and those it lacks. *)
Definition known_ids (cub_verts_id_map : gmap Z Z) (ids : list Z) : list Z :=
  List.filter (fun id => bool_decide (is_Some (cub_verts_id_map !! id))) ids.

Definition unknown_ids (cub_verts_id_map : gmap Z Z) (ids : list Z) : list Z :=
  List.filter (fun id => negb (bool_decide (is_Some (cub_verts_id_map !! id)))) ids.

(** The text [ts] makes when its tokens are joined by the character [sep]. *)
Definition joined (sep : ascii) (ts : list string) : list ascii :=
  match ts with
  | [] => []
  | t :: ts' =>
      String.list_ascii_of_string t
      ++ flat_map (fun t' => sep :: String.list_ascii_of_string t') ts'
  end.

(** A token that is not empty and holds no delimiter. *)
Definition clean_token (delimiters : string) (t : string) : Prop :=
  t <> ""%string
  /\ Forall (fun c => Update.is_delimiter delimiters c = false)
            (String.list_ascii_of_string t).

(** Some delimiter stands behind a character that is none. *)
Definition delimiter_after_text (delimiters : string) (str : list ascii) : Prop :=
  exists i j c d, (i < j)%nat
    /\ str !! i = Some c /\ Update.is_delimiter delimiters c = false
    /\ str !! j = Some d /\ Update.is_delimiter delimiters d = true.

(** The mesh [move_nodes] leaves, whichever way it returns. *)
Definition mesh_after {D : Type}
    (res : ErrorCode * Update.Mesh D * list Update.Message
           + Update.Matching * Update.Mesh D) : Update.Mesh D :=
  match res with
  | inl (_, m, _) => m
  | inr (_, m) => m
  end.

(** Entry [i] of the coordinate arrays, moved by the displacement. *)
Definition displaced {D : Type} (dadd : D -> D -> D) (indeterminate : D)
    (three : bool) (a : Update.Arrays D) (i : nat) : D * D * D :=
  let '(ox, oy, oz) := Update.orig_coords a in
  let '(dx, dy, dz) := Update.deformed_arrays a in
  (dadd (Update.at_node D indeterminate ox i) (Update.at_node D indeterminate dx i),
   dadd (Update.at_node D indeterminate oy i) (Update.at_node D indeterminate dy i),
   if three
   then dadd (Update.at_node D indeterminate oz i) (Update.at_node D indeterminate dz i)
   else indeterminate).

(** The blocks lie one behind the other in the numbering of the file's
    elements, the first one starting at [start]. *)
Fixpoint contiguous (start : Z) (bs : list ReadBlockData) : Prop :=
  match bs with
  | [] => True
  | b :: bs' => startExoId b = start /\ contiguous (start + numElements b) bs'
  end.

(** The number of elements of all the blocks. *)
Definition total_elements (bs : list ReadBlockData) : Z :=
  foldr (fun b n => numElements b + n) 0 bs.

(** The header as [read_block_headers] leaves it: no element type yet. *)
Definition fresh_header `{ExoIIEnum} (b : ReadBlockData) : Prop :=
  elemType b = EXOII_MAX_ELEM_TYPE.

(** What [read_elements] leaves of a block header: everything but the
    element type and the start handle, and all of it for a block that is not
    read in. *)
Definition same_header (b b' : ReadBlockData) : Prop :=
  blockId b' = blockId b /\ startExoId b' = startExoId b
  /\ numElements b' = numElements b /\ reading_in b' = reading_in b
  /\ (reading_in b = false -> b' = b).

(** No entity set has a handle that is still to be given out. *)
Definition sets_below {D : Type} (db : Db.Moab D) : Prop :=
  forall h, is_Some (Db.meshsets db !! h) -> h < Db.next_handle db.

(** Every entity set of [db] is a set of [db'] of the same kind, with the
    members it had in front, in their order. *)
Definition sets_extended {D : Type} (db db' : Db.Moab D) : Prop :=
  forall h s, Db.meshsets db !! h = Some s ->
              exists s', Db.meshsets db' !! h = Some s'
                         /\ Db.ordered s' = Db.ordered s
                         /\ Db.contents s `prefix_of` Db.contents s'.

Definition extends_sets {D : Type} (db db' : Db.Moab D) : Prop :=
  sets_below db -> sets_below db' /\ sets_extended db db'.

(** The test the loop over the nodes of a node set makes of a node index:
    its mark is set, and the set is new or does not hold the node yet. *)
Definition node_is_added {D : Type} (CREATE_HANDLE : Db.EntityType -> Z -> Z)
    (r : NodeSets.Reader D) (ns_handle : Z) (nodes_of_nodeset : list Z) (nh : Z) : bool :=
  match NodeSets.nodesInLoadedBlocks r !! Z.to_nat nh with
  | Some true =>
      (ns_handle =? 0)
      || negb (bool_decide (NodeSets.node_id_of D CREATE_HANDLE r nh ∈ nodes_of_nodeset))
  | _ => false
  end.


(** The passes run one after the other, each on the state the one before
    leaves: the codes they return, in their order, and the state the last one
    leaves; [None] when one of them does not return. *)
Fixpoint passes_in_turn {S : Type} (passes : list (S -> option (ErrorCode * S))) (s : S)
  : option (list ErrorCode * S) :=
  match passes with
  | [] => Some ([], s)
  | p :: rest =>
      match p s with
      | None => None
      | Some (rc, s1) =>
          match passes_in_turn rest s1 with
          | None => None
          | Some (codes, s') => Some (rc :: codes, s')
          end
      end
  end.

(** The records a value of the tag [qaRecord] holds: the pieces that end in
    a [NUL]; [current] is the piece begun. *)
Fixpoint split_at_nul (current : list ascii) (bytes : list ascii) : list (list ascii) :=
  match bytes with
  | [] => []
  | c :: bytes' =>
      if Ascii.eqb c Ascii.zero then current :: split_at_nul [] bytes'
      else split_at_nul (current ++ [c]) bytes'
  end.

(** The number of elements of the blocks read in among the first [k]. *)
Definition read_before (bs : list ReadBlockData) (k : nat) : Z :=
  foldr (fun b n => (if reading_in b then numElements b else 0) + n) 0 (take k bs).

(** The handle [h] is none of the handles [first], ..., [first + n - 1]. *)
Definition outside (first n h : Z) : Prop := h < first \/ first + n <= h.

(** The elements of two blocks read in never share a handle. *)
Definition ranges_apart (bs : list ReadBlockData) : Prop :=
  forall (i k : nat) bi bk,
    i <> k -> bs !! i = Some bi -> bs !! k = Some bk ->
    reading_in bi = true -> reading_in bk = true ->
    startMBId bi + numElements bi <= startMBId bk
    \/ startMBId bk + numElements bk <= startMBId bi.

(** ** Further example data *)

(** The arrays [update] reads from [deformed_file] at time step 2. *)
Definition arrays_at_step_2 : Update.Arrays Z :=
  {| Update.ptr := [7; 8];
     Update.orig_coords := ([10; 0], [20; 0], [30; 0]);
     Update.deformed_arrays := ([1; 0], [0; 0], [-1; 0]) |}.

(** [reference_mesh] with vertex 501 moved, and what the matching counted. *)
Definition moved_reference_mesh : Update.Mesh Z :=
  {| Update.cub_file_set_verts := inr [501; 502];
     Update.global_id := {[ 501 := 7; 502 := 99 ]};
     Update.coords := {[ 501 := (11, 20, 29); 502 := (0, 0, 0) ]} |}.

Definition one_matched_one_lost : Update.Matching :=
  {| Update.found := 1; Update.lost := 1;
     Update.matched_cub_vert_id_map := {[ 7 := 501 ]};
     Update.messages :=
       [Update.CannotMatch 8; Update.NodesMatched 1; Update.NodesNotMatched 1] |}.

(** [one_block_file] with the header of its block read. *)
Definition one_block_read : BlockHeaders.Reader :=
  BlockHeaders.push_block one_block_file
    {| blockId := 20; startExoId := 1; startMBId := 0; numElements := 3;
       reading_in := true; elemType := 43 |}.

(** A file as [quad_with_node_zero], whose quad names node 9 where the
    file has four nodes; and the reader as [read_elements] leaves it when it
    returns at that entry, the last one but one of the backward loop: the
    block has its type and its start handle, and node 3 is marked. *)
Definition quad_with_bad_node : Elements.Reader :=
  {| Elements.int_vars :=
       [ {| Nc.var_name := "connect1"; Nc.var_is_valid := true;
            Nc.var_values := [1; 2; 9; 3] |} ];
     Elements.atts := Elements.atts quad_with_node_zero;
     Elements.numberNodes_loading := 4;
     Elements.vertexOffset := 100;
     Elements.blocksLoading := Elements.blocksLoading quad_with_node_zero;
     Elements.nodesInLoadedBlocks := [] |}.

Definition quad_with_bad_node_left : Elements.Reader :=
  {| Elements.int_vars := Elements.int_vars quad_with_bad_node;
     Elements.atts := Elements.atts quad_with_bad_node;
     Elements.numberNodes_loading := 4;
     Elements.vertexOffset := 100;
     Elements.blocksLoading :=
       [ {| blockId := 7; startExoId := 1; startMBId := 1; numElements := 1;
            reading_in := true; elemType := 16 |} ];
     Elements.nodesInLoadedBlocks := [false; false; false; true; false] |}.

(** A file of two blocks, the first with as many elements as an [int]
    holds. *)
Definition two_blocks_past_int : BlockHeaders.Reader :=
  {| BlockHeaders.dims :=
       [ {| Nc.dim_name := "num_el_in_blk1"; Nc.dim_is_valid := true;
            Nc.dim_size := 2147483647 |};
         {| Nc.dim_name := "num_el_in_blk2"; Nc.dim_is_valid := true; Nc.dim_size := 1 |} ];
     BlockHeaders.int_vars :=
       [ {| Nc.var_name := "eb_prop1"; Nc.var_is_valid := true; Nc.var_values := [10; 20] |} ];
     BlockHeaders.numberElementBlocks_loading := 2;
     BlockHeaders.blocksLoading := [] |}.

(** [db_with_shell] with the edge on the vertices 101 and 102 as entity 900. *)
Definition db_with_edge : Db.Moab Z :=
  {| Db.entities := [201; 900];
     Db.meshsets := ∅;
     Db.elements := {[ 201 := (Db.MBQUAD, [101; 102; 103; 104]);
                       900 := (Db.MBEDGE, [101; 102]) ]};
     Db.tags := ∅;
     Db.int_tag_data := ∅;
     Db.dist_factor_data := ∅;
     Db.next_handle := 901 |}.

(** [db_with_nodeset] once [nodeset_with_new_node] is read: vertex 104 and
    its factor have joined set 1. *)
Definition db_with_longer_nodeset : Db.Moab Z :=
  {| Db.entities := [1];
     Db.meshsets := {[ 1 := {| Db.ordered := true; Db.contents := [101; 103; 104] |} ]};
     Db.elements := ∅;
     Db.tags := ∅;
     Db.int_tag_data := {[ ("mDirichletSetTag", 1) := 5; ("mGlobalIdTag", 1) := 5 ]};
     Db.dist_factor_data := {[ 1 := [40; 10; 30] ]};
     Db.next_handle := 2 |}.

(** [db_with_sideset] once the sides 1 and 2 of the shell are read. *)
Definition db_with_longer_sideset : Db.Moab Z :=
  {| Db.entities := [201; 900];
     Db.meshsets := {[ 900 := {| Db.ordered := true; Db.contents := [201; 201] |} ]};
     Db.elements := {[ 201 := (Db.MBQUAD, [101; 102; 103; 104]) ]};
     Db.tags := ∅;
     Db.int_tag_data := {[ ("mNeumannSetTag", 900) := 9; ("mGlobalIdTag", 900) := 9 ]};
     Db.dist_factor_data := ∅;
     Db.next_handle := 901 |}.

(** The NetCDF file of [one_block_file], with what the header needs: three
    dimensions, four nodes, three elements in one block, no sets. *)
Definition one_block_header : Header.NcFile :=
  {| Header.is_valid := true;
     Header.dims :=
       [ {| Nc.dim_name := "num_dim"; Nc.dim_is_valid := true; Nc.dim_size := 3 |};
         {| Nc.dim_name := "num_nodes"; Nc.dim_is_valid := true; Nc.dim_size := 4 |};
         {| Nc.dim_name := "num_elem"; Nc.dim_is_valid := true; Nc.dim_size := 3 |};
         {| Nc.dim_name := "num_el_blk"; Nc.dim_is_valid := true; Nc.dim_size := 1 |};
         {| Nc.dim_name := "len_string"; Nc.dim_is_valid := true; Nc.dim_size := 33 |};
         {| Nc.dim_name := "len_line"; Nc.dim_is_valid := true; Nc.dim_size := 81 |} ];
     Header.num_vars := 3;
     Header.atts :=
       [ {| Header.att_name := "floating_point_word_size"; Header.att_is_valid := true;
            Header.att_type := Header.ncInt; Header.att_num_vals := 1;
            Header.att_as_int := 4; Header.att_as_string := "" |};
         {| Header.att_name := "version"; Header.att_is_valid := true;
            Header.att_type := Header.ncFloat; Header.att_num_vals := 1;
            Header.att_as_int := 2; Header.att_as_string := "" |};
         {| Header.att_name := "title"; Header.att_is_valid := true;
            Header.att_type := Header.ncChar; Header.att_num_vals := 1;
            Header.att_as_int := 0; Header.att_as_string := "three quads" |} ];
     Header.int_vars := BlockHeaders.int_vars one_block_file |}.

Definition no_counts : Header.Counts :=
  {| Header.CPU_WORD_SIZE := 0; Header.IO_WORD_SIZE := 0;
     Header.numberDimensions_loading := 0; Header.numberNodes_loading := 0;
     Header.numberElements_loading := 0; Header.numberElementBlocks_loading := 0;
     Header.numberNodeSets_loading := 0; Header.numberSideSets_loading := 0;
     Header.max_str_length := 0; Header.max_line_length := 0 |}.

Definition one_block_counts : Header.Counts :=
  {| Header.CPU_WORD_SIZE := 8; Header.IO_WORD_SIZE := 4;
     Header.numberDimensions_loading := 3; Header.numberNodes_loading := 4;
     Header.numberElements_loading := 3; Header.numberElementBlocks_loading := 1;
     Header.numberNodeSets_loading := 0; Header.numberSideSets_loading := 0;
     Header.max_str_length := 33; Header.max_line_length := 81 |}.

(** A pass that reports an error other than [MB_FAILURE]. *)
Definition pass_with_error (s : unit) : option (ErrorCode * unit) :=
  Some (MB_ENTITY_NOT_FOUND, s).

(** A pass that writes its name behind the state, a log, and returns the
    code [rc]; and [load_file] without the [tdata] option, on a file that
    opens, with passes that do so, three of them with an error code. *)
Definition logging_pass (name : string) (rc : ErrorCode) (log : list string)
  : option (ErrorCode * list string) :=
  Some (rc, log ++ [name]).

Definition load_with_log (file_set : option Z) (log : list string)
  : option (ErrorCode * list string) :=
  Exec.run (Passes.load_passes (list string) (MB_ENTITY_NOT_FOUND, ""%string)
              (fun _ _ _ log => Some (MB_SUCCESS, log)) (fun _ => []) true
              (logging_pass "read_exodus_header" MB_SUCCESS)
              (logging_pass "get_init_range" MB_SUCCESS)
              (logging_pass "read_nodes" MB_ENTITY_NOT_FOUND)
              (fun _ _ => logging_pass "read_block_headers" MB_SUCCESS)
              (logging_pass "read_elements" MB_TAG_NOT_FOUND)
              (logging_pass "read_global_ids" MB_SUCCESS)
              (logging_pass "read_nodesets" MB_INVALID_SIZE)
              (logging_pass "read_sidesets" MB_SUCCESS)
              (fun _ => logging_pass "read_qa_records" MB_SUCCESS)
              file_set None 0) log.

(** A file with one QA record of four strings of four characters; the
    second one ends early. *)
Definition qa_file (number_records : Z) : Qa.Reader :=
  {| Qa.dims :=
       [ {| Nc.dim_name := "num_qa_rec"; Nc.dim_is_valid := true;
            Nc.dim_size := number_records |} ];
     Qa.char_vars :=
       [ {| Nc.var_name := "qa_records"; Nc.var_is_valid := true;
            Nc.var_values :=
              [ [ String.list_ascii_of_string "MOAB";
                  String.list_ascii_of_string "4.0" ++ [Ascii.zero];
                  String.list_ascii_of_string "0101";
                  String.list_ascii_of_string "1200" ] ] |} ];
     Qa.max_str_length := 4 |}.

Definition qa_strings : list (list ascii) :=
  map String.list_ascii_of_string ["MOAB"; "4.0"; "0101"; "1200"]%string.

(** A database that knows the file set 77, without and with the record. *)
Definition store_with_file_set : Qa.Store := {| Qa.entities := [77]; Qa.qa_record := ∅ |}.

Definition store_with_record : Qa.Store :=
  {| Qa.entities := [77]; Qa.qa_record := {[ 77 := Qa.tag_bytes qa_strings ]} |}.

(** A file of three elements in one block, read in as the elements 201 to
    203, with the element map 71, 72, 73 and no node map. *)
Definition three_elements : GlobalIds.Reader :=
  {| GlobalIds.int_vars :=
       [ {| Nc.var_name := "elem_map"; Nc.var_is_valid := true;
            Nc.var_values := [71; 72; 73] |} ];
     GlobalIds.numberElements_loading := 3;
     GlobalIds.numberNodes_loading := 4;
     GlobalIds.vertexOffset := 100;
     GlobalIds.blocksLoading :=
       [ {| blockId := 10; startExoId := 1; startMBId := 201; numElements := 3;
            reading_in := true; elemType := 16 |} ] |}.

Definition db_of_three_elements (int_tag_data : gmap (string * Z) Z) : Db.Moab Z :=
  {| Db.entities := [201; 202; 203];
     Db.meshsets := ∅; Db.elements := ∅; Db.tags := ∅;
     Db.int_tag_data := int_tag_data;
     Db.dist_factor_data := ∅; Db.next_handle := 204 |}.

(** A file of two nodes at (0, 0, 5) and (1, 0, 5), and a database without
    vertices whose next vertex is 1. *)
Definition two_nodes (vertexOffset : Z) : Nodes.Reader Z :=
  {| Nodes.double_vars :=
       [ {| Nc.var_name := "coord"; Nc.var_is_valid := true;
            Nc.var_values := [[0; 1]; [0; 0]; [5; 5]] |} ];
     Nodes.numberNodes_loading := 2;
     Nodes.numberDimensions_loading := 3;
     Nodes.vertexOffset := vertexOffset |}.

Definition no_vertices : Nodes.Mesh Z :=
  {| Nodes.coords := ∅; Nodes.file_ids := ∅; Nodes.next_vertex := 1 |}.

Definition two_vertices : Nodes.Mesh Z :=
  {| Nodes.coords := {[ 1 := (0, 0, 5); 2 := (1, 0, 5) ]};
     Nodes.file_ids := {[ 1 := 0; 2 := 1 ]};
     Nodes.next_vertex := 3 |}.



(** * Properties *)

(** ** [load_file] and the subset list *)

(** C2.  A subset list of a single material-id entry, without partitioning,
    is the one kind of subset the reader is meant to accept; [load_file]
    answers it with the unsupported-operation error, whatever the ids. *)
Theorem load_file_rejects_material_subset :
  forall (MATERIAL_SET_TAG_NAME : string) load_passes (ids : list Z),
    LoadFile.load_file MATERIAL_SET_TAG_NAME load_passes
      (Some (LoadFile.material_subset MATERIAL_SET_TAG_NAME ids))
    = Some MB_UNSUPPORTED_OPERATION.
Proof.
  intros name passes ids.
  unfold LoadFile.load_file, LoadFile.subset_stage, LoadFile.material_subset; simpl.
  unfold LoadFile.strcmp_is_zero. now rewrite String.eqb_refl.
Qed.

(** The same entry under any other tag name passes the check, and its values
    become the blocks to load. *)
Lemma load_file_accepts_other_tag :
  forall (MATERIAL_SET_TAG_NAME : string) load_passes (t : LoadFile.IDTag),
    LoadFile.tag_name t <> MATERIAL_SET_TAG_NAME ->
    LoadFile.load_file MATERIAL_SET_TAG_NAME load_passes
      (Some {| LoadFile.tag_list := [t]; LoadFile.tag_list_length := 1;
               LoadFile.num_parts := 0; LoadFile.part_number := 0 |})
    = Some (load_passes (Some (LoadFile.tag_values t)) (LoadFile.num_tag_values t)).
Proof.
  intros name passes t Hne.
  unfold LoadFile.load_file, LoadFile.subset_stage; simpl.
  unfold LoadFile.strcmp_is_zero.
  destruct (String.eqb_spec (LoadFile.tag_name t) name) as [Heq | _]; [contradiction | reflexivity].
Qed.

(** A subset list of several entries, or one with partitioning, is refused. *)
Lemma load_file_rejects_multi_part :
  forall (MATERIAL_SET_TAG_NAME : string) load_passes (sl : LoadFile.SubsetList) t,
    LoadFile.tag_list sl !! 0%nat = Some t ->
    1 < LoadFile.tag_list_length sl \/ LoadFile.num_parts sl <> 0 ->
    LoadFile.load_file MATERIAL_SET_TAG_NAME load_passes (Some sl)
    = Some MB_UNSUPPORTED_OPERATION.
Proof.
  intros name passes sl t Ht Hmulti.
  unfold LoadFile.load_file, LoadFile.subset_stage.
  destruct (Z.ltb_spec 1 (LoadFile.tag_list_length sl)) as [_ | Hle]; [reflexivity |].
  rewrite Ht.
  destruct (LoadFile.strcmp_is_zero _ _); [reflexivity |].
  destruct Hmulti as [Hlt | Hparts]; [lia |].
  destruct (Z.eqb_spec (LoadFile.num_parts sl) 0); [contradiction | reflexivity].
Qed.

(** ** [read_block_headers] *)

Section block_headers_facts.

Context `{ExoIIEnum}.

Lemma std_find_range : forall v base x,
  exists k : nat, (k <= length v)%nat /\
    BlockHeaders.std_find base v x = base + BlockHeaders.sizeof_int * Z.of_nat k /\
    (x ∉ v -> k = length v).
Proof.
  induction v as [| y v IH]; intros base x; simpl.
  - exists O. split; [lia |]. split; [unfold BlockHeaders.sizeof_int; lia | reflexivity].
  - destruct (Z.eqb_spec y x) as [-> | Hne].
    + exists O. split; [lia |]. split; [unfold BlockHeaders.sizeof_int; lia |].
      intros Hnot. exfalso. apply Hnot. left.
    + destruct (IH (base + BlockHeaders.sizeof_int) x) as (k & Hk & Hfind & Habs).
      exists (S k). split; [lia |]. split.
      * rewrite Hfind. unfold BlockHeaders.sizeof_int. lia.
      * intros Hnot. f_equal. apply Habs. intros Hin. apply Hnot. now right.
Qed.

(** An id that [new_blocks] does not hold is found at [new_blocks.end()],
    which is not [block_ids.end()]: the block is marked as read in. *)
Lemma block_header_unlisted_selected :
  forall addr_block_ids addr_new_blocks r block_ids new_blocks seq exodus_id id r' e',
    addr_block_ids <> addr_new_blocks ->
    length new_blocks = length block_ids ->
    id ∉ new_blocks ->
    BlockHeaders.block_header addr_block_ids addr_new_blocks r block_ids new_blocks
                              seq exodus_id id = inr (r', e') ->
    exists b, BlockHeaders.blocksLoading r' = BlockHeaders.blocksLoading r ++ [b]
              /\ blockId b = id /\ reading_in b = true.
Proof.
  intros a_ids a_new r block_ids new_blocks seq exodus_id id r' e' Haddr Hlen Habs.
  unfold BlockHeaders.block_header.
  destruct (Nc.GET_DIMB _ "num_el_in_blk" seq) as [rc | n1]; [discriminate |].
  destruct (Nc.GET_DIMB _ "num_nod_per_el" seq) as [rc | n2]; [discriminate |].
  destruct (Nc.GET_DIMB _ "num_att_in_blk" seq) as [rc | n3]; [discriminate |].
  intros [= <- <-]. eexists. split; [reflexivity |]. split; [reflexivity |]. simpl.
  destruct (std_find_range new_blocks a_new id) as (k & _ & -> & Hk).
  rewrite (Hk Habs), Hlen. unfold BlockHeaders.vec_end.
  apply negb_true_iff, Z.eqb_neq. lia.
Qed.

End block_headers_facts.

(** C1.  The caller asks for block 10 only and the file holds block 20 only:
    the selection rule leaves block 20 out, [read_block_headers] marks it as
    read in. *)
Theorem read_block_headers_selects_unlisted_block :
  BlockHeaders.selected_by_spec (Some [10]) 1 20 = false /\
  BlockHeaders.blocksLoading
    <$> (snd <$> @BlockHeaders.read_block_headers sample_enum 4096 8192
                   one_block_file (Some [10]) 1)
  = Some [ {| blockId := 20; startExoId := 1; startMBId := 0; numElements := 3;
              reading_in := true; elemType := 43 |} ].
Proof. split; reflexivity. Qed.

Lemma GET_DIMB_error : forall dims varname id rc,
  Nc.GET_DIMB dims varname id = inl rc -> rc = MB_FAILURE.
Proof.
  intros dims varname id rc. unfold Nc.GET_DIMB.
  repeat case_match; congruence.
Qed.

Section block_loop_facts.

Context `{ExoIIEnum}.

Lemma block_header_error :
  forall a_ids a_new r block_ids new_blocks seq exodus_id id rc,
    BlockHeaders.block_header a_ids a_new r block_ids new_blocks seq exodus_id id
    = inl rc -> rc = MB_FAILURE.
Proof.
  intros a_ids a_new r block_ids new_blocks seq exodus_id id rc.
  unfold BlockHeaders.block_header.
  destruct (Nc.GET_DIMB _ "num_el_in_blk" seq) as [rc1 | n1] eqn:H1;
    [intros [= <-]; eapply GET_DIMB_error; eassumption |].
  destruct (Nc.GET_DIMB _ "num_nod_per_el" seq) as [rc2 | n2] eqn:H2;
    [intros [= <-]; eapply GET_DIMB_error; eassumption |].
  destruct (Nc.GET_DIMB _ "num_att_in_blk" seq) as [rc3 | n3] eqn:H3;
    [intros [= <-]; eapply GET_DIMB_error; eassumption |].
  discriminate.
Qed.

Variables (addr_block_ids addr_new_blocks : Z).
Hypothesis distinct_storage : addr_block_ids <> addr_new_blocks.

Lemma block_loop_unlisted_selected :
  forall block_ids new_blocks rest r seq exodus_id r',
    length new_blocks = length block_ids ->
    BlockHeaders.block_loop addr_block_ids addr_new_blocks r block_ids new_blocks
                            seq exodus_id rest = (MB_SUCCESS, r') ->
    exists bs, BlockHeaders.blocksLoading r' = BlockHeaders.blocksLoading r ++ bs
               /\ map blockId bs = rest
               /\ Forall (fun b => blockId b ∉ new_blocks -> reading_in b = true) bs.
Proof.
  intros block_ids new_blocks rest. induction rest as [| id rest IH];
    intros r seq exodus_id r' Hlen; simpl.
  - intros [= <-]. exists []. rewrite app_nil_r. repeat split; constructor.
  - destruct (BlockHeaders.block_header _ _ r block_ids new_blocks seq exodus_id id)
      as [rc | [r1 e1]] eqn:Hhead.
    + intros Heq. injection Heq as Hrc Hr. subst rc.
      apply block_header_error in Hhead. discriminate.
    + intros Hloop. destruct (IH _ _ _ _ Hlen Hloop) as (bs & Hbs & Hids & Hall).
      pose proof Hhead as Hpush. unfold BlockHeaders.block_header in Hpush.
      repeat (destruct (Nc.GET_DIMB _ _ _) as [? | ?] in Hpush; [discriminate |]).
      injection Hpush as <- <-. simpl in Hbs.
      eexists (_ :: bs). split; [rewrite Hbs, <- app_assoc; reflexivity |].
      split; [simpl; now rewrite Hids |].
      constructor; [| exact Hall]. simpl. intros Habs.
      destruct (std_find_range new_blocks addr_new_blocks id) as (k & _ & -> & Hk).
      rewrite (Hk Habs), Hlen. unfold BlockHeaders.vec_end.
      apply negb_true_iff, Z.eqb_neq. lia.
Qed.

(** Every block whose id the caller's list lacks is nevertheless marked as
    read in, whenever the list is at least as long as the file has blocks. *)
Lemma read_block_headers_unlisted_selected :
  forall r (list_ids : list Z) r',
    list_ids <> [] ->
    BlockHeaders.read_block_headers addr_block_ids addr_new_blocks r
      (Some list_ids) (Z.of_nat (length list_ids)) = Some (MB_SUCCESS, r') ->
    exists bs, BlockHeaders.blocksLoading r' = BlockHeaders.blocksLoading r ++ bs
               /\ Forall (fun b => blockId b ∉ list_ids -> reading_in b = true) bs.
Proof.
  intros r list_ids r' Hne. unfold BlockHeaders.read_block_headers.
  destruct (Nc.get_var _ _) as [v |]; [| discriminate].
  destruct (negb _); [discriminate |].
  destruct (Nc.get v _) as [block_ids |] eqn:Hget; [| discriminate].
  destruct (Z.eqb_spec (Z.of_nat (length list_ids)) 0) as [H0 | _].
  { destruct list_ids; [contradiction | simpl in H0; lia]. }
  destruct (Nat.leb_spec (Z.to_nat (BlockHeaders.numberElementBlocks_loading r))
                         (length list_ids)) as [Hle | _]; [| discriminate].
  intros [= Hloop].
  assert (Hlen : length (take (Z.to_nat (BlockHeaders.numberElementBlocks_loading r))
                              list_ids) = length block_ids).
  { unfold Nc.get in Hget. destruct (_ <=? _)%nat eqn:Hn in Hget; [| discriminate].
    injection Hget as <-. apply Nat.leb_le in Hn. rewrite !length_take. lia. }
  destruct (block_loop_unlisted_selected _ _ _ _ _ _ _ Hlen Hloop) as (bs & Hbs & _ & Hall).
  exists bs. split; [exact Hbs |].
  eapply Forall_impl; [exact Hall |]. simpl. intros b Hb Habs. apply Hb.
  intros Hin. apply Habs. eapply subseteq_take; exact Hin.
Qed.

End block_loop_facts.

(** ** [read_elements]: the conversion of the connectivity *)

(** The bound check, for a 32-bit [int] [x] and a vector of at most [2^31]
    marks: it lets through exactly the indices of the vector. *)
Lemma bound_check_passes_iff : forall (size : nat) (x : Z),
  - 2 ^ 31 <= x < 2 ^ 31 -> Z.of_nat size <= 2 ^ 31 ->
  (Z.of_nat size <=? Elements.to_unsigned x) = false <-> 0 <= x < Z.of_nat size.
Proof.
  intros size x Hx Hsize. unfold Elements.to_unsigned. rewrite Z.leb_gt.
  destruct (Z_lt_le_dec x 0) as [Hneg | Hpos].
  - replace (x mod 2 ^ 32) with (x + 2 ^ 32)
      by (apply Z.mod_unique with (q := -1); lia).
    lia.
  - rewrite Z.mod_small by lia. lia.
Qed.

Lemma convert_connectivity_succeeds :
  forall vertexOffset tmp_ptr k touched conn,
    (k <= length tmp_ptr)%nat -> (k <= length conn)%nat ->
    (forall i x, (i < k)%nat -> tmp_ptr !! i = Some x ->
                 (Z.of_nat (length touched) <=? Elements.to_unsigned x) = false
                 /\ 0 <= x < Z.of_nat (length touched)) ->
    exists touched' conn',
      Elements.convert_connectivity vertexOffset k tmp_ptr touched conn
      = inr (touched', conn')
      /\ length touched' = length touched
      /\ length conn' = length conn
      /\ (forall i x, (i < k)%nat -> tmp_ptr !! i = Some x ->
                      conn' !! i = Some (x + vertexOffset)
                      /\ touched' !! Z.to_nat x = Some true)
      /\ (forall i, (k <= i)%nat -> conn' !! i = conn !! i)
      /\ (forall j, touched !! j = Some true -> touched' !! j = Some true).
Proof.
  intros off tmp. induction k as [| i IH]; intros touched conn Htmp Hconn Hok.
  - exists touched, conn. simpl. repeat split; try done; intros; lia.
  - simpl. assert (is_Some (tmp !! i)) as [x Hx] by (apply lookup_lt_is_Some_2; lia).
    rewrite Hx. simpl.
    destruct (Hok i x ltac:(lia) Hx) as [Hcheck Hrange]. rewrite Hcheck.
    destruct (IH (<[Z.to_nat x := true]> touched) (<[i := x + off]> conn))
      as (t' & c' & Hrun & Ht' & Hc' & Hdone & Hrest & Hmono).
    + lia.
    + rewrite length_insert. lia.
    + intros j y Hj Hy. rewrite length_insert. apply (Hok j y); [lia | exact Hy].
    + exists t', c'. rewrite Hrun. rewrite length_insert in Ht'.
      rewrite length_insert in Hc'.
      split; [reflexivity |]. split; [exact Ht' |]. split; [exact Hc' |].
      split; [| split].
      * intros j y Hj Hy. destruct (decide (j = i)) as [-> | Hne].
        -- assert (y = x) as -> by congruence. split.
           ++ rewrite Hrest by lia. apply list_lookup_insert_eq. lia.
           ++ apply Hmono, list_lookup_insert_eq. lia.
        -- apply Hdone; [lia | exact Hy].
      * intros j Hj. rewrite Hrest by lia. apply list_lookup_insert_ne. lia.
      * intros j Hj. apply Hmono.
        destruct (decide (j = Z.to_nat x)) as [-> | Hne].
        -- apply list_lookup_insert_eq. lia.
        -- rewrite list_lookup_insert_ne by congruence. exact Hj.
Qed.

Lemma convert_connectivity_fails :
  forall vertexOffset tmp_ptr k touched conn i x,
    (i < k)%nat -> tmp_ptr !! i = Some x ->
    (Z.of_nat (length touched) <=? Elements.to_unsigned x) = true ->
    exists touched' conn',
      Elements.convert_connectivity vertexOffset k tmp_ptr touched conn
      = inl (MB_FAILURE, touched', conn').
Proof.
  intros off tmp. induction k as [| j IH]; intros touched conn i x Hi Hx Hbad; [lia |].
  simpl. destruct (Z.leb_spec (Z.of_nat (length touched))
                              (Elements.to_unsigned (default 0 (tmp !! j))))
    as [_ | Hpass]; [eauto |].
  destruct (decide (i = j)) as [-> | Hne].
  - rewrite Hx in Hpass. simpl in Hpass. apply Z.leb_le in Hbad. lia.
  - apply (IH _ _ i x); [lia | exact Hx |]. now rewrite length_insert.
Qed.

(** The conversion accepts an entry exactly when it is an index of the mark
    vector, that is when [0 <= i <= numNodes]; every accepted entry [i]
    becomes the handle [i + vertexOffset] and is marked. *)
Lemma convert_connectivity_accepts_iff :
  forall vertexOffset numNodes tmp_ptr,
    0 <= numNodes < 2 ^ 31 ->
    Forall (fun x => - 2 ^ 31 <= x < 2 ^ 31) tmp_ptr ->
    let touched := replicate (Z.to_nat (numNodes + 1)) false in
    let conn := replicate (length tmp_ptr) 0 in
    (Forall (fun x => 0 <= x <= numNodes) tmp_ptr ->
     exists touched',
       Elements.convert_connectivity vertexOffset (length tmp_ptr) tmp_ptr touched conn
       = inr (touched', map (fun x => x + vertexOffset) tmp_ptr)
       /\ Forall (fun x => touched' !! Z.to_nat x = Some true) tmp_ptr)
    /\ (~ Forall (fun x => 0 <= x <= numNodes) tmp_ptr ->
        exists touched' conn',
          Elements.convert_connectivity vertexOffset (length tmp_ptr) tmp_ptr touched conn
          = inl (MB_FAILURE, touched', conn')).
Proof.
  intros off n tmp Hn Hint touched conn.
  assert (Hlen : Z.of_nat (length touched) = n + 1)
    by (unfold touched; rewrite length_replicate; lia).
  split.
  - intros Hall.
    destruct (convert_connectivity_succeeds off tmp (length tmp) touched conn)
      as (t' & c' & Hrun & _ & Hc' & Hdone & _ & _).
    + lia.
    + unfold conn. rewrite length_replicate. lia.
    + intros i x _ Hx. rewrite Forall_lookup in Hall, Hint.
      specialize (Hall i x Hx). specialize (Hint i x Hx).
      assert (0 <= x < Z.of_nat (length touched)) by lia.
      split; [| assumption]. apply bound_check_passes_iff; lia.
    + exists t'. split.
      * rewrite Hrun. do 2 f_equal. apply list_eq. intros i.
        rewrite list_lookup_fmap.
        destruct (tmp !! i) as [x |] eqn:Hx; simpl.
        -- apply (Hdone i x); [eapply lookup_lt_Some; eassumption | exact Hx].
        -- apply lookup_ge_None. rewrite Hc'. unfold conn. rewrite length_replicate.
           now apply lookup_ge_None.
      * apply Forall_lookup. intros i x Hx.
        apply (Hdone i x); [eapply lookup_lt_Some; eassumption | exact Hx].
  - intros Hnot. apply not_Forall_Exists in Hnot; [| intros x; apply _].
    apply Exists_exists in Hnot as (x & Hin & Hbad).
    apply list_elem_of_lookup in Hin as [i Hx].
    apply (convert_connectivity_fails off tmp _ touched conn i x);
      [eapply lookup_lt_Some; eassumption | exact Hx |].
    rewrite Forall_lookup in Hint. specialize (Hint i x Hx).
    destruct (Z.leb_spec (Z.of_nat (length touched)) (Elements.to_unsigned x))
      as [_ | Hpass]; [reflexivity |].
    exfalso. apply Hbad.
    assert ((Z.of_nat (length touched) <=? Elements.to_unsigned x) = false)
      as Hf by (apply Z.leb_gt; exact Hpass).
    apply bound_check_passes_iff in Hf; lia.
Qed.

(** C3.  A connectivity entry 0 lies outside [1 .. numNodes], yet
    [read_elements] succeeds on it: the entry becomes the handle
    [0 + vertexOffset], which is none of the file's vertices, and slot 0 of
    the node marks is set. *)
Theorem read_elements_accepts_node_zero :
  read_sample_elements quad_with_node_zero
  = (MB_SUCCESS,
     {| Elements.int_vars := Elements.int_vars quad_with_node_zero;
        Elements.atts := Elements.atts quad_with_node_zero;
        Elements.numberNodes_loading := 4;
        Elements.vertexOffset := 100;
        Elements.blocksLoading :=
          [ {| blockId := 7; startExoId := 1; startMBId := 1; numElements := 1;
               reading_in := true; elemType := 16 |} ];
        Elements.nodesInLoadedBlocks := [true; true; true; true; false] |},
     [ (500, [100; 101; 102; 103]) ]).
Proof. reflexivity. Qed.

(** ** Sides of blocks that are not read *)

Section skipped_sides.

Context `{ExoIIEnum}.

Lemma find_side_element_type_passes_others :
  forall before rest exodus_id df_index side_id,
    Forall (fun b => ~ owns b exodus_id) before ->
    SideSets.find_side_element_type (before ++ rest) exodus_id df_index side_id
    = SideSets.find_side_element_type rest exodus_id df_index side_id.
Proof.
  induction before as [| b before IH]; intros rest exodus_id df side Hnot; [reflexivity |].
  apply Forall_cons in Hnot as [Hb Hbefore]. simpl.
  destruct (Z.leb_spec (startExoId b) exodus_id);
    destruct (Z.ltb_spec exodus_id (startExoId b + numElements b)); simpl;
    try (apply IH; exact Hbefore).
  exfalso. apply Hb. unfold owns. lia.
Qed.

(** A block whose element type belongs to none of the families, such as the
    [EXOII_MAX_ELEM_TYPE] that [read_block_headers] writes and that
    [read_elements] leaves on the blocks it does not read: [df_index] stays. *)
Lemma find_side_element_type_unresolved_type :
  forall before b after exodus_id df_index side_id,
    Forall (fun b' => ~ owns b' exodus_id) before ->
    owns b exodus_id ->
    reading_in b = false ->
    List.filter id [is_hex (elemType b); is_tet (elemType b); is_quad (elemType b);
                    is_shell (elemType b); is_tri (elemType b)] = [] ->
    SideSets.find_side_element_type (before ++ b :: after) exodus_id df_index side_id
    = (MB_FAILURE, elemType b, None, df_index).
Proof.
  intros before b after exodus_id df side Hbefore Howns Hskip Hnone.
  rewrite find_side_element_type_passes_others by exact Hbefore.
  simpl. unfold owns in Howns.
  destruct (Z.leb_spec (startExoId b) exodus_id); [| lia].
  destruct (Z.ltb_spec exodus_id (startExoId b + numElements b)); [| lia].
  simpl. rewrite Hskip. simpl.
  unfold is_hex, is_tet, is_quad, is_shell, is_tri in Hnone.
  destruct (SideSets.between EXOII_HEX EXOII_HEX27 (elemType b)); [discriminate |].
  destruct (SideSets.between EXOII_TETRA EXOII_TETRA14 (elemType b)); [discriminate |].
  destruct (SideSets.between EXOII_QUAD EXOII_QUAD9 (elemType b)); [discriminate |].
  destruct (SideSets.between EXOII_SHELL EXOII_SHELL9 (elemType b)); [discriminate |].
  destruct (SideSets.between EXOII_TRI EXOII_TRI7 (elemType b)); [discriminate |].
  reflexivity.
Qed.

End skipped_sides.


(** ** [create_sideset_element]: reuse of an adjacent entity *)

Lemma find_index_spec : forall v c,
  (SideSets.find_index v c <= length c)%nat
  /\ (SideSets.find_index v c = length c <-> v ∉ c)
  /\ ((SideSets.find_index v c < length c)%nat ->
      c !! SideSets.find_index v c = Some v).
Proof.
  intros v. induction c as [| x c (IHle & IHabs & IHfound)]; simpl.
  - split; [lia |]. split; [| lia]. split; [intros _; apply not_elem_of_nil | reflexivity].
  - destruct (Z.eqb_spec x v) as [-> | Hne].
    + split; [lia |]. split; [| reflexivity].
      split; [discriminate | intros Hnot; exfalso; apply Hnot; left].
    + split; [lia |]. split; [| intros Hlt; apply IHfound; lia].
      rewrite not_elem_of_cons. split.
      * intros Heq. split; [congruence | apply IHabs; lia].
      * intros [_ Habs]. f_equal. now apply IHabs.
Qed.

Lemma find_index_app : forall v c tl,
  (SideSets.find_index v c < length c)%nat ->
  SideSets.find_index v (c ++ tl) = SideSets.find_index v c.
Proof.
  intros v. induction c as [| x c IH]; intros tl; simpl; [lia |].
  destruct (x =? v); [reflexivity |]. intros Hlt. f_equal. apply IH. lia.
Qed.

(** Turning until the vertex is in front is the rotation to its first
    position. *)
Lemma align_steps_rotate : forall v k n c,
  SideSets.find_index v c = k -> (k < length c)%nat -> (k <= n)%nat ->
  align_steps n v c = SideSets.std_rotate c k.
Proof.
  intros v. unfold SideSets.std_rotate.
  induction k as [| k IH]; intros n c Hk Hlt Hn.
  - destruct c as [| x c]; [simpl in Hlt; lia |]. simpl in Hk.
    destruct (Z.eqb_spec x v) as [-> | Hne]; [| discriminate].
    simpl. rewrite app_nil_r.
    destruct n; simpl; [reflexivity | now rewrite Z.eqb_refl].
  - destruct c as [| x c]; [simpl in Hlt; lia |]. simpl in Hk, Hlt.
    destruct (Z.eqb_spec x v) as [-> | Hne]; [discriminate |].
    injection Hk as Hk. destruct n as [| n]; [lia |]. simpl.
    destruct (Z.eqb_spec x v) as [-> | _]; [contradiction |].
    rewrite (IH n (c ++ [x])).
    + rewrite drop_app_le, take_app_le by lia. now rewrite <- app_assoc.
    + rewrite find_index_app; [exact Hk | lia].
    + rewrite length_app. simpl. lia.
    + lia.
Qed.

Lemma same_sense_spec : forall q r steps j,
  SideSets.same_sense q r j steps = true
  <-> forall i, (i < steps)%nat ->
        SideSets.at_index q (j + i) = SideSets.at_index r (j + i).
Proof.
  intros q r. induction steps as [| steps IH]; intros j; simpl.
  - split; [intros _ i Hi; lia | reflexivity].
  - destruct (Z.eqb_spec (SideSets.at_index q j) (SideSets.at_index r j)) as [Heq | Hne]; simpl.
    + rewrite IH. split.
      * intros Hall i Hi. destruct i as [| i]; [now rewrite Nat.add_0_r |].
        replace (j + S i)%nat with (S j + i)%nat by lia. apply Hall. lia.
      * intros Hall i Hi. replace (S j + i)%nat with (j + S i)%nat by lia. apply Hall. lia.
    + split; [discriminate |]. intros Hall. exfalso. apply Hne.
      specialize (Hall O ltac:(lia)). now rewrite Nat.add_0_r in Hall.
Qed.

Lemma opposite_sense_spec : forall q r steps j k,
  SideSets.opposite_sense q r j k steps = true
  <-> forall i, (i < steps)%nat ->
        SideSets.at_index q (j + i) = SideSets.at_index r (k - i).
Proof.
  intros q r. induction steps as [| steps IH]; intros j k; simpl.
  - split; [intros _ i Hi; lia | reflexivity].
  - destruct (Z.eqb_spec (SideSets.at_index q j) (SideSets.at_index r k)) as [Heq | Hne]; simpl.
    + rewrite IH. split.
      * intros Hall i Hi. destruct i as [| i].
        -- now rewrite Nat.add_0_r, Nat.sub_0_r.
        -- replace (j + S i)%nat with (S j + i)%nat by lia.
           replace (k - S i)%nat with (Nat.pred k - i)%nat by lia. apply Hall. lia.
      * intros Hall i Hi. replace (S j + i)%nat with (j + S i)%nat by lia.
        replace (Nat.pred k - i)%nat with (k - S i)%nat by lia. apply Hall. lia.
    + split; [discriminate |]. intros Hall. exfalso. apply Hne.
      specialize (Hall O ltac:(lia)). now rewrite Nat.add_0_r, Nat.sub_0_r in Hall.
Qed.

Lemma at_index_ext : forall a b : list Z,
  length a = length b ->
  (forall j, (j < length a)%nat -> SideSets.at_index a j = SideSets.at_index b j) ->
  a = b.
Proof.
  intros a b Hlen Hall. apply list_eq. intros j.
  destruct (decide (j < length a)%nat) as [Hj | Hj].
  - specialize (Hall j Hj). unfold SideSets.at_index in Hall.
    destruct (lookup_lt_is_Some_2 a j Hj) as [x Hx].
    destruct (lookup_lt_is_Some_2 b j ltac:(lia)) as [y Hy].
    rewrite Hx, Hy in *. simpl in Hall. now subst.
  - rewrite !(proj2 (lookup_ge_None _ _)) by lia. reflexivity.
Qed.

Lemma at_index_reverse_traversal : forall (r : list Z) j,
  (1 <= j < length r)%nat ->
  SideSets.at_index (reverse_traversal r) j = SideSets.at_index r (length r - j).
Proof.
  intros [| x rest] j Hj; simpl in *; [lia |].
  unfold SideSets.at_index. destruct j as [| j]; [lia |]. simpl.
  replace (length rest - j)%nat with (S (length rest - S j))%nat by lia. simpl.
  now rewrite reverse_lookup by lia.
Qed.

Lemma length_std_rotate : forall c k, length (SideSets.std_rotate c k) = length c.
Proof.
  intros c k. unfold SideSets.std_rotate.
  rewrite length_app, length_drop, length_take. lia.
Qed.

Lemma head_std_rotate : forall c k v,
  c !! k = Some v -> SideSets.at_index (SideSets.std_rotate c k) 0 = v.
Proof.
  intros c k v Hk. unfold SideSets.at_index, SideSets.std_rotate.
  rewrite lookup_app_l.
  - rewrite lookup_drop, Nat.add_0_r, Hk. reflexivity.
  - rewrite length_drop. apply lookup_lt_Some in Hk. lia.
Qed.

Lemma length_reverse_traversal : forall r, length (reverse_traversal r) = length r.
Proof. intros [| x r]; simpl; [reflexivity | now rewrite length_reverse]. Qed.

Lemma head_reverse_traversal : forall r,
  SideSets.at_index (reverse_traversal r) 0 = SideSets.at_index r 0.
Proof. now intros [| x r]. Qed.

(** The loops of the code decide the match of the specification. *)
Lemma candidate_matches_spec : forall v0 q' c,
  SideSets.candidate_matches (v0 :: q') c = true <-> matches_query (v0 :: q') c.
Proof.
  intros v0 q' c. set (q := v0 :: q').
  unfold SideSets.candidate_matches, matches_query.
  change (SideSets.at_index q 0) with v0. change (hd 0 q) with v0.
  destruct (Nat.eqb_spec (length c) (length q)) as [Hlen | Hlen]; cbn [negb];
    [| split; [discriminate | intros [? _]; contradiction]].
  destruct (find_index_spec v0 c) as (Hle & Habs & Hfound).
  destruct (Nat.eqb_spec (SideSets.find_index v0 c) (length c)) as [Hend | Hin].
  { split; [discriminate |]. intros (_ & Hv & _). now apply Habs in Hend. }
  set (k := SideSets.find_index v0 c) in *.
  assert (Hk : (k < length c)%nat) by lia.
  assert (Hv : v0 ∈ c) by (apply list_elem_of_lookup; exists k; now apply Hfound).
  assert (Hal : aligned v0 c = SideSets.std_rotate c k)
    by (apply align_steps_rotate; [reflexivity | exact Hk | lia]).
  rewrite Hal. set (r := SideSets.std_rotate c k).
  assert (Hr : length r = length q) by (unfold r; now rewrite length_std_rotate).
  assert (Hr0 : SideSets.at_index r 0 = v0) by (apply head_std_rotate; now apply Hfound).
  assert (Hsame : SideSets.same_sense q r 1 (length q - 1) = true <-> r = q).
  { rewrite same_sense_spec. split.
    - intros Hall. apply at_index_ext; [exact Hr |]. intros j Hj.
      destruct j as [| j]; [exact Hr0 |]. symmetry. apply (Hall j). lia.
    - intros -> i _. reflexivity. }
  assert (Hopp : SideSets.opposite_sense q r 1 (length q - 1) (length q - 1) = true
                 <-> q = reverse_traversal r).
  { rewrite opposite_sense_spec. split.
    - intros Hall. apply at_index_ext; [now rewrite length_reverse_traversal |].
      intros j Hj. destruct j as [| j].
      + now rewrite head_reverse_traversal, Hr0.
      + rewrite at_index_reverse_traversal by lia.
        etransitivity; [apply (Hall j); lia | f_equal; lia].
    - intros Heq i Hi. rewrite Heq at 1.
      rewrite at_index_reverse_traversal by lia. f_equal. lia. }
  destruct (SideSets.same_sense q r 1 (length q - 1)) eqn:Hs.
  - split; [| reflexivity]. intros _. split; [exact Hlen |]. split; [exact Hv |].
    left. now apply Hsame.
  - rewrite Hopp. split.
    + intros Heq. split; [exact Hlen |]. split; [exact Hv |]. now right.
    + intros (_ & _ & [Heq | Heq]); [| exact Heq].
      apply Hsame in Heq. discriminate.
Qed.

(** A quadrilateral is matched by its rotations and by its rotations walked
    the other way round, not by a sequence that crosses its diagonal. *)
Lemma candidate_matches_examples :
  SideSets.candidate_matches [1; 2; 3; 4] [3; 4; 1; 2] = true
  /\ SideSets.candidate_matches [1; 2; 3; 4] [4; 3; 2; 1] = true
  /\ SideSets.candidate_matches [1; 2; 3; 4] [1; 3; 2; 4] = false
  /\ SideSets.candidate_matches [1; 2; 3; 4] [1; 2; 3] = false.
Proof. repeat split; reflexivity. Qed.

Section reuse.

Variable D : Type.

Lemma match_loop_first_match : forall (db : Db.Moab D) v0 q' adj_ent,
  SideSets.match_loop D db (v0 :: q') adj_ent = first_match db (v0 :: q') adj_ent.
Proof.
  intros db v0 q'. induction adj_ent as [| e rest IH]; simpl; [reflexivity |].
  destruct (Db.get_connectivity e db) as [rc | c]; [exact IH |].
  destruct (SideSets.candidate_matches (v0 :: q') c) eqn:Hc.
  - apply candidate_matches_spec in Hc. now rewrite bool_decide_eq_true_2.
  - rewrite bool_decide_eq_false_2; [exact IH |].
    intros Hm. apply candidate_matches_spec in Hm. congruence.
Qed.

(** What [first_match] finds: an adjacent entity whose connectivity matches,
    or that none does. *)
Lemma first_match_spec : forall (db : Db.Moab D) (query adj_ent : list Z),
  match first_match db query adj_ent with
  | Some e => e ∈ adj_ent
              /\ exists c, Db.get_connectivity e db = inr c /\ matches_query query c
  | None => forall e c, e ∈ adj_ent -> Db.get_connectivity e db = inr c ->
                        ~ matches_query query c
  end.
Proof.
  intros db query adj_ent. unfold first_match.
  destruct (List.find _ adj_ent) as [e |] eqn:Hfind.
  - apply List.find_some in Hfind as [Hin He]. split; [now apply list_elem_of_In |].
    destruct (Db.get_connectivity e db) as [rc | c]; [discriminate |].
    exists c. split; [reflexivity |]. now apply bool_decide_eq_true in He.
  - intros e c Hin Hc Hm. apply list_elem_of_In in Hin.
    apply (List.find_none _ _ Hfind) in Hin. rewrite Hc in Hin.
    now rewrite bool_decide_eq_true_2 in Hin.
Qed.

(** C8.  [create_sideset_element] hands back the first adjacent entity whose
    connectivity matches the query in the sense of [matches_query] (same
    number of vertices and, once the candidate is turned to start at the
    query's first vertex, the same sequence or the same sequence walked the
    other way round), leaving the database as it is.  When no adjacent
    entity matches, it hands back a new entity: the handle is the next one
    of the database and, in a database that is well formed, none it knew;
    the entity is listed after the others, has the type asked for and the
    query as its connectivity, and is adjacent to the query's first vertex
    from then on; nothing else of the database changes. *)
Theorem create_sideset_element_reuses_first_match :
  forall (db : Db.Moab D) (v0 : Z) (q' : list Z) (type : Db.EntityType),
    let adj_ent := Db.get_adjacencies v0 (Db.Dimension type) db in
    match first_match db (v0 :: q') adj_ent with
    | Some e =>
        SideSets.create_sideset_element D (v0 :: q') type db = Some (db, inr e)
        /\ e ∈ adj_ent
        /\ exists c, Db.get_connectivity e db = inr c /\ matches_query (v0 :: q') c
    | None =>
        (forall e c, e ∈ adj_ent -> Db.get_connectivity e db = inr c ->
                     ~ matches_query (v0 :: q') c)
        /\ exists db' h,
             SideSets.create_sideset_element D (v0 :: q') type db = Some (db', inr h)
             /\ h = Db.next_handle db
             /\ (well_formed db -> h ∉ Db.entities db)
             /\ Db.entities db' = Db.entities db ++ [h]
             /\ Db.elements db' = <[h := (type, v0 :: q')]> (Db.elements db)
             /\ Db.get_connectivity h db' = inr (v0 :: q')
             /\ h ∈ Db.get_adjacencies v0 (Db.Dimension type) db'
             /\ Db.next_handle db' = h + 1
             /\ Db.meshsets db' = Db.meshsets db
             /\ Db.tags db' = Db.tags db
             /\ Db.int_tag_data db' = Db.int_tag_data db
             /\ Db.dist_factor_data db' = Db.dist_factor_data db
    end.
Proof.
  intros db v0 q' type adj_ent. unfold SideSets.create_sideset_element.
  rewrite match_loop_first_match. fold adj_ent.
  pose proof (first_match_spec db (v0 :: q') adj_ent) as Hspec.
  destruct (first_match db (v0 :: q') adj_ent) as [e |].
  - destruct Hspec as [Hin Hc]. split; [reflexivity | split; [exact Hin | exact Hc]].
  - split; [exact Hspec |].
    exists (fst (Db.create_element type (v0 :: q') db)), (Db.next_handle db).
    unfold Db.create_element, Db.get_connectivity, Db.get_adjacencies. simpl.
    split; [reflexivity |]. split; [reflexivity |]. split.
    { intros [_ Hbelow] Hin. rewrite Forall_forall in Hbelow.
      specialize (Hbelow _ Hin). lia. }
    split; [reflexivity |]. split; [reflexivity |].
    split; [now rewrite lookup_insert_eq |]. split.
    { apply list_elem_of_In, List.filter_In.
      split; [apply List.in_or_app; right; left; reflexivity |].
      rewrite lookup_insert_eq.
      rewrite bool_decide_eq_true_2 by reflexivity.
      rewrite bool_decide_eq_true_2 by (left). reflexivity. }
    repeat split.
Qed.

End reuse.

(** ** What a pass leaves in the database: a relation between the state
    before and after that every statement keeps *)

Section preservation.

Context {S : Type} (R : S -> S -> Prop).

Hypothesis R_refl : forall s, R s s.
Hypothesis R_trans : forall a b c, R a b -> R b c -> R a c.

Lemma preserves_ret : forall A (a : A), preserves R (Exec.ret a).
Proof using R_refl. intros A a s s' res [= <- _]. apply R_refl. Qed.

Lemma preserves_exit : forall A rc, preserves R (@Exec.exit S A rc).
Proof using R_refl. intros A rc s s' res [= <- _]. apply R_refl. Qed.

Lemma preserves_undefined : forall A, preserves R (@Exec.undefined S A).
Proof. intros A s s' res. discriminate. Qed.

Lemma preserves_bind : forall A B (m : Exec.M S A) (k : A -> Exec.M S B),
  preserves R m -> (forall a, preserves R (k a)) -> preserves R (Exec.bind m k).
Proof using R_trans.
  intros A B m k Hm Hk s s' res. unfold Exec.bind.
  destruct (m s) as [[s1 [rc | a]] |] eqn:Hrun; [| | discriminate].
  - intros [= <- _]. eapply Hm; eassumption.
  - intros Hrest. eapply R_trans; [eapply Hm; eassumption | eapply Hk; eassumption].
Qed.

End preservation.

(** The steps that take a goal [preserves R m] apart along the shape of [m]. *)
Ltac preserves_step :=
  first
    [ solve [auto]
    | apply preserves_ret; solve [auto]
    | apply preserves_exit; solve [auto]
    | apply preserves_undefined
    | apply preserves_bind; [solve [auto] | | intros ?]
    | match goal with
      | |- preserves _ (match ?x with _ => _ end) => destruct x
      end ].

Section database_growth.

Variable D : Type.

Lemma grows_by_refl : forall P (db : Db.Moab D), grows_by P db db.
Proof. intros P db h v Hv. now left. Qed.

Lemma grows_by_trans : forall P (a b c : Db.Moab D),
  grows_by P a b -> grows_by P b c -> grows_by P a c.
Proof.
  intros P a b c Hab Hbc h v Hv.
  destruct (Hbc h v Hv) as [Hb | HP]; [now apply Hab | now right].
Qed.

Lemma grows_by_weaken : forall (P Q : Z -> Prop) (db db' : Db.Moab D),
  (forall v, P v -> Q v) -> grows_by P db db' -> grows_by Q db db'.
Proof.
  intros P Q db db' HPQ Hg h v Hv.
  destruct (Hg h v Hv) as [? | ?]; [now left | right; now apply HPQ].
Qed.

Lemma grows_by_same_sets : forall P (db db' : Db.Moab D),
  Db.meshsets db' = Db.meshsets db -> grows_by P db db'.
Proof. intros P db db' Heq h v. unfold members. rewrite Heq. now left. Qed.

Lemma add_to_set_members : forall s ents v,
  v ∈ Db.contents (Db.add_to_set s ents) -> v ∈ Db.contents s \/ v ∈ ents.
Proof.
  intros s ents v. unfold Db.add_to_set. simpl. destruct (Db.ordered s).
  - rewrite elem_of_app. tauto.
  - generalize (Db.contents s) as acc. induction ents as [| e ents IH]; intros acc; simpl.
    + now left.
    + intros Hv. apply IH in Hv as [Hv | Hv]; [| right; now right].
      destruct (bool_decide (e ∈ acc)); [now left |].
      apply elem_of_app in Hv as [Hv | Hv]; [now left |].
      apply list_elem_of_singleton in Hv as ->. right. left.
Qed.

Lemma create_meshset_grows : forall P is_ordered (db : Db.Moab D),
  grows_by P db (fst (Db.create_meshset is_ordered db)).
Proof.
  intros P is_ordered db h v. unfold members, Db.create_meshset. simpl.
  destruct (decide (h = Db.next_handle db)) as [-> | Hne].
  - rewrite lookup_insert_eq. simpl. intros Hv. now apply not_elem_of_nil in Hv.
  - rewrite lookup_insert_ne by congruence. now left.
Qed.

Lemma add_entities_grows : forall set ents (db : Db.Moab D),
  grows_by (fun v => v ∈ ents) db (snd (Db.add_entities set ents db)).
Proof.
  intros set ents db h v. unfold members, Db.add_entities.
  destruct (Db.meshsets db !! set) as [s |] eqn:Hs; simpl; [| now left].
  destruct (decide (h = set)) as [-> | Hne].
  - rewrite lookup_insert_eq, Hs. apply add_to_set_members.
  - rewrite lookup_insert_ne by congruence. now left.
Qed.

Lemma tag_set_data_same_sets : forall tag ent v (db : Db.Moab D),
  Db.meshsets (snd (Db.tag_set_data tag ent v db)) = Db.meshsets db.
Proof. intros. unfold Db.tag_set_data. now destruct (bool_decide _). Qed.

Lemma set_dist_factors_same_sets : forall ent v (db : Db.Moab D),
  Db.meshsets (snd (Db.set_dist_factors ent v db)) = Db.meshsets db.
Proof. intros. unfold Db.set_dist_factors. now destruct (bool_decide _). Qed.

End database_growth.

(** ** [read_nodesets]: the vertices it puts into sets *)

Section nodeset_members.

Variable D : Type.
Variable dzero : D.
Variable CREATE_HANDLE : Db.EntityType -> Z -> Z.
Variable r : NodeSets.Reader D.

Lemma node_loop_touched :
  forall ns_handle nodes_of_nodeset ndf node_handles temp nodes0 df0 nodes df,
    NodeSets.node_loop D dzero CREATE_HANDLE r ns_handle nodes_of_nodeset ndf
                       node_handles temp nodes0 df0 = Some (nodes, df) ->
    forall v, v ∈ nodes -> v ∈ nodes0 \/ touched_node CREATE_HANDLE r v.
Proof.
  intros ns_handle present ndf. induction node_handles as [| nh rest IH];
    intros temp nodes0 df0 nodes df; simpl.
  - intros [= <- _] v Hv. now left.
  - destruct (Z.ltb_spec nh 0) as [| Hnh]; [discriminate |].
    destruct (NodeSets.nodesInLoadedBlocks r !! Z.to_nat nh) as [[|] |] eqn:Hmark;
      [| apply IH | discriminate].
    destruct ((ns_handle =? 0) || negb (bool_decide (_ ∈ present))); [| apply IH].
    intros Hloop v Hv. destruct (IH _ _ _ _ _ Hloop v Hv) as [Hin | Ht]; [| now right].
    apply elem_of_app in Hin as [Hin | Hin]; [now left |].
    apply list_elem_of_singleton in Hin as ->. right. exists nh. auto.
Qed.

Lemma preserves_query : forall (R : Db.Moab D -> Db.Moab D -> Prop) A (f : Db.Moab D -> A),
  (forall s, R s s) -> preserves R (NodeSets.query D f).
Proof. intros R A f Hrefl s s' res [= <- _]. apply Hrefl. Qed.

Lemma preserves_call : forall (R : Db.Moab D -> Db.Moab D -> Prop) f,
  (forall db, R db (snd (f db))) -> preserves R (NodeSets.call D f).
Proof.
  intros R f Hf s s' res. unfold NodeSets.call. specialize (Hf s).
  destruct (f s) as [rc db']. intros [= <- _]. exact Hf.
Qed.

Lemma preserves_or_fail : forall (R : Db.Moab D -> Db.Moab D -> Prop) rc,
  (forall s, R s s) -> preserves R (NodeSets.or_fail D rc).
Proof.
  intros R rc Hrefl. unfold NodeSets.or_fail.
  destruct (decide _); [apply preserves_ret | apply preserves_exit]; exact Hrefl.
Qed.

Lemma preserves_get_dimb :
  forall (R : Db.Moab D -> Db.Moab D -> Prop) dims varname id,
    (forall s, R s s) -> preserves R (NodeSets.get_dimb D dims varname id).
Proof.
  intros R dims varname id Hrefl. unfold NodeSets.get_dimb.
  destruct (Nc.GET_DIMB _ _ _); [apply preserves_exit | apply preserves_ret]; exact Hrefl.
Qed.

Lemma commit_nodeset_grows : forall id ns_handle nodes dist_factor_vector,
  preserves (grows_by (fun v => v ∈ nodes))
            (NodeSets.commit_nodeset D id ns_handle nodes dist_factor_vector).
Proof.
  intros id ns_handle nodes dfv.
  pose proof (grows_by_refl D (fun v => v ∈ nodes)) as Hrefl.
  pose proof (grows_by_trans D (fun v => v ∈ nodes)) as Htrans.
  assert (Htag : forall tag ent v,
             preserves (grows_by (fun v => v ∈ nodes))
                       (NodeSets.call D (Db.tag_set_data tag ent v))).
  { intros. apply preserves_call. intros db.
    apply grows_by_same_sets, tag_set_data_same_sets. }
  assert (Hdf : forall ent v,
             preserves (grows_by (fun v => v ∈ nodes))
                       (NodeSets.call D (Db.set_dist_factors ent v))).
  { intros. apply preserves_call. intros db.
    apply grows_by_same_sets, set_dist_factors_same_sets. }
  assert (Hfail : forall rc, preserves (grows_by (fun v => v ∈ nodes))
                                       (NodeSets.or_fail D rc))
    by (intros; now apply preserves_or_fail).
  assert (Hq : forall A (f : Db.Moab D -> A),
             preserves (grows_by (fun v => v ∈ nodes)) (NodeSets.query D f))
    by (intros; now apply preserves_query).
  unfold NodeSets.commit_nodeset. destruct nodes as [| n0 nodes']; [now apply preserves_ret |].
  apply preserves_bind; [exact Htrans | |].
  - destruct (ns_handle =? 0).
    + apply preserves_bind; [exact Htrans | |].
      * intros s s' res. pose proof (create_meshset_grows D (fun v => v ∈ n0 :: nodes')
                                       Db.MESHSET_ORDERED s) as Hc.
        destruct (Db.create_meshset _ s) as [db1 h]. intros [= <- _]. exact Hc.
      * intros h. repeat preserves_step.
    + repeat preserves_step.
  - intros h. apply preserves_bind; [exact Htrans | | intros rc; apply Hfail].
    apply preserves_call. intros db. apply add_entities_grows.
Qed.

Lemma read_dist_factors_grows : forall P i n ndf,
  preserves (grows_by P) (NodeSets.read_dist_factors D dzero r i n ndf).
Proof.
  intros P i n ndf. pose proof (grows_by_refl D P) as Hrefl.
  unfold NodeSets.read_dist_factors. repeat preserves_step.
Qed.

Lemma read_nodeset_grows : forall i id,
  preserves (grows_by (touched_node CREATE_HANDLE r)) (NodeSets.read_nodeset D dzero CREATE_HANDLE r i id).
Proof.
  intros i id.
  pose proof (grows_by_refl D (touched_node CREATE_HANDLE r)) as Hrefl.
  pose proof (grows_by_trans D (touched_node CREATE_HANDLE r)) as Htrans.
  pose proof (fun A f => preserves_query (grows_by (touched_node CREATE_HANDLE r)) A f Hrefl) as Hq.
  pose proof (fun d v k => preserves_get_dimb (grows_by (touched_node CREATE_HANDLE r)) d v k Hrefl) as Hd.
  pose proof (read_dist_factors_grows (touched_node CREATE_HANDLE r)) as Hrd.
  unfold NodeSets.read_nodeset.
  apply preserves_bind; [exact Htrans | apply Hd | intros n].
  apply preserves_bind; [exact Htrans | apply Hd | intros ndf].
  apply preserves_bind; [exact Htrans | apply Hrd | intros temp].
  destruct (Nc.get_var _ _) as [temp_var |]; [| now apply preserves_exit].
  destruct (negb _); [now apply preserves_exit |].
  destruct (Nc.get temp_var n) as [node_handles |]; [| now apply preserves_exit].
  apply preserves_bind; [exact Htrans | apply Hq | intros child].
  apply preserves_bind; [exact Htrans | apply Hq | intros ns_handle].
  apply preserves_bind; [exact Htrans | | intros present].
  { destruct (ns_handle =? 0); [now apply preserves_ret |]. repeat preserves_step. }
  destruct (NodeSets.node_loop _ _ _ _ _ _ _ _ _ _ _) as [[nodes dfv] |] eqn:Hloop;
    [| apply preserves_undefined].
  intros s s' res Hrun.
  eapply grows_by_weaken; [| eapply commit_nodeset_grows; exact Hrun].
  intros v Hv. destruct (node_loop_touched _ _ _ _ _ _ _ _ _ Hloop v Hv) as [Hnil | Ht];
    [now apply not_elem_of_nil in Hnil | exact Ht].
Qed.

Lemma nodeset_loop_grows : forall ids i,
  preserves (grows_by (touched_node CREATE_HANDLE r)) (NodeSets.nodeset_loop D dzero CREATE_HANDLE r i ids).
Proof.
  induction ids as [| id ids IH]; intros i; simpl.
  - apply preserves_ret, grows_by_refl.
  - apply preserves_bind; [apply grows_by_trans | apply read_nodeset_grows | intros _; apply IH].
Qed.

(** C9.  Whatever [read_nodesets] returns, a vertex that is in an entity set
    afterwards and was not in it before is the handle of an exodus node whose
    mark in [nodesInLoadedBlocks] is set: the pass adds touched nodes only. *)
Theorem read_nodesets_adds_touched_nodes_only :
  forall db rc db',
    Exec.run (NodeSets.read_nodesets D dzero CREATE_HANDLE r) db = Some (rc, db') ->
    forall set v, v ∈ members db' set -> v ∈ members db set \/ touched_node CREATE_HANDLE r v.
Proof.
  intros db rc db' Hrun.
  assert (Hp : preserves (grows_by (touched_node CREATE_HANDLE r))
                         (NodeSets.read_nodesets D dzero CREATE_HANDLE r)).
  { pose proof (grows_by_refl D (touched_node CREATE_HANDLE r)) as Hrefl.
    unfold NodeSets.read_nodesets. repeat preserves_step. apply nodeset_loop_grows. }
  unfold Exec.run in Hrun.
  destruct (NodeSets.read_nodesets D dzero CREATE_HANDLE r db) as [[s' res] |] eqn:Hm;
    [| discriminate].
  assert (s' = db') as -> by (destruct res; congruence).
  exact (Hp _ _ _ Hm).
Qed.

End nodeset_members.

(** ** Distribution factors of a set that is extended *)

Section merged_factors.

Variable D : Type.

Lemma commit_nodeset_merges :
  forall (db : Db.Moab D) set s old id nodes dist_factor_vector,
    set <> 0 ->
    Db.meshsets db !! set = Some s ->
    set ∈ Db.entities db ->
    Db.dist_factor_data db !! set = Some old ->
    nodes <> [] -> dist_factor_vector <> [] ->
    exists db',
      NodeSets.commit_nodeset D id set nodes dist_factor_vector db = Some (db', inr tt)
      /\ Db.get_dist_factors set db' = inr (dist_factor_vector ++ old)
      /\ members db' set = Db.contents (Db.add_to_set s nodes).
Proof.
  intros db set s old id nodes dfv Hset Hs Hent Hold Hnodes Hdfv.
  destruct nodes as [| n0 nodes]; [contradiction |].
  destruct dfv as [| d0 dfv]; [contradiction |].
  unfold NodeSets.commit_nodeset.
  destruct (Z.eqb_spec set 0) as [| _]; [contradiction |].
  unfold Exec.bind, NodeSets.query, NodeSets.call, Db.get_dist_factors. rewrite Hold.
  unfold Db.set_dist_factors. rewrite bool_decide_eq_true_2 by exact Hent.
  unfold NodeSets.or_fail, Exec.ret. simpl.
  unfold Db.add_entities. simpl. rewrite Hs. simpl.
  eexists. split; [reflexivity |]. simpl. unfold members. simpl.
  now rewrite !lookup_insert_eq.
Qed.

Lemma commit_sideset_merges :
  forall (db : Db.Moab D) set s old id child_meshsets number_dist_factors_in_set
         (sides : SideSets.Sides D),
    set <> 0 ->
    Db.meshsets db !! set = Some s ->
    set ∈ Db.entities db ->
    Db.dist_factor_data db !! set = Some old ->
    NodeSets.find_set D "mNeumannSetTag" id db child_meshsets = set ->
    number_dist_factors_in_set <> 0 ->
    SideSets.entities_to_add sides <> [] \/ SideSets.reverse_entities sides <> [] ->
    exists db',
      SideSets.commit_sideset D id child_meshsets number_dist_factors_in_set sides db
      = Some (db', inr tt)
      /\ Db.get_dist_factors set db' = inr (SideSets.dist_factor_vector sides ++ old)
      /\ members db' set
         = Db.contents (Db.add_to_set s (SideSets.entities_to_add sides)).
Proof.
  intros db set s old id child ndf sides Hset Hs Hent Hold Hfind Hndf Hsides.
  unfold SideSets.commit_sideset.
  assert (Hgo : forall (A : Type) (a b : A),
             match SideSets.entities_to_add sides, SideSets.reverse_entities sides with
             | [], [] => a
             | _, _ => b
             end = b).
  { intros A a b. destruct (SideSets.entities_to_add sides), (SideSets.reverse_entities sides);
      try reflexivity. destruct Hsides; contradiction. }
  rewrite Hgo. clear Hgo.
  unfold Exec.bind at 1. unfold SideSets.query at 1. rewrite Hfind.
  destruct (Z.eqb_spec set 0) as [| _]; [contradiction |].
  unfold Exec.bind, Exec.ret, SideSets.call, SideSets.query.
  unfold Db.add_entities. rewrite Hs. simpl.
  unfold SideSets.or_fail, Exec.ret. simpl.
  destruct (Z.eqb_spec ndf 0) as [| _]; [contradiction |].
  unfold Db.get_dist_factors. simpl. rewrite Hold.
  unfold Db.set_dist_factors. simpl. rewrite bool_decide_eq_true_2 by exact Hent. simpl.
  eexists. split; [reflexivity |]. simpl. unfold members. simpl.
  now rewrite !lookup_insert_eq.
Qed.

(** In general: when a node set or a side set with the id already exists
    and carries distribution factors, the pass puts the members it adds
    behind the members of the set, and the factors it adds in front of the
    factors of the set. *)
Lemma merged_dist_factors_new_then_old :
  forall (db : Db.Moab D) set s old,
    set <> 0 ->
    Db.meshsets db !! set = Some s ->
    set ∈ Db.entities db ->
    Db.dist_factor_data db !! set = Some old ->
    (forall id nodes dist_factor_vector,
        nodes <> [] -> dist_factor_vector <> [] ->
        exists db',
          NodeSets.commit_nodeset D id set nodes dist_factor_vector db = Some (db', inr tt)
          /\ Db.get_dist_factors set db' = inr (dist_factor_vector ++ old)
          /\ members db' set = Db.contents (Db.add_to_set s nodes))
    /\ (forall id child_meshsets number_dist_factors_in_set (sides : SideSets.Sides D),
           NodeSets.find_set D "mNeumannSetTag" id db child_meshsets = set ->
           number_dist_factors_in_set <> 0 ->
           SideSets.entities_to_add sides <> [] \/ SideSets.reverse_entities sides <> [] ->
           exists db',
             SideSets.commit_sideset D id child_meshsets number_dist_factors_in_set sides db
             = Some (db', inr tt)
             /\ Db.get_dist_factors set db'
                = inr (SideSets.dist_factor_vector sides ++ old)
             /\ members db' set
                = Db.contents (Db.add_to_set s (SideSets.entities_to_add sides))).
Proof.
  intros db set s old Hset Hs Hent Hold. split.
  - intros id nodes dfv Hnodes Hdfv.
    now apply (commit_nodeset_merges db set s old id nodes dfv).
  - intros id child ndf sides Hfind Hndf Hsides.
    now apply (commit_sideset_merges db set s old id child ndf sides).
Qed.

End merged_factors.

(** C6.  The vector stored on a set that is extended is not the old factors
    followed by the new ones.  Node set 5 exists as set 1 with the vertices
    101, 103 and the factors 10, 30; the file adds node 4 with the factor
    40.  [read_nodesets] succeeds; the set then lists the vertices 101, 103,
    104, and the vector stored is 40, 10, 30: the new factor stands in front,
    at the place of vertex 101, and not behind the old ones, at the place of
    the vertex it belongs to. *)
Theorem merged_dist_factors_not_old_then_new :
  (fun out => (fst out, members (snd out) 1, Db.get_dist_factors 1 (snd out)))
    <$> read_sample_nodesets nodeset_with_new_node db_with_nodeset
  = Some (MB_SUCCESS, [101; 103] ++ [104], inr ([40] ++ [10; 30]))
  /\ [40] ++ [10; 30] <> [10; 30] ++ [40].
Proof. split; [vm_compute; reflexivity | discriminate]. Qed.

Lemma read_nodesets_adds_touched_nodes_only_witness :
  104 ∈ members db_with_nodeset 1
  \/ touched_node (fun _ id => id) nodeset_with_new_node 104.
Proof.
  eapply (read_nodesets_adds_touched_nodes_only Z 0 (fun _ id => id)
            nodeset_with_new_node db_with_nodeset).
  - vm_compute. reflexivity.
  - vm_compute. right. right. left.
Defined.

(** ** Side sets with sides seen from the back *)

Section reverse_sets.

Variable D : Type.

Lemma add_to_set_keeps : forall s ents v,
  v ∈ Db.contents s \/ v ∈ ents -> v ∈ Db.contents (Db.add_to_set s ents).
Proof.
  intros s ents v. unfold Db.add_to_set. simpl. destruct (Db.ordered s).
  - rewrite elem_of_app. tauto.
  - generalize (Db.contents s) as acc. induction ents as [| e ents IH]; intros acc; simpl.
    + intros [Hv | Hv]; [exact Hv | now apply not_elem_of_nil in Hv].
    + intros [Hv | Hv].
      * apply IH. left. destruct (bool_decide (e ∈ acc)); [exact Hv |].
        apply elem_of_app. now left.
      * apply elem_of_cons in Hv as [-> | Hv]; [| apply IH; now right].
        apply IH. left. destruct (bool_decide (e ∈ acc)) eqn:He.
        -- now apply bool_decide_eq_true_1 in He.
        -- apply elem_of_app. right. left.
Qed.

(** What is left of a database in which the side set [ss] and its reverse
    set [rs] have just been made. *)
Lemma new_sideset_shape :
  forall (db db' : Db.Moab D) entities_to_add reverse_entities,
    well_formed db ->
    let ss := Db.next_handle db in
    let rs := Db.next_handle db + 1 in
    Db.entities db' = (Db.entities db ++ [ss]) ++ [rs] ->
    Db.meshsets db' !! ss
    = Some {| Db.ordered := true; Db.contents := rs :: entities_to_add |} ->
    Db.meshsets db' !! rs
    = Some (Db.add_to_set {| Db.ordered := false; Db.contents := [] |} reverse_entities) ->
    (forall h, h <> ss -> h <> rs -> Db.meshsets db' !! h = Db.meshsets db !! h) ->
    Db.int_tag_data db' !! ("SENSE", rs) = Some (-1) ->
    Db.all_meshsets db' = Db.all_meshsets db ++ [ss; rs]
    /\ members db' ss = rs :: entities_to_add
    /\ (forall v, v ∈ members db' rs <-> v ∈ reverse_entities)
    /\ Db.tag_get_data "SENSE" rs db' = inr (-1).
Proof.
  intros db db' to_add reverse [Hpos Hbelow] ss rs Hents Hss Hrs Hother Htag.
  rewrite Forall_forall in Hbelow.
  split; [| split; [| split]].
  - unfold Db.all_meshsets. rewrite Hents, !List.filter_app. simpl.
    rewrite Hss, Hrs. simpl. rewrite <- app_assoc. f_equal.
    apply List.filter_ext_in. intros h Hh. apply list_elem_of_In in Hh.
    specialize (Hbelow h Hh). rewrite Hother by (unfold ss, rs; lia). reflexivity.
  - unfold members. now rewrite Hss.
  - intros v. unfold members. rewrite Hrs. split.
    + intros Hv. apply add_to_set_members in Hv as [Hv | Hv]; [| exact Hv].
      now apply not_elem_of_nil in Hv.
    + intros Hv. apply add_to_set_keeps. now right.
  - unfold Db.tag_get_data. now rewrite Htag.
Qed.

(** C4, as the code has it.  When no set carrying the side set's id is found,
    so that the side set is created, and [reverse_entities] is not empty, the
    commit creates the side set and exactly one more set, tagged with
    [SENSE = -1], whose members are the reverse entities, and puts that set
    into the side set ahead of the entities to add. *)
Theorem new_sideset_gets_one_reverse_set :
  forall (db : Db.Moab D) id child_meshsets number_dist_factors_in_set
         (sides : SideSets.Sides D),
    well_formed db ->
    NodeSets.find_set D "mNeumannSetTag" id db child_meshsets = 0 ->
    SideSets.reverse_entities sides <> [] ->
    let ss_handle := Db.next_handle db in
    let reverse_set := Db.next_handle db + 1 in
    exists db',
      SideSets.commit_sideset D id child_meshsets number_dist_factors_in_set sides db
      = Some (db', inr tt)
      /\ Db.all_meshsets db' = Db.all_meshsets db ++ [ss_handle; reverse_set]
      /\ members db' ss_handle = reverse_set :: SideSets.entities_to_add sides
      /\ (forall v, v ∈ members db' reverse_set <-> v ∈ SideSets.reverse_entities sides)
      /\ Db.tag_get_data "SENSE" reverse_set db' = inr (-1).
Proof.
  intros db id child ndf sides Hwf Hfind Hrev ss rs.
  pose proof (new_sideset_shape db) as Hshape.
  destruct Hwf as [Hpos Hbelow].
  unfold SideSets.commit_sideset.
  destruct (SideSets.reverse_entities sides) as [| rev0 revs] eqn:Hreverse; [contradiction |].
  assert (Hgo : forall (A : Type) (a b : A),
             match SideSets.entities_to_add sides, rev0 :: revs with
             | [], [] => a
             | _, _ => b
             end = b) by (intros; now destruct (SideSets.entities_to_add sides)).
  rewrite (Hgo _ (Exec.ret tt)). clear Hgo.
  unfold Exec.bind at 1. unfold SideSets.query at 1. rewrite Hfind.
  change (0 =? 0) with true. cbv iota.
  destruct db as [ents ms els tgs itd dfd next]. simpl in *.
  specialize (fun db' => Hshape db' (SideSets.entities_to_add sides) (rev0 :: revs)
                                (conj Hpos Hbelow)).
  unfold SideSets.make_reverse_set, SideSets.new_meshset, SideSets.call, SideSets.query,
    SideSets.or_fail, SideSets.or_result, Exec.bind, Exec.ret, Exec.exit,
    Db.tag_set_data, Db.create_meshset, Db.add_entities, Db.tag_get_handle, Db.tag_create,
    Db.get_dist_factors, Db.set_dist_factors.
  simpl.
  destruct (Z.eqb_spec next 0) as [H0 | _]; [lia |].
  assert (Hin1 : next ∈ ents ++ [next]) by (apply elem_of_app; right; left).
  assert (Hin2 : next ∈ (ents ++ [next]) ++ [next + 1]) by (apply elem_of_app; now left).
  assert (Hin3 : next + 1 ∈ (ents ++ [next]) ++ [next + 1])
    by (apply elem_of_app; right; left).
  repeat first
    [ rewrite bool_decide_eq_true_2 by assumption
    | rewrite lookup_insert_eq
    | rewrite lookup_insert_ne by lia
    | progress simpl ].
  destruct (tgs !! "SENSE") as [dflt |] eqn:Htag; simpl;
    repeat first
      [ rewrite bool_decide_eq_true_2 by assumption
      | rewrite lookup_insert_eq
      | rewrite lookup_insert_ne by lia
      | progress simpl ];
    (destruct (Z.eqb_spec ndf 0); simpl;
     [| destruct (dfd !! next) as [old |] eqn:Hold; simpl;
        repeat first
          [ rewrite bool_decide_eq_true_2 by assumption
          | rewrite lookup_insert_eq
          | rewrite lookup_insert_ne by lia
          | progress simpl ] ]).
  all: eexists; (split; [reflexivity |]).
  all: apply Hshape; simpl;
    [ reflexivity
    | now rewrite lookup_insert_eq
    | rewrite lookup_insert_ne by lia; now rewrite lookup_insert_eq
    | intros h Hh1 Hh2; now rewrite !lookup_insert_ne by congruence
    | now rewrite lookup_insert_eq ].
Qed.

End reverse_sets.

(** C4, as stated, fails.  Side 2 of the shell gives a non-empty
    [reverse_entities]; with side set 9 already there, [read_sidesets]
    succeeds and leaves the database as it was: no set tagged [SENSE] is
    created and the shell is in no reverse set. *)
Lemma existing_sideset_gets_no_reverse_set :
  sample_reverse_entities (shell_sideset [2]) [1] [2] db_with_sideset = Some [201]
  /\ read_sample_sidesets (shell_sideset [2]) db_with_sideset
     = Some (MB_SUCCESS, db_with_sideset)
  /\ Db.all_meshsets db_with_sideset = [900]
  /\ Db.tag_get_data "SENSE" 900 db_with_sideset = inl MB_TAG_NOT_FOUND.
Proof. repeat split; vm_compute; reflexivity. Qed.

(** The shell listed with sides 1 and 2 in a side set that is new: the side
    set 900 holds the reverse set 901 and the shell, the reverse set, tagged
    [SENSE = -1], holds the shell. *)
Lemma shell_front_and_back :
  (fun out => (fst out, Db.all_meshsets (snd out),
               members (snd out) 900, members (snd out) 901,
               Db.tag_get_data "SENSE" 901 (snd out),
               Db.tag_get_data "mNeumannSetTag" 900 (snd out)))
    <$> read_sample_sidesets (shell_sideset [1; 2]) db_with_shell
  = Some (MB_SUCCESS, [900; 901], [901; 201], [201], inr (-1), inr 9).
Proof. vm_compute. reflexivity. Qed.

Lemma new_sideset_gets_one_reverse_set_witness :
  exists db',
    SideSets.commit_sideset Z 9 [] 0
      {| SideSets.entities_to_add := [201]; SideSets.reverse_entities := [201];
         SideSets.dist_factor_vector := []; SideSets.df_index := 0 |} db_with_shell
    = Some (db', inr tt)
    /\ Db.all_meshsets db' = Db.all_meshsets db_with_shell ++ [900; 901]
    /\ members db' 900 = [901; 201]
    /\ (forall v, v ∈ members db' 901 <-> v ∈ [201])
    /\ Db.tag_get_data "SENSE" 901 db' = inr (-1).
Proof.
  apply (new_sideset_gets_one_reverse_set Z db_with_shell 9 [] 0
           {| SideSets.entities_to_add := [201]; SideSets.reverse_entities := [201];
              SideSets.dist_factor_vector := []; SideSets.df_index := 0 |}).
  - split; [simpl; lia | repeat constructor; simpl; lia].
  - reflexivity.
  - discriminate.
Defined.

(** ** [tokenize] always has turns enough *)

Lemma first_index_Some (q : ascii -> bool) (l : list ascii) (k : nat) :
  Update.first_index q l = Some k ->
  exists c rest, drop k l = c :: rest /\ q c = true.
Proof.
  revert k. induction l as [| c l IH]; intros k; simpl; [discriminate |].
  destruct (q c) eqn:Hq.
  - intros [= <-]. exists c, l. split; [reflexivity | exact Hq].
  - destruct (Update.first_index q l) as [k' |]; simpl; [| discriminate].
    intros [= <-]. apply IH. reflexivity.
Qed.

Lemma find_first_not_of_Some delimiters str (p l : nat) :
  Update.find_first_not_of delimiters str (Some p) = Some l ->
  (p <= l)%nat /\ exists c rest,
    drop l str = c :: rest /\ Update.is_delimiter delimiters c = false.
Proof.
  unfold Update.find_first_not_of.
  destruct (Update.first_index _ (drop p str)) as [k |] eqn:Hk; simpl; [| discriminate].
  intros [= <-]. split; [lia |].
  apply first_index_Some in Hk as (c & rest & Hdrop & Hc).
  rewrite drop_drop in Hdrop. exists c, rest. split; [exact Hdrop |].
  apply negb_true_iff. exact Hc.
Qed.

Lemma find_first_of_after delimiters str (l p : nat) c rest :
  drop l str = c :: rest ->
  Update.is_delimiter delimiters c = false ->
  Update.find_first_of delimiters str (Some l) = Some p ->
  (l < p)%nat.
Proof.
  intros Hdrop Hc. unfold Update.find_first_of. rewrite Hdrop. simpl. rewrite Hc.
  destruct (Update.first_index _ rest); simpl; [| discriminate].
  intros [= <-]. lia.
Qed.

Lemma tokenize_loop_stopped fuel delimiters str pos tokens :
  Update.tokenize_loop fuel delimiters str None pos tokens = tokens.
Proof. destruct fuel, pos; reflexivity. Qed.

(** More turns than the characters left after [last] change nothing. *)
Lemma tokenize_loop_enough delimiters str :
  forall fuel extra (l p : nat) tokens,
    (l < length str)%nat -> (l < p)%nat -> (length str - l <= fuel)%nat ->
    Update.tokenize_loop (fuel + extra) delimiters str (Some l) (Some p) tokens
    = Update.tokenize_loop fuel delimiters str (Some l) (Some p) tokens.
Proof.
  induction fuel as [| fuel IH]; intros extra l p tokens Hl Hp Hfuel; [lia |].
  cbn [Update.tokenize_loop Nat.add].
  destruct (Update.find_first_not_of delimiters str (Some p)) as [l' |] eqn:Hlast.
  - apply find_first_not_of_Some in Hlast as (Hle & c & rest & Hdrop & Hc).
    assert (Hl' : (l' < length str)%nat).
    { destruct (decide (l' < length str)%nat) as [| Hge]; [assumption |].
      rewrite drop_ge in Hdrop by lia. discriminate. }
    destruct (Update.find_first_of delimiters str (Some l')) as [p' |] eqn:Hpos.
    + apply IH; [exact Hl' | | lia].
      exact (find_first_of_after _ _ _ _ _ _ Hdrop Hc Hpos).
    + apply IH; [exact Hl' | exact Hl' | lia].
  - simpl. rewrite !tokenize_loop_stopped. reflexivity.
Qed.

(** [tokenize] with any larger number of turns gives the same tokens: the
    loop of the source has ended by then. *)
Lemma tokenize_fuel_enough (s delimiters : string) (extra : nat) :
  let str := String.list_ascii_of_string s in
  let last := Update.find_first_not_of delimiters str (Some O) in
  let pos := Update.find_first_of delimiters str last in
  Update.tokenize_loop (S (length str) + extra) delimiters str last pos []
  = Update.tokenize s delimiters.
Proof.
  intros str last pos. unfold Update.tokenize. fold str. fold last. fold pos.
  destruct last as [l |] eqn:Hlast; [| rewrite !tokenize_loop_stopped; reflexivity].
  apply find_first_not_of_Some in Hlast as (_ & c & rest & Hdrop & Hc).
  assert (Hl : (l < length str)%nat).
  { destruct (decide (l < length str)%nat) as [| Hge]; [assumption |].
    rewrite drop_ge in Hdrop by lia. discriminate. }
  destruct pos as [p |] eqn:Hpos; [| reflexivity].
  apply tokenize_loop_enough; [exact Hl | | lia].
  exact (find_first_of_after _ _ _ _ _ _ Hdrop Hc Hpos).
Qed.

(** ** [update]: the directive *)

Section directive.

Variable D : Type.
Variable dadd : D -> D -> D.
Variable indeterminate : D.
Variable strtol : string -> Z * string.
Variable remove_dead_elements :
  Update.ExoFile D -> Z -> list Z -> gmap Z Z -> Update.Mesh D -> ErrorCode * Update.Mesh D.

(** C5, as the code has it.  Once the time step is accepted: an operation
    token that is missing or is neither "set" nor "add" makes [update] return
    the type-out-of-range error, before the file is looked at; with the
    operation "set" or "add" and the file read without error, [update]
    returns the not-implemented error when the variable name is neither
    "coord" nor "COORD" (no other casing is accepted) and when the operation
    is "add".  The mesh is left as it was. *)
Theorem update_refuses_directive :
  forall tokens (f : Update.ExoFile D) (m : Update.Mesh D) time_step a,
    Update.parse_time_step strtol tokens = inr time_step ->
    op_refused tokens = true
    \/ (Update.read_arrays D f time_step = Some (inr a)
        /\ (name_refused tokens = true \/ Update.token tokens 2 = "add"%string)) ->
    Update.update_tokens D dadd indeterminate strtol remove_dead_elements tokens f m
    = Some (if op_refused tokens then MB_TYPE_OUT_OF_RANGE else MB_NOT_IMPLEMENTED, m, []).
Proof.
  intros tokens f m ts a Htime Hcase.
  unfold Update.update_tokens, Update.check_operation. rewrite Htime.
  fold (op_refused tokens).
  destruct (op_refused tokens) eqn:Hop; [reflexivity |].
  destruct Hcase as [Hcase | (Hread & Hcase)]; [discriminate |].
  rewrite Hread. unfold Update.move_nodes. fold (name_refused tokens).
  destruct (name_refused tokens); [reflexivity |].
  destruct Hcase as [Hcase | Hadd]; [discriminate |].
  now rewrite Hadd.
Qed.

End directive.

(** C5, as stated, fails.  The directive "coord,2,set" is carried out, but
    "Coord,2,set" is refused although it is a casing of "coord", and the
    operation "mul" is answered with the type-out-of-range error, not with
    the not-implemented error. *)
Lemma update_mixed_case_and_other_operation :
  fst <$> (fst <$> sample_update "coord,2,set" deformed_file reference_mesh)
  = Some MB_SUCCESS
  /\ sample_update "Coord,2,set" deformed_file reference_mesh
     = Some (MB_NOT_IMPLEMENTED, reference_mesh, [])
  /\ sample_update "coord,2,mul" deformed_file reference_mesh
     = Some (MB_TYPE_OUT_OF_RANGE, reference_mesh, [])
  /\ MB_TYPE_OUT_OF_RANGE <> MB_NOT_IMPLEMENTED.
Proof. repeat split; try (vm_compute; reflexivity). discriminate. Qed.

Lemma update_refuses_directive_witness :
  Update.update_tokens Z Z.add 0 (decimal_strtol 0) (fun _ _ _ _ m' => (MB_SUCCESS, m'))
    ["Coord"; "2"; "set"]%string deformed_file reference_mesh
  = Some (if op_refused ["Coord"; "2"; "set"]%string
          then MB_TYPE_OUT_OF_RANGE else MB_NOT_IMPLEMENTED,
          reference_mesh, []).
Proof.
  apply (update_refuses_directive Z Z.add 0 (decimal_strtol 0)
           (fun _ _ _ _ m' => (MB_SUCCESS, m'))
           ["Coord"; "2"; "set"]%string deformed_file reference_mesh 2
           {| Update.ptr := [7; 8];
              Update.orig_coords := ([10; 0], [20; 0], [30; 0]);
              Update.deformed_arrays := ([1; 0], [0; 0], [-1; 0]) |}).
  - vm_compute. reflexivity.
  - right. split; [vm_compute; reflexivity | left; vm_compute; reflexivity].
Defined.

(** ** [update]: matching the nodes *)

Section node_matching.

Variable D : Type.
Variable dadd : D -> D -> D.
Variable indeterminate : D.
Variable strtol : string -> Z * string.
Variable remove_dead_elements :
  Update.ExoFile D -> Z -> list Z -> gmap Z Z -> Update.Mesh D -> ErrorCode * Update.Mesh D.

Lemma known_unknown_length : forall cub_verts_id_map ids,
  (length (known_ids cub_verts_id_map ids) + length (unknown_ids cub_verts_id_map ids)
   = length ids)%nat.
Proof.
  intros cm. induction ids as [| id ids IH]; simpl; [reflexivity |].
  destruct (bool_decide _); simpl; lia.
Qed.

Lemma map_insert_lookup_none : forall k v (m : gmap Z Z) k',
  k' <> k -> m !! k' = None -> Update.map_insert k v m !! k' = None.
Proof.
  intros k v m k' Hne Hnone. unfold Update.map_insert.
  destruct (m !! k); [exact Hnone |]. now rewrite lookup_insert_ne by congruence.
Qed.

Lemma match_nodes_counts :
  forall three cub_verts_id_map a ids i st m,
    vertices_known cub_verts_id_map m ->
    (forall k, cub_verts_id_map !! k = None -> Update.matched_cub_vert_id_map st !! k = None) ->
    exists st' m',
      Update.match_nodes D dadd indeterminate three cub_verts_id_map a i ids st m
      = (MB_SUCCESS, st', m')
      /\ Update.found st'
         = Update.found st + Z.of_nat (length (known_ids cub_verts_id_map ids))
      /\ Update.lost st'
         = Update.lost st + Z.of_nat (length (unknown_ids cub_verts_id_map ids))
      /\ (forall k, cub_verts_id_map !! k = None ->
                    Update.matched_cub_vert_id_map st' !! k = None)
      /\ (forall msg, msg ∈ Update.messages st -> msg ∈ Update.messages st')
      /\ (forall id, id ∈ unknown_ids cub_verts_id_map ids ->
                     Update.CannotMatch id ∈ Update.messages st').
Proof.
  intros three cm a. induction ids as [| exo_id ids IH]; intros i st m Hknown Hmap.
  - exists st, m. simpl. repeat split; try lia; try done.
    intros id Hid. now apply not_elem_of_nil in Hid.
  - simpl. destruct (cm !! exo_id) as [cub_vert |] eqn:Hid.
    + destruct (Update.orig_coords a) as [[ox oy] oz].
      destruct (Update.deformed_arrays a) as [[dx dy] dz].
      destruct (Hknown _ _ Hid) as [xyz Hxyz].
      unfold Update.set_coords at 1. rewrite Hxyz.
      match goal with
      | |- context [Update.match_nodes D dadd indeterminate three cm a (S i) ids ?st1 ?m1] =>
          destruct (IH (S i) st1 m1) as (st' & m' & Hrun & Hfound & Hlost & Hmap' & Hmsg & Hcannot)
      end.
      * intros k v Hk. simpl. destruct (decide (v = cub_vert)) as [-> | Hne].
        -- rewrite lookup_insert_eq. eauto.
        -- rewrite lookup_insert_ne by congruence. eapply Hknown; eassumption.
      * intros k Hk. simpl. apply map_insert_lookup_none; [congruence | now apply Hmap].
      * exists st', m'. rewrite Hrun. split; [reflexivity |].
        simpl in Hfound, Hlost, Hmsg. rewrite bool_decide_eq_true_2 by eauto. simpl.
        repeat split; try lia; assumption.
    + match goal with
      | |- context [Update.match_nodes D dadd indeterminate three cm a (S i) ids ?st1 m] =>
          destruct (IH (S i) st1 m) as (st' & m' & Hrun & Hfound & Hlost & Hmap' & Hmsg & Hcannot)
      end.
      * exact Hknown.
      * exact Hmap.
      * exists st', m'. rewrite Hrun. split; [reflexivity |].
        simpl in Hfound, Hlost, Hmsg.
        rewrite bool_decide_eq_false_2 by (intros [? ?]; congruence). simpl.
        repeat split; try lia; try assumption.
        -- intros msg Hin. apply Hmsg, elem_of_app. now left.
        -- intros id Hin. apply elem_of_cons in Hin as [-> | Hin]; [| now apply Hcannot].
           apply Hmsg, elem_of_app. right. left.
Qed.

Lemma fill_id_map_range : forall cub_ids cub_verts (m0 : gmap Z Z) k v,
  Update.fill_id_map cub_ids cub_verts m0 !! k = Some v ->
  m0 !! k = Some v \/ v ∈ cub_verts.
Proof.
  induction cub_ids as [| id cub_ids IH]; intros [| vert cub_verts] m0 k v; simpl;
    try (now left).
  intros Hk. apply IH in Hk as [Hk | Hk]; [| right; now right].
  unfold Update.map_insert in Hk. destruct (m0 !! id) eqn:Hid; [now left |].
  destruct (decide (k = id)) as [-> | Hne].
  - rewrite lookup_insert_eq in Hk. injection Hk as <-. right. left.
  - rewrite lookup_insert_ne in Hk by congruence. now left.
Qed.

Lemma read_arrays_ptr_length : forall (f : Update.ExoFile D) time_step a,
  Update.read_arrays D f time_step = Some (inr a) ->
  length (Update.ptr a) = Z.to_nat (Update.numberNodes_loading f).
Proof.
  intros f ts a. unfold Update.read_arrays.
  destruct (negb (Update.is_valid f)); [discriminate |].
  destruct (negb (bool_decide _)); [discriminate |].
  destruct (Nc.get_dim _ _) as [ncdim |]; [| discriminate].
  destruct (negb (Nc.dim_is_valid ncdim)); [discriminate |].
  destruct (Nc.dim_size ncdim <? ts); [discriminate |].
  destruct (match Nc.get_var (Update.int_vars f) "node_num_map" with
            | Some temp_var => Nc.get temp_var (Update.numberNodes_loading f)
            | None => Some (replicate (Z.to_nat (Update.numberNodes_loading f)) 0)
            end) as [ptr |] eqn:Hptr; [| discriminate].
  assert (Hlen : length ptr = Z.to_nat (Update.numberNodes_loading f)).
  { destruct (Nc.get_var _ _) as [temp_var |].
    - unfold Nc.get in Hptr. destruct (Nat.leb_spec (Z.to_nat (Update.numberNodes_loading f))
                                                    (length (Nc.var_values temp_var)));
        [| discriminate].
      injection Hptr as <-. rewrite length_take. lia.
    - injection Hptr as <-. apply length_replicate. }
  intros Hrun. repeat case_match; simplify_eq; simpl; exact Hlen.
Qed.

(** C10.  With the directive accepted, the file read and every vertex of the
    file set carrying a global id and coordinates, the pass over the exodus
    nodes runs to its end: each node is counted once, as found when the id
    map knows its id and as lost otherwise, so that [found + lost] is the
    number of nodes; the ids of lost nodes are reported and are no keys of
    the map of matched nodes; a non-zero [lost] is reported and nothing
    more, and [update] goes on to remove the dead elements, whose result is
    the result of [update]. *)
Theorem update_counts_every_node_once :
  forall tokens (f : Update.ExoFile D) (m : Update.Mesh D) time_step a cub_verts cub_ids,
    Update.parse_time_step strtol tokens = inr time_step ->
    Update.check_operation tokens = inr "set"%string ->
    name_refused tokens = false ->
    Update.read_arrays D f time_step = Some (inr a) ->
    Update.cub_file_set_verts m = inr cub_verts ->
    Update.get_global_ids D m cub_verts = inr cub_ids ->
    Forall (fun v => is_Some (Update.coords m !! v)) cub_verts ->
    let cub_verts_id_map := Update.fill_id_map cub_ids cub_verts ∅ in
    exists st m',
      Update.move_nodes D dadd indeterminate tokens "set" f a m = inr (st, m')
      /\ Update.found st = Z.of_nat (length (known_ids cub_verts_id_map (Update.ptr a)))
      /\ Update.lost st = Z.of_nat (length (unknown_ids cub_verts_id_map (Update.ptr a)))
      /\ Update.found st + Update.lost st = Z.of_nat (length (Update.ptr a))
      /\ length (Update.ptr a) = Z.to_nat (Update.numberNodes_loading f)
      /\ (forall exo_id, exo_id ∈ unknown_ids cub_verts_id_map (Update.ptr a) ->
                         Update.matched_cub_vert_id_map st !! exo_id = None
                         /\ Update.CannotMatch exo_id ∈ Update.messages st)
      /\ (Update.lost st <> 0 -> Update.NodesNotMatched (Update.lost st) ∈ Update.messages st)
      /\ Update.update_tokens D dadd indeterminate strtol remove_dead_elements tokens f m
         = Some (let '(rc, m'') :=
                   remove_dead_elements f time_step (Update.ptr a)
                                        (Update.matched_cub_vert_id_map st) m' in
                 (rc, m'', Update.messages st)).
Proof.
  intros tokens f m ts a cub_verts cub_ids Htime Hop Hname Hread Hverts Hids Hcoords cm.
  destruct (match_nodes_counts (Update.numberDimensions_loading f =? 3) cm a
              (Update.ptr a) O Update.no_matching m)
    as (st & m' & Hrun & Hfound & Hlost & Hmap & Hmsg & Hcannot).
  { intros k v Hk. apply fill_id_map_range in Hk as [Hk | Hk];
      [now rewrite lookup_empty in Hk |].
    rewrite Forall_forall in Hcoords. now apply Hcoords. }
  { intros k _. apply lookup_empty. }
  simpl in Hfound, Hlost.
  assert (Hmove : Update.move_nodes D dadd indeterminate tokens "set" f a m
                  = inr (Update.summarize st, m')).
  { unfold Update.move_nodes. fold (name_refused tokens). rewrite Hname. simpl.
    rewrite Hverts, Hids. fold cm. now rewrite Hrun. }
  exists (Update.summarize st), m'. simpl.
  split; [exact Hmove |]. split; [exact Hfound |]. split; [exact Hlost |].
  split; [pose proof (known_unknown_length cm (Update.ptr a)); lia |].
  split; [eapply read_arrays_ptr_length; eassumption |].
  split; [| split].
  - intros exo_id Hin. split.
    + apply Hmap. unfold unknown_ids in Hin. apply list_elem_of_In, filter_In in Hin as [_ Hin].
      apply negb_true_iff, bool_decide_eq_false in Hin.
      destruct (cm !! exo_id) eqn:Hk; [exfalso; apply Hin; eauto | reflexivity].
    + apply elem_of_app. left. now apply Hcannot.
  - intros Hne. apply elem_of_app. right. apply elem_of_cons. right.
    destruct (Z.eqb_spec (Update.lost st) 0); [contradiction | left].
  - unfold Update.update_tokens. rewrite Htime, Hop, Hread, Hmove. simpl.
    now destruct (remove_dead_elements f ts (Update.ptr a)
                    (Update.matched_cub_vert_id_map st) m').
Qed.

End node_matching.

Lemma update_counts_every_node_once_witness :
  exists st m',
    Update.move_nodes Z Z.add 0 ["coord"; "2"; "set"]%string "set" deformed_file
      {| Update.ptr := [7; 8];
         Update.orig_coords := ([10; 0], [20; 0], [30; 0]);
         Update.deformed_arrays := ([1; 0], [0; 0], [-1; 0]) |} reference_mesh
    = inr (st, m')
    /\ Update.found st
       = Z.of_nat (length (known_ids (Update.fill_id_map [7; 99] [501; 502] ∅) [7; 8]))
    /\ Update.lost st
       = Z.of_nat (length (unknown_ids (Update.fill_id_map [7; 99] [501; 502] ∅) [7; 8]))
    /\ Update.found st + Update.lost st = Z.of_nat (length [7; 8])
    /\ length [7; 8] = Z.to_nat (Update.numberNodes_loading deformed_file)
    /\ (forall exo_id,
           exo_id ∈ unknown_ids (Update.fill_id_map [7; 99] [501; 502] ∅) [7; 8] ->
           Update.matched_cub_vert_id_map st !! exo_id = None
           /\ Update.CannotMatch exo_id ∈ Update.messages st)
    /\ (Update.lost st <> 0 -> Update.NodesNotMatched (Update.lost st) ∈ Update.messages st)
    /\ Update.update_tokens Z Z.add 0 (decimal_strtol 0)
         (fun _ _ _ _ m'' => (MB_SUCCESS, m'')) ["coord"; "2"; "set"]%string
         deformed_file reference_mesh
       = Some (let '(rc, m'') :=
                 (fun _ _ _ _ m'' => (MB_SUCCESS, m'')) deformed_file 2 [7; 8]
                   (Update.matched_cub_vert_id_map st) m' in
               (rc, m'', Update.messages st)).
Proof.
  apply (update_counts_every_node_once Z Z.add 0 (decimal_strtol 0)
           (fun _ _ _ _ m'' => (MB_SUCCESS, m'')) ["coord"; "2"; "set"]%string
           deformed_file reference_mesh 2
           {| Update.ptr := [7; 8];
              Update.orig_coords := ([10; 0], [20; 0], [30; 0]);
              Update.deformed_arrays := ([1; 0], [0; 0], [-1; 0]) |}
           [501; 502] [7; 99]).
  - vm_compute. reflexivity.
  - vm_compute. reflexivity.
  - vm_compute. reflexivity.
  - vm_compute. reflexivity.
  - reflexivity.
  - vm_compute. reflexivity.
  - repeat constructor; vm_compute; eauto.
Defined.

(** ** [tokenize]: what the tokens are *)


Lemma first_index_None (q : ascii -> bool) (l : list ascii) :
  Update.first_index q l = None <-> Forall (fun c => q c = false) l.
Proof.
  induction l as [| c l IH]; simpl.
  - split; [constructor | reflexivity].
  - destruct (q c) eqn:Hq.
    + split; [discriminate |]. intros Hall. apply Forall_cons in Hall as [Hc _]. congruence.
    + destruct (Update.first_index q l) as [k |]; simpl.
      * split; [discriminate |]. intros Hall. apply Forall_cons in Hall as [_ Hall].
        apply IH in Hall. discriminate.
      * split; [| reflexivity]. intros _. constructor; [exact Hq |]. now apply IH.
Qed.

(** The position [first_index] gives is the first one: nothing before it
    satisfies the test. *)
Lemma first_index_first (q : ascii -> bool) (l : list ascii) (k : nat) :
  Update.first_index q l = Some k ->
  Forall (fun c => q c = false) (take k l).
Proof.
  revert k. induction l as [| c l IH]; intros k; simpl; [discriminate |].
  destruct (q c) eqn:Hq.
  - intros [= <-]. constructor.
  - destruct (Update.first_index q l) as [k' |]; simpl; [| discriminate].
    intros [= <-]. simpl. constructor; [exact Hq |]. now apply IH.
Qed.

Lemma tokenize_loop_prefix delimiters str :
  forall fuel last pos tokens,
    exists more, Update.tokenize_loop fuel delimiters str last pos tokens = tokens ++ more.
Proof.
  induction fuel as [| fuel IH]; intros last pos tokens; simpl.
  - exists []. now rewrite app_nil_r.
  - destruct pos as [p |]; [| exists []; now rewrite app_nil_r].
    destruct last as [l |]; [| exists []; now rewrite app_nil_r].
    match goal with
    | |- context [Update.tokenize_loop fuel delimiters str ?a ?b ?c] =>
        destruct (IH a b c) as [more ->]
    end.
    eexists. rewrite <- app_assoc. reflexivity.
Qed.

(** Without a delimiter behind the first character that is none, the loop
    is never entered. *)
Lemma tokenize_nothing (s delimiters : string) :
  ~ delimiter_after_text delimiters (String.list_ascii_of_string s) ->
  Update.tokenize s delimiters = [].
Proof.
  intros Hno. unfold Update.tokenize.
  set (str := String.list_ascii_of_string s) in *.
  destruct (Update.find_first_not_of delimiters str (Some O)) as [l |] eqn:Hlast;
    [| reflexivity].
  destruct (Update.find_first_of delimiters str (Some l)) as [p |] eqn:Hpos;
    [| reflexivity].
  exfalso. apply Hno.
  pose proof Hlast as Hl. apply find_first_not_of_Some in Hl as (_ & c & rest & Hdrop & Hc).
  pose proof (find_first_of_after _ _ _ _ _ _ Hdrop Hc Hpos) as Hlt.
  unfold Update.find_first_of in Hpos.
  destruct (Update.first_index _ (drop l str)) as [k |] eqn:Hk; simpl in Hpos; [| discriminate].
  injection Hpos as <-.
  apply first_index_Some in Hk as (d & rest' & Hdrop' & Hd). rewrite drop_drop in Hdrop'.
  exists l, (l + k)%nat, c, d. split; [exact Hlt |].
  split; [| split; [exact Hc | split; [| exact Hd]]].
  - rewrite <- (Nat.add_0_r l), <- lookup_drop, Hdrop. reflexivity.
  - rewrite <- (Nat.add_0_r (l + k)), <- lookup_drop, Hdrop'. reflexivity.
Qed.

Lemma find_first_not_of_None delimiters str (p : nat) :
  Update.find_first_not_of delimiters str (Some p) = None ->
  Forall (fun c => Update.is_delimiter delimiters c = true) (drop p str).
Proof.
  unfold Update.find_first_not_of.
  destruct (Update.first_index _ (drop p str)) as [k |] eqn:Hk; simpl; [discriminate |].
  intros _. apply first_index_None in Hk.
  eapply Forall_impl; [exact Hk |]. simpl. intros c Hc. now apply negb_false_iff.
Qed.

Lemma find_first_not_of_skipped delimiters str (p l : nat) :
  Update.find_first_not_of delimiters str (Some p) = Some l ->
  Forall (fun c => Update.is_delimiter delimiters c = true) (take (l - p) (drop p str)).
Proof.
  unfold Update.find_first_not_of.
  destruct (Update.first_index _ (drop p str)) as [k |] eqn:Hk; simpl; [| discriminate].
  intros [= <-]. replace (p + k - p)%nat with k by lia.
  apply first_index_first in Hk.
  eapply Forall_impl; [exact Hk |]. simpl. intros c Hc. now apply negb_false_iff.
Qed.

Lemma find_first_of_None delimiters str (l : nat) :
  Update.find_first_of delimiters str (Some l) = None ->
  Forall (fun c => Update.is_delimiter delimiters c = false) (drop l str).
Proof.
  unfold Update.find_first_of.
  destruct (Update.first_index _ (drop l str)) as [k |] eqn:Hk; simpl; [discriminate |].
  intros _. now apply first_index_None.
Qed.

Lemma find_first_of_Some delimiters str (l p : nat) :
  Update.find_first_of delimiters str (Some l) = Some p ->
  (l <= p < length str)%nat
  /\ Forall (fun c => Update.is_delimiter delimiters c = false) (take (p - l) (drop l str))
  /\ exists d, str !! p = Some d /\ Update.is_delimiter delimiters d = true.
Proof.
  unfold Update.find_first_of.
  destruct (Update.first_index _ (drop l str)) as [k |] eqn:Hk; simpl; [| discriminate].
  intros [= <-]. replace (l + k - l)%nat with k by lia.
  pose proof (first_index_first _ _ _ Hk) as Hbefore.
  apply first_index_Some in Hk as (d & rest & Hdrop & Hd). rewrite drop_drop in Hdrop.
  assert (Hp : str !! (l + k)%nat = Some d).
  { rewrite <- (Nat.add_0_r (l + k)), <- lookup_drop, Hdrop. reflexivity. }
  split; [split; [lia | eapply lookup_lt_Some; exact Hp] |].
  split; [exact Hbefore |]. exists d. split; [exact Hp | exact Hd].
Qed.

(** X1.  [tokenize] yields no token at all unless a delimiter stands
    behind some text: a text without delimiter is no token, and neither is
    text that only follows delimiters. *)
Theorem tokenize_empty_iff (s delimiters : string) :
  Update.tokenize s delimiters = []
  <-> ~ delimiter_after_text delimiters (String.list_ascii_of_string s).
Proof.
  split; [| apply tokenize_nothing].
  intros Hnil (i & j & c & d & Hij & Hi & Hc & Hj & Hd).
  unfold Update.tokenize in Hnil.
  set (str := String.list_ascii_of_string s) in *.
  destruct (Update.find_first_not_of delimiters str (Some O)) as [l |] eqn:Hlast.
  - apply find_first_not_of_skipped in Hlast. rewrite drop_0, Nat.sub_0_r in Hlast.
    assert (Hli : (l <= i)%nat).
    { destruct (decide (l <= i)%nat) as [| Hgt]; [assumption | exfalso].
      rewrite Forall_lookup in Hlast.
      specialize (Hlast i c). rewrite lookup_take_lt in Hlast by lia.
      specialize (Hlast Hi). simpl in Hlast. congruence. }
    destruct (Update.find_first_of delimiters str (Some l)) as [p |] eqn:Hpos.
    + cbn [Update.tokenize_loop] in Hnil.
      match type of Hnil with
      | Update.tokenize_loop ?f ?dl ?st ?a ?b ?t = [] =>
          destruct (tokenize_loop_prefix dl st f a b t) as [more Hmore]
      end.
      rewrite Hmore in Hnil. discriminate.
    + apply find_first_of_None in Hpos. rewrite Forall_lookup in Hpos.
      specialize (Hpos (j - l)%nat d). rewrite lookup_drop in Hpos.
      replace (l + (j - l))%nat with j in Hpos by lia.
      specialize (Hpos Hj). simpl in Hpos. congruence.
  - apply find_first_not_of_None in Hlast. rewrite drop_0, Forall_lookup in Hlast.
    specialize (Hlast i c Hi). simpl in Hlast. congruence.
Qed.

(** What the loop of [tokenize] keeps: [last] is at a character that is no
    delimiter, and no delimiter stands from there up to [pos]. *)
Lemma tokenize_loop_clean delimiters str :
  forall fuel last pos tokens,
    Forall (clean_token delimiters) tokens ->
    (forall l p, last = Some l -> pos = Some p ->
                 (l < p <= length str)%nat
                 /\ Forall (fun c => Update.is_delimiter delimiters c = false)
                           (take (p - l) (drop l str))) ->
    Forall (clean_token delimiters)
           (Update.tokenize_loop fuel delimiters str last pos tokens).
Proof.
  induction fuel as [| fuel IH]; intros last pos tokens Htokens Hspan; [exact Htokens |].
  cbn [Update.tokenize_loop].
  destruct pos as [p |]; [| exact Htokens].
  destruct last as [l |]; [| exact Htokens].
  destruct (Hspan l p eq_refl eq_refl) as [Hlp Hbetween].
  apply IH.
  - apply Forall_app. split; [exact Htokens |]. constructor; [| constructor].
    unfold Update.substr. split.
    + destruct (take (p - l) (drop l str)) as [| c rest] eqn:Htake; [| discriminate].
      apply (f_equal length) in Htake. rewrite length_take, length_drop in Htake.
      simpl in Htake. lia.
    + rewrite String.list_ascii_of_string_of_list_ascii. exact Hbetween.
  - intros l' p' Hl' Hp'. rewrite Hl' in Hp'.
    apply find_first_not_of_Some in Hl' as (_ & c & rest & Hdrop & Hc).
    assert (Hlen : (l' < length str)%nat).
    { destruct (decide (l' < length str)%nat) as [| Hge]; [assumption |].
      rewrite drop_ge in Hdrop by lia. discriminate. }
    destruct (Update.find_first_of delimiters str (Some l')) as [q |] eqn:Hq.
    + injection Hp' as <-.
      pose proof (find_first_of_after _ _ _ _ _ _ Hdrop Hc Hq) as Hlt.
      apply find_first_of_Some in Hq as (Hrange & Hclean & _).
      split; [lia | exact Hclean].
    + injection Hp' as <-. split; [lia |].
      apply find_first_of_None in Hq.
      rewrite take_ge by (rewrite length_drop; lia). exact Hq.
Qed.

(** X2.  Every token [tokenize] gives is a piece of text without
    delimiter, and never the empty string: delimiters in a row separate
    nothing. *)
Theorem tokenize_tokens_clean (s delimiters : string) :
  Forall (clean_token delimiters) (Update.tokenize s delimiters).
Proof.
  unfold Update.tokenize. apply tokenize_loop_clean; [constructor |].
  intros l p Hl Hp. rewrite Hl in Hp.
  apply find_first_not_of_Some in Hl as (_ & c & rest & Hdrop & Hc).
  pose proof (find_first_of_after _ _ _ _ _ _ Hdrop Hc Hp) as Hlt.
  apply find_first_of_Some in Hp as (Hrange & Hclean & _).
  split; [lia | exact Hclean].
Qed.

(** The loop looks at the text from [last] on only: text in front of it
    shifts the positions and changes no token. *)
Lemma tokenize_loop_shift delimiters (pre rest : list ascii) :
  forall fuel (l p : nat) tokens,
    Update.tokenize_loop fuel delimiters (pre ++ rest)
      (Some (length pre + l)%nat) (Some (length pre + p)%nat) tokens
    = Update.tokenize_loop fuel delimiters rest (Some l) (Some p) tokens.
Proof.
  induction fuel as [| fuel IH]; intros l p tokens; [reflexivity |].
  cbn [Update.tokenize_loop].
  assert (Hdrop : forall n, drop (length pre + n) (pre ++ rest) = drop n rest).
  { intros n. rewrite drop_app_ge by lia. f_equal. lia. }
  assert (Hsub : Update.substr (pre ++ rest) (length pre + l)
                               (length pre + p - (length pre + l))
                 = Update.substr rest l (p - l)).
  { unfold Update.substr. rewrite Hdrop. do 2 f_equal. lia. }
  rewrite Hsub. unfold Update.find_first_not_of. rewrite Hdrop.
  destruct (Update.first_index _ (drop p rest)) as [k |]; simpl.
  - unfold Update.find_first_of.
    replace (length pre + p + k)%nat with (length pre + (p + k))%nat by lia.
    rewrite Hdrop.
    destruct (Update.first_index _ (drop (p + k) rest)) as [k' |]; simpl.
    + replace (length pre + (p + k) + k')%nat with (length pre + (p + k + k'))%nat by lia.
      apply IH.
    + rewrite length_app. apply IH.
  - rewrite !tokenize_loop_stopped. reflexivity.
Qed.

Lemma first_index_app_clean (q : ascii -> bool) (t rest : list ascii) :
  Forall (fun c => q c = false) t ->
  Update.first_index q (t ++ rest)
  = (fun k => (length t + k)%nat) <$> Update.first_index q rest.
Proof.
  induction t as [| c t IH]; intros Hall; simpl.
  - destruct (Update.first_index q rest); reflexivity.
  - apply Forall_cons in Hall as [-> Hall]. rewrite IH by exact Hall.
    destruct (Update.first_index q rest); reflexivity.
Qed.

Lemma clean_token_chars delimiters t :
  clean_token delimiters t ->
  exists c rest, String.list_ascii_of_string t = c :: rest
                 /\ Update.is_delimiter delimiters c = false
                 /\ Forall (fun c => Update.is_delimiter delimiters c = false) rest.
Proof.
  intros [Hne Hall]. destruct t as [| c t]; [contradiction |]. simpl in *.
  apply Forall_cons in Hall as [Hc Hall]. eauto.
Qed.

(** The loop on tokens joined by a delimiter, started at the first token. *)
Lemma tokenize_loop_joined delimiters sep :
  Update.is_delimiter delimiters sep = true ->
  forall ts t fuel tokens,
    Forall (clean_token delimiters) (t :: ts) ->
    (length (t :: ts) <= fuel)%nat ->
    Update.tokenize_loop fuel delimiters (joined sep (t :: ts))
      (Some O) (Some (length (String.list_ascii_of_string t))) tokens
    = tokens ++ t :: ts.
Proof.
  intros Hsep. induction ts as [| t2 ts IH]; intros t fuel tokens Hclean Hfuel;
    (destruct fuel as [| fuel]; [simpl in Hfuel; lia |]);
    cbn [Update.tokenize_loop];
    apply Forall_cons in Hclean as [Ht Hclean];
    set (chars := String.list_ascii_of_string t) in *.
  - assert (Hsub : Update.substr (joined sep [t]) 0 (length chars - 0) = t).
    { unfold Update.substr, joined. simpl. fold chars.
      rewrite app_nil_r, Nat.sub_0_r, drop_0.
      rewrite take_ge by lia. apply String.string_of_list_ascii_of_string. }
    rewrite Hsub. unfold Update.find_first_not_of.
    replace (drop (length chars) (joined sep [t])) with (@nil ascii).
    + simpl. rewrite tokenize_loop_stopped. reflexivity.
    + unfold joined. simpl. fold chars. rewrite app_nil_r, drop_ge by lia. reflexivity.
  - assert (Hstr : joined sep (t :: t2 :: ts)
                   = (chars ++ [sep]) ++ joined sep (t2 :: ts)).
    { unfold joined. simpl. fold chars. rewrite <- app_assoc. reflexivity. }
    assert (Hsub : Update.substr (joined sep (t :: t2 :: ts)) 0 (length chars - 0) = t).
    { unfold Update.substr. rewrite Hstr, <- app_assoc, Nat.sub_0_r, drop_0.
      rewrite take_app_length. apply String.string_of_list_ascii_of_string. }
    rewrite Hsub.
    pose proof Hclean as Hclean2. apply Forall_cons in Hclean2 as [Ht2 Hrest].
    destruct (clean_token_chars _ _ Ht2) as (c2 & rest2 & Hchars2 & Hc2 & Hrest2).
    assert (Hlast : Update.find_first_not_of delimiters (joined sep (t :: t2 :: ts))
                      (Some (length chars))
                    = Some (length (chars ++ [sep]) + 0)%nat).
    { unfold Update.find_first_not_of. rewrite Hstr, <- app_assoc, drop_app_length.
      unfold joined. rewrite Hchars2. simpl. rewrite Hsep, Hc2. simpl.
      rewrite length_app. simpl. f_equal. lia. }
    rewrite Hlast.
    assert (Hpos : match Update.find_first_of delimiters (joined sep (t :: t2 :: ts))
                           (Some (length (chars ++ [sep]) + 0)%nat) with
                   | Some _ =>
                       Update.find_first_of delimiters (joined sep (t :: t2 :: ts))
                         (Some (length (chars ++ [sep]) + 0)%nat)
                   | None => Some (length (joined sep (t :: t2 :: ts)))
                   end
                   = Some (length (chars ++ [sep])
                           + length (String.list_ascii_of_string t2))%nat).
    { unfold Update.find_first_of. rewrite Hstr.
      rewrite Nat.add_0_r, drop_app_length.
      rewrite (length_app (chars ++ [sep])).
      unfold joined. destruct Ht2 as [_ Hall2].
      rewrite first_index_app_clean by exact Hall2.
      destruct ts as [| t3 ts]; simpl.
      - rewrite app_nil_r. reflexivity.
      - rewrite Hsep. simpl. f_equal. lia. }
    rewrite Hpos, Hstr, tokenize_loop_shift.
    rewrite IH; [| exact Hclean | simpl in *; lia].
    rewrite <- app_assoc. reflexivity.
Qed.

(** X3.  Two or more tokens, none empty and none with a delimiter in it,
    joined by a delimiter, are what [tokenize] gives back. *)
Theorem tokenize_joined (delimiters : string) (sep : ascii) (ts : list string) :
  Update.is_delimiter delimiters sep = true ->
  Forall (clean_token delimiters) ts ->
  (2 <= length ts)%nat ->
  Update.tokenize (String.string_of_list_ascii (joined sep ts)) delimiters = ts.
Proof.
  intros Hsep Hclean Hlen. destruct ts as [| t [| t2 ts]]; simpl in Hlen; try lia.
  unfold Update.tokenize. rewrite String.list_ascii_of_string_of_list_ascii.
  pose proof Hclean as Hc. apply Forall_cons in Hc as [Ht Hc].
  destruct (clean_token_chars _ _ Ht) as (c & rest & Hchars & Hcc & Hrest).
  assert (Hlast : Update.find_first_not_of delimiters (joined sep (t :: t2 :: ts)) (Some O)
                  = Some O).
  { unfold Update.find_first_not_of, joined. rewrite Hchars. simpl. rewrite Hcc.
    reflexivity. }
  rewrite Hlast.
  assert (Hpos : Update.find_first_of delimiters (joined sep (t :: t2 :: ts)) (Some O)
                 = Some (length (String.list_ascii_of_string t))).
  { unfold Update.find_first_of, joined. rewrite drop_0. destruct Ht as [_ Hall].
    rewrite first_index_app_clean by exact Hall. simpl. rewrite Hsep. simpl.
    f_equal. lia. }
  rewrite Hpos.
  rewrite (tokenize_loop_joined delimiters sep Hsep (t2 :: ts) t _ [] Hclean);
    [reflexivity |].
  assert (length (t2 :: ts) <= length (flat_map (fun t' => sep :: String.list_ascii_of_string t') (t2 :: ts)))%nat.
  { clear. induction (t2 :: ts) as [| x l IH]; simpl; [lia |]. rewrite length_app. lia. }
  unfold joined. rewrite length_app. simpl in *. lia.
Qed.

Lemma tokenize_joined_witness :
  Update.tokenize
    (String.string_of_list_ascii (joined ","%char ["coord"; "2"; "set"]%string)) ","
  = ["coord"; "2"; "set"]%string.
Proof.
  apply (tokenize_joined "," ","%char ["coord"; "2"; "set"]%string).
  - reflexivity.
  - repeat (constructor; [split; [discriminate | repeat constructor] |]). constructor.
  - simpl. lia.
Defined.

(** ** [update]: more on the directive *)

Section directive_more.

Variable D : Type.
Variable dadd : D -> D -> D.
Variable indeterminate : D.
Variable strtol : string -> Z * string.
Variable remove_dead_elements :
  Update.ExoFile D -> Z -> list Z -> gmap Z Z -> Update.Mesh D -> ErrorCode * Update.Mesh D.

(** X4.  A [tdata] option without a comma, such as the bare variable
    name, gives no token; [update] then refuses it with the type-out-of-range
    error whatever the file holds, and leaves the mesh alone: the time step
    may be left out of a directive, the operation may not. *)
Theorem update_refuses_text_without_comma :
  forall (s : string) (f : Update.ExoFile D) (m : Update.Mesh D),
    Forall (fun c => Update.is_delimiter "," c = false) (String.list_ascii_of_string s) ->
    Update.update D dadd indeterminate strtol remove_dead_elements (Some s) f m
    = Some (MB_TYPE_OUT_OF_RANGE, m, []).
Proof.
  intros s f m Hno. unfold Update.update.
  rewrite tokenize_nothing; [reflexivity |].
  intros (i & j & c & d & _ & _ & _ & Hj & Hd).
  rewrite Forall_lookup in Hno. specialize (Hno j d Hj). simpl in Hno. congruence.
Qed.

(** X5.  A time step that [update] accepts is at least 1 and fits an
    [int]; it is 1 when the directive has no second token, and otherwise the
    number [strtol] reads from the whole of that token. *)
Theorem parse_time_step_accepted :
  forall (tokens : list string) (time_step : Z),
    Update.parse_time_step strtol tokens = inr time_step ->
    1 <= time_step < 2 ^ 31
    /\ (((length tokens <= 1)%nat \/ tokens !! 1%nat = Some ""%string) /\ time_step = 1
        \/ (exists t, tokens !! 1%nat = Some t /\ t <> ""%string
                      /\ strtol t = (time_step, ""%string))).
Proof.
  intros tokens ts. unfold Update.parse_time_step, Update.token.
  destruct (Nat.ltb_spec 1 (length tokens)) as [Hlen | Hlen]; simpl.
  - destruct (lookup_lt_is_Some_2 tokens 1%nat Hlen) as [t Ht]. rewrite Ht. simpl.
    destruct (String.eqb_spec t "") as [-> | Hne]; simpl.
    + intros [= <-]. split; [lia |]. left. split; [now right | reflexivity].
    + destruct (strtol t) as [pval endptr] eqn:Hstrtol.
      destruct (String.eqb_spec endptr "") as [-> | _]; simpl; [| discriminate].
      destruct (Z.eqb_spec pval (Update.long_to_int pval)) as [Hfit | _]; simpl;
        [| discriminate].
      destruct (Z.leb_spec (Update.long_to_int pval) 0) as [_ | Hpos]; [discriminate |].
      intros [= <-]. rewrite <- Hfit in *. split.
      * split; [lia |]. unfold Update.long_to_int in Hfit.
        pose proof (Z.mod_pos_bound (pval + 2 ^ 31) (2 ^ 32) ltac:(lia)). lia.
      * right. exists t. repeat split; assumption.
  - intros [= <-]. split; [lia |]. left. split; [left; lia | reflexivity].
Qed.

End directive_more.

Lemma update_refuses_text_without_comma_witness :
  Update.update Z Z.add 0 (decimal_strtol 0) (fun _ _ _ _ m' => (MB_SUCCESS, m'))
                (Some "coord"%string) deformed_file reference_mesh
  = Some (MB_TYPE_OUT_OF_RANGE, reference_mesh, []).
Proof.
  apply (update_refuses_text_without_comma Z Z.add 0 (decimal_strtol 0)
           (fun _ _ _ _ m' => (MB_SUCCESS, m')) "coord" deformed_file reference_mesh).
  simpl. repeat constructor.
Defined.

Lemma parse_time_step_accepted_witness :
  1 <= 2 < 2 ^ 31
  /\ (((length ["coord"; "2"; "set"]%string <= 1)%nat
       \/ ["coord"; "2"; "set"]%string !! 1%nat = Some ""%string) /\ 2 = 1
      \/ (exists t, ["coord"; "2"; "set"]%string !! 1%nat = Some t /\ t <> ""%string
                    /\ decimal_strtol 0 t = (2, ""%string))).
Proof.
  apply (parse_time_step_accepted (decimal_strtol 0) ["coord"; "2"; "set"]%string 2).
  vm_compute. reflexivity.
Defined.

(** ** [update]: the map from ids to vertices *)

Lemma fill_id_map_lookup : forall cub_ids cub_verts (m0 : gmap Z Z) k,
  Update.fill_id_map cub_ids cub_verts m0 !! k
  = match m0 !! k with
    | Some v => Some v
    | None => snd <$> List.find (fun p => fst p =? k) (zip cub_ids cub_verts)
    end.
Proof.
  induction cub_ids as [| id cub_ids IH]; intros [| vert cub_verts] m0 k; simpl;
    try (destruct (m0 !! k); reflexivity).
  rewrite IH. unfold Update.map_insert.
  destruct (Z.eqb_spec id k) as [-> | Hne].
  - destruct (m0 !! k) as [v |] eqn:Hk; [now rewrite Hk |].
    rewrite lookup_insert_eq. reflexivity.
  - destruct (m0 !! id) as [w |] eqn:Hid; [reflexivity |].
    rewrite lookup_insert_ne by congruence. reflexivity.
Qed.

(** X6.  The map [update] searches by id sends each global id to the
    first vertex of the file set that carries it: of two vertices with the
    same id the later one is never matched. *)
Theorem fill_id_map_first_vertex_wins :
  forall (cub_ids cub_verts : list Z) (k : Z),
    Update.fill_id_map cub_ids cub_verts ∅ !! k
    = snd <$> List.find (fun p => fst p =? k) (zip cub_ids cub_verts).
Proof. intros ids verts k. rewrite fill_id_map_lookup, lookup_empty. reflexivity. Qed.

(** ** [update]: which vertices move, and where to *)



Section moved_vertices.

Variable D : Type.
Variable dadd : D -> D -> D.
Variable indeterminate : D.

Lemma match_nodes_frame :
  forall three (cub_verts_id_map : gmap Z Z) (a : Update.Arrays D) ids i st m rc st' m',
    Update.match_nodes D dadd indeterminate three cub_verts_id_map a i ids st m
    = (rc, st', m') ->
    Update.cub_file_set_verts m' = Update.cub_file_set_verts m
    /\ Update.global_id m' = Update.global_id m
    /\ dom (Update.coords m') = dom (Update.coords m)
    /\ (forall v, (forall k, k ∈ ids -> cub_verts_id_map !! k <> Some v) ->
                  Update.coords m' !! v = Update.coords m !! v).
Proof.
  intros three cm a. induction ids as [| exo_id ids IH]; intros i st m rc st' m'; simpl.
  - intros [= _ _ <-]. repeat split.
  - destruct (cm !! exo_id) as [cub_vert |] eqn:Hid.
    + destruct (Update.orig_coords a) as [[ox oy] oz].
      destruct (Update.deformed_arrays a) as [[dx dy] dz].
      unfold Update.set_coords at 1.
      destruct (Update.coords m !! cub_vert) as [xyz |] eqn:Hxyz.
      * intros Hrun. apply IH in Hrun as (Hverts & Hgid & Hdom & Hframe). simpl in *.
        split; [exact Hverts |]. split; [exact Hgid |]. split.
        -- rewrite Hdom. apply dom_insert_lookup_L. eauto.
        -- intros v Hv. rewrite Hframe.
           ++ apply lookup_insert_ne. intros ->. apply (Hv exo_id); [left | exact Hid].
           ++ intros k Hk. apply Hv. now right.
      * intros [= _ _ <-]. repeat split.
    + intros Hrun. apply IH in Hrun as (Hverts & Hgid & Hdom & Hframe).
      split; [exact Hverts |]. split; [exact Hgid |]. split; [exact Hdom |].
      intros v Hv. apply Hframe. intros k Hk. apply Hv. now right.
Qed.

Lemma get_global_ids_lookup :
  forall (m : Update.Mesh D) verts ids,
    Update.get_global_ids D m verts = inr ids ->
    forall p, p ∈ zip ids verts -> Update.global_id m !! (snd p) = Some (fst p).
Proof.
  intros m. induction verts as [| v verts IH]; intros ids; simpl.
  - intros [= <-] p Hp. now apply not_elem_of_nil in Hp.
  - destruct (Update.global_id m !! v) as [id |] eqn:Hv; [| discriminate].
    destruct (Update.get_global_ids D m verts) as [rc | ids'] eqn:Hrest; [discriminate |].
    intros [= <-] p Hp. simpl in Hp. apply elem_of_cons in Hp as [-> | Hp].
    + exact Hv.
    + now apply (IH ids').
Qed.

Lemma find_some_elem {A} (q : A -> bool) (l : list A) (x : A) :
  List.find q l = Some x -> x ∈ l /\ q x = true.
Proof.
  intros Hfind. apply List.find_some in Hfind as [Hin Hq].
  split; [now apply list_elem_of_In | exact Hq].
Qed.

(** The id map leads from an id only to a vertex that carries it. *)
Lemma id_map_sound :
  forall (m : Update.Mesh D) verts ids k v,
    Update.get_global_ids D m verts = inr ids ->
    Update.fill_id_map ids verts ∅ !! k = Some v ->
    Update.global_id m !! v = Some k /\ v ∈ verts.
Proof.
  intros m verts ids k v Hids Hk.
  rewrite fill_id_map_lookup, lookup_empty in Hk.
  destruct (List.find _ (zip ids verts)) as [[k' v'] |] eqn:Hfind; [| discriminate].
  simpl in Hk. injection Hk as ->.
  apply find_some_elem in Hfind as [Hin Heq]. simpl in Heq. apply Z.eqb_eq in Heq as ->.
  split.
  - exact (get_global_ids_lookup m verts ids Hids (k, v) Hin).
  - apply elem_of_zip_r in Hin. exact Hin.
Qed.

(** X7.  The node-moving part of [update] changes the coordinates of those
    vertices of the file set only whose global id stands in [node_num_map];
    every other vertex stays where it is, no vertex comes or goes, and the
    global ids and the file set are as before -- whether the part runs to its
    end or returns early. *)
Theorem move_nodes_moves_listed_vertices_only :
  forall (tokens : list string) (op : string) (f : Update.ExoFile D)
         (a : Update.Arrays D) (m : Update.Mesh D),
    let m' := mesh_after (Update.move_nodes D dadd indeterminate tokens op f a m) in
    Update.cub_file_set_verts m' = Update.cub_file_set_verts m
    /\ Update.global_id m' = Update.global_id m
    /\ dom (Update.coords m') = dom (Update.coords m)
    /\ (forall v,
           (forall id, Update.global_id m !! v = Some id -> id ∉ Update.ptr a) ->
           Update.coords m' !! v = Update.coords m !! v).
Proof.
  intros tokens op f a m. unfold Update.move_nodes.
  destruct (negb _ && negb _); [simpl; repeat split |].
  destruct (negb _ && negb _); [simpl; repeat split |].
  destruct (Update.cub_file_set_verts m) as [rval | cub_verts] eqn:Hverts;
    [simpl; repeat split; assumption |].
  destruct (Update.get_global_ids D m cub_verts) as [rval | cub_ids] eqn:Hids;
    [simpl; repeat split; assumption |].
  destruct (Update.match_nodes _ _ _ _ _ _ _ _ _ _) as [[rc st] m1] eqn:Hrun.
  apply match_nodes_frame in Hrun as (Hv & Hg & Hd & Hframe).
  assert (Hgoal : Update.cub_file_set_verts m1 = Update.cub_file_set_verts m
                  /\ Update.global_id m1 = Update.global_id m
                  /\ dom (Update.coords m1) = dom (Update.coords m)
                  /\ (forall v,
                         (forall id, Update.global_id m !! v = Some id -> id ∉ Update.ptr a) ->
                         Update.coords m1 !! v = Update.coords m !! v)).
  { split; [exact Hv |]. split; [exact Hg |]. split; [exact Hd |].
    intros v Hfree. apply Hframe. intros k Hk Hmap.
    destruct (id_map_sound m cub_verts cub_ids k v Hids Hmap) as [Hgid _].
    exact (Hfree k Hgid Hk). }
  destruct rc; simpl; rewrite <- Hverts; exact Hgoal.
Qed.

End moved_vertices.

Section placed_vertices.

Variable D : Type.
Variable dadd : D -> D -> D.
Variable indeterminate : D.

Lemma match_nodes_places :
  forall three (cub_verts_id_map : gmap Z Z) (a : Update.Arrays D),
    (forall k1 k2 v, cub_verts_id_map !! k1 = Some v -> cub_verts_id_map !! k2 = Some v ->
                     k1 = k2) ->
    forall ids i st m st' m',
      NoDup ids ->
      Update.match_nodes D dadd indeterminate three cub_verts_id_map a i ids st m
      = (MB_SUCCESS, st', m') ->
      forall j k v,
        ids !! j = Some k -> cub_verts_id_map !! k = Some v ->
        Update.coords m' !! v = Some (displaced dadd indeterminate three a (i + j)).
Proof.
  intros three cm a Hinj. induction ids as [| exo_id ids IH];
    intros i st m st' m' Hnodup Hrun j k v Hj Hk; [discriminate |].
  apply NoDup_cons in Hnodup as [Hfresh Hnodup].
  simpl in Hrun. destruct j as [| j]; simpl in Hj.
  - injection Hj as ->. rewrite Hk in Hrun.
    unfold displaced.
    destruct (Update.orig_coords a) as [[ox oy] oz].
    destruct (Update.deformed_arrays a) as [[dx dy] dz].
    unfold Update.set_coords in Hrun at 1.
    destruct (Update.coords m !! v) as [xyz |] eqn:Hxyz; [| discriminate].
    apply match_nodes_frame in Hrun as (_ & _ & _ & Hframe).
    rewrite Hframe.
    + simpl. rewrite lookup_insert_eq, Nat.add_0_r. reflexivity.
    + intros k' Hk' Hmap. apply Hfresh. now rewrite (Hinj _ _ _ Hk Hmap).
  - replace (i + S j)%nat with (S i + j)%nat by lia.
    destruct (cm !! exo_id) as [cub_vert |] eqn:Hid.
    + destruct (Update.orig_coords a) as [[ox oy] oz] eqn:Ho.
      destruct (Update.deformed_arrays a) as [[dx dy] dz] eqn:Hd.
      unfold Update.set_coords in Hrun at 1.
      destruct (Update.coords m !! cub_vert) as [xyz |] eqn:Hxyz; [| discriminate].
      exact (IH _ _ _ _ _ Hnodup Hrun j k v Hj Hk).
    + exact (IH _ _ _ _ _ Hnodup Hrun j k v Hj Hk).
Qed.

(** X8.  When the node-moving part of [update] runs to its end and the
    ids of [node_num_map] are distinct, the vertex matched to exodus node [i]
    lies at the node's original coordinates plus its displacement at the time
    step; in a file of two dimensions the third coordinate is the
    never-written one of the local [CartVect]. *)
Theorem move_nodes_places_matched_vertices :
  forall (tokens : list string) (op : string) (f : Update.ExoFile D)
         (a : Update.Arrays D) (m : Update.Mesh D) st m' cub_verts cub_ids,
    Update.move_nodes D dadd indeterminate tokens op f a m = inr (st, m') ->
    NoDup (Update.ptr a) ->
    Update.cub_file_set_verts m = inr cub_verts ->
    Update.get_global_ids D m cub_verts = inr cub_ids ->
    forall i exo_id cub_vert,
      Update.ptr a !! i = Some exo_id ->
      Update.fill_id_map cub_ids cub_verts ∅ !! exo_id = Some cub_vert ->
      Update.coords m' !! cub_vert
      = Some (displaced dadd indeterminate (Update.numberDimensions_loading f =? 3) a i).
Proof.
  intros tokens op f a m st m' cub_verts cub_ids Hrun Hnodup Hverts Hids i exo_id v Hi Hv.
  unfold Update.move_nodes in Hrun.
  destruct (negb _ && negb _); [discriminate |].
  destruct (negb _ && negb _); [discriminate |].
  rewrite Hverts, Hids in Hrun.
  destruct (Update.match_nodes _ _ _ _ _ _ _ _ _ _) as [[rc st1] m1] eqn:Hloop.
  destruct rc; try discriminate. injection Hrun as _ <-.
  apply (match_nodes_places _ _ _) with (j := i) (k := exo_id) (v := v) in Hloop;
    [exact Hloop | | exact Hnodup | exact Hi | exact Hv].
  intros k1 k2 w H1 H2.
  destruct (id_map_sound D m cub_verts cub_ids k1 w Hids H1) as [Hg1 _].
  destruct (id_map_sound D m cub_verts cub_ids k2 w Hids H2) as [Hg2 _].
  congruence.
Qed.

(** X9.  Every array [update] reads from the deformed file has one entry
    per node of the file: the node ids, the original coordinates and the
    displacements in x and y, and those in z when the file has three
    dimensions; otherwise the z arrays stay empty. *)
Theorem read_arrays_lengths :
  forall (f : Update.ExoFile D) (time_step : Z) (a : Update.Arrays D),
    Update.read_arrays D f time_step = Some (inr a) ->
    let n := Z.to_nat (Update.numberNodes_loading f) in
    let '(ox, oy, oz) := Update.orig_coords a in
    let '(dx, dy, dz) := Update.deformed_arrays a in
    length (Update.ptr a) = n
    /\ length ox = n /\ length oy = n /\ length dx = n /\ length dy = n
    /\ (if Update.numberDimensions_loading f =? 3
        then length oz = n /\ length dz = n
        else oz = [] /\ dz = []).
Proof.
  intros f ts a. unfold Update.read_arrays.
  assert (Hget : forall A (v : Nc.NcVar A) l,
             Nc.get v (Update.numberNodes_loading f) = Some l ->
             length l = Z.to_nat (Update.numberNodes_loading f)).
  { intros A v l. unfold Nc.get.
    destruct (Nat.leb_spec (Z.to_nat (Update.numberNodes_loading f))
                           (length (Nc.var_values v))); [| discriminate].
    intros [= <-]. rewrite length_take. lia. }
  assert (Hrow : forall (v : Nc.NcVar (list D)) l,
             Update.get_row D v (ts - 1) (Update.numberNodes_loading f) = Some l ->
             length l = Z.to_nat (Update.numberNodes_loading f)).
  { intros v l. unfold Update.get_row. destruct (ts - 1 <? 0); [discriminate |].
    destruct (Nc.var_values v !! _) as [row |]; [| discriminate].
    destruct (Nat.leb_spec (Z.to_nat (Update.numberNodes_loading f)) (length row));
      [| discriminate].
    intros [= <-]. rewrite length_take. lia. }
  destruct (negb (Update.is_valid f)); [discriminate |].
  destruct (negb (bool_decide _)); [discriminate |].
  destruct (Nc.get_dim _ _) as [ncdim |]; [| discriminate].
  intros [= Hrun]. revert Hrun.
  destruct (negb (Nc.dim_is_valid ncdim)); [discriminate |].
  destruct (Nc.dim_size ncdim <? ts); [discriminate |].
  destruct (match Nc.get_var (Update.int_vars f) "node_num_map" with
            | Some temp_var => Nc.get temp_var (Update.numberNodes_loading f)
            | None => Some (replicate (Z.to_nat (Update.numberNodes_loading f)) 0)
            end) as [ptr |] eqn:Hptr; [| discriminate].
  assert (Hlen : length ptr = Z.to_nat (Update.numberNodes_loading f)).
  { destruct (Nc.get_var (Update.int_vars f) "node_num_map") as [v |].
    - exact (Hget _ _ _ Hptr).
    - injection Hptr as <-. apply length_replicate. }
  destruct (Update.valid_var (Update.nodal_vars f) "vals_nod_var1") as [coordx |];
    [| discriminate].
  destruct (Update.valid_var (Update.nodal_vars f) "vals_nod_var2") as [coordy |];
    [| discriminate].
  destruct (Update.numberDimensions_loading f =? 3).
  - destruct (Update.valid_var (Update.nodal_vars f) "vals_nod_var3") as [coordz |];
      [| discriminate].
    destruct (Update.get_row D coordx _ _) as [dx |] eqn:Hdx; [| discriminate].
    destruct (Update.get_row D coordy _ _) as [dy |] eqn:Hdy; [| discriminate].
    destruct (Update.get_row D coordz _ _) as [dz |] eqn:Hdz; [| discriminate].
    destruct (Update.valid_var (Update.coord_vars f) "coordx") as [c1 |]; [| discriminate].
    destruct (Update.valid_var (Update.coord_vars f) "coordy") as [c2 |]; [| discriminate].
    destruct (Update.valid_var (Update.coord_vars f) "coordz") as [c3 |]; [| discriminate].
    destruct (Nc.get c1 _) as [ox |] eqn:Hox; [| discriminate].
    destruct (Nc.get c2 _) as [oy |] eqn:Hoy; [| discriminate].
    destruct (Nc.get c3 _) as [oz |] eqn:Hoz; [| discriminate].
    intros [= <-]. simpl. repeat split; eauto.
  - destruct (Update.get_row D coordx _ _) as [dx |] eqn:Hdx; [| discriminate].
    destruct (Update.get_row D coordy _ _) as [dy |] eqn:Hdy; [| discriminate].
    destruct (Update.valid_var (Update.coord_vars f) "coordx") as [c1 |]; [| discriminate].
    destruct (Update.valid_var (Update.coord_vars f) "coordy") as [c2 |]; [| discriminate].
    destruct (Nc.get c1 _) as [ox |] eqn:Hox; [| discriminate].
    destruct (Nc.get c2 _) as [oy |] eqn:Hoy; [| discriminate].
    intros [= <-]. simpl. repeat split; eauto.
Qed.

End placed_vertices.

Lemma move_nodes_places_matched_vertices_witness :
  Update.coords moved_reference_mesh !! 501
  = Some (displaced Z.add 0 (Update.numberDimensions_loading deformed_file =? 3)
                    arrays_at_step_2 0).
Proof.
  apply (move_nodes_places_matched_vertices Z Z.add 0 ["coord"; "2"; "set"]%string "set"
           deformed_file arrays_at_step_2 reference_mesh one_matched_one_lost
           moved_reference_mesh [501; 502] [7; 99]) with (exo_id := 7).
  - vm_compute. reflexivity.
  - apply (bool_decide_unpack _). vm_compute. reflexivity.
  - reflexivity.
  - vm_compute. reflexivity.
  - reflexivity.
  - vm_compute. reflexivity.
Defined.

Lemma read_arrays_lengths_witness :
  let n := Z.to_nat (Update.numberNodes_loading deformed_file) in
  let '(ox, oy, oz) := Update.orig_coords arrays_at_step_2 in
  let '(dx, dy, dz) := Update.deformed_arrays arrays_at_step_2 in
  length (Update.ptr arrays_at_step_2) = n
  /\ length ox = n /\ length oy = n /\ length dx = n /\ length dy = n
  /\ (if Update.numberDimensions_loading deformed_file =? 3
      then length oz = n /\ length dz = n
      else oz = [] /\ dz = []).
Proof.
  apply (read_arrays_lengths Z deformed_file 2 arrays_at_step_2).
  vm_compute. reflexivity.
Defined.

(** ** [read_block_headers]: the layout of the blocks *)

Lemma to_int_small : forall x, - 2 ^ 31 <= x < 2 ^ 31 -> BlockHeaders.to_int x = x.
Proof. intros x Hx. unfold BlockHeaders.to_int. rewrite Z.mod_small; lia. Qed.

Lemma total_elements_nonneg : forall bs,
  Forall (fun b => 0 <= numElements b) bs -> 0 <= total_elements bs.
Proof.
  induction bs as [| b bs IH]; intros Hall; simpl; [lia |].
  apply Forall_cons in Hall as [Hb Hall]. specialize (IH Hall). lia.
Qed.

Section block_layout.

Context `{ExoIIEnum}.

Variables (addr_block_ids addr_new_blocks : Z).

Lemma block_loop_layout :
  forall block_ids new_blocks rest r seq exodus_id r',
    BlockHeaders.block_loop addr_block_ids addr_new_blocks r block_ids new_blocks
                            seq exodus_id rest = (MB_SUCCESS, r') ->
    BlockHeaders.dims r' = BlockHeaders.dims r
    /\ exists bs, BlockHeaders.blocksLoading r' = BlockHeaders.blocksLoading r ++ bs
                  /\ map blockId bs = rest
                  /\ (- 2 ^ 31 <= exodus_id ->
                      Forall (fun b => 0 <= numElements b) bs ->
                      exodus_id + total_elements bs < 2 ^ 31 ->
                      contiguous exodus_id bs)
                  /\ Forall fresh_header bs
                  /\ (forall (k : nat) b, bs !! k = Some b ->
                        Nc.GET_DIMB (BlockHeaders.dims r) "num_el_in_blk" (seq + Z.of_nat k)
                        = inr (numElements b)).
Proof.
  intros block_ids new_blocks rest. induction rest as [| id rest IH];
    intros r seq exodus_id r'; simpl.
  - intros [= <-]. split; [reflexivity |]. exists []. rewrite app_nil_r.
    repeat split; [constructor | intros k b Hk; discriminate].
  - destruct (BlockHeaders.block_header _ _ r block_ids new_blocks seq exodus_id id)
      as [rc | [r1 e1]] eqn:Hhead.
    + intros Heq. injection Heq as Hrc Hr. subst rc.
      apply block_header_error in Hhead. discriminate.
    + intros Hloop. apply IH in Hloop as (Hdims & bs & Hbs & Hids & Hcont & Hfresh & Hsizes).
      unfold BlockHeaders.block_header in Hhead.
      destruct (Nc.GET_DIMB _ "num_el_in_blk" seq) as [? | n1] eqn:Hn1; [discriminate |].
      destruct (Nc.GET_DIMB _ "num_nod_per_el" seq) as [? | n2]; [discriminate |].
      destruct (Nc.GET_DIMB _ "num_att_in_blk" seq) as [? | n3]; [discriminate |].
      injection Hhead as <- <-. simpl in *. split; [exact Hdims |].
      eexists (_ :: bs). split; [rewrite Hbs, <- app_assoc; reflexivity |].
      split; [simpl; now rewrite Hids |].
      split; [| split; [constructor; [reflexivity | exact Hfresh] |]].
      * intros Hlow Hall Hfit. apply Forall_cons in Hall as [Hn Hall]. simpl in Hn, Hfit.
        pose proof (total_elements_nonneg bs Hall) as Htotal.
        split; [reflexivity |]. simpl.
        rewrite to_int_small in Hcont by lia. apply Hcont; [lia | exact Hall | lia].
      * intros [| k] b Hk; simpl in Hk.
        -- injection Hk as <-. simpl. rewrite Z.add_0_r. exact Hn1.
        -- rewrite <- (Hsizes k b Hk). f_equal. lia.
Qed.


End block_layout.


(** Past the range of [int] the start of the next block wraps round. *)
Lemma read_block_headers_wraps_exodus_id :
  map startExoId
    <$> (BlockHeaders.blocksLoading
           <$> (snd <$> @BlockHeaders.read_block_headers sample_enum 4096 8192
                          two_blocks_past_int None 0))
  = Some [1; - 2147483648].
Proof. reflexivity. Qed.

(** ** [find_side_element_type] on blocks laid out like that *)

Section block_lookup.

Context `{ExoIIEnum}.

(** X11.  On blocks that lie one behind the other from [start] on, are all
    read in and whose element ids all fit an [int] (so that the sums the
    range test makes are those of the C++ [int]s), [find_side_element_type]
    finds a block for exactly the element ids from [start] up to the total
    number of elements: it hands out a block that holds the id, with that
    block's element type, and fails for every other id; [df_index] is left
    as it was either way. *)
Theorem find_side_element_type_covers_the_file :
  forall (bs : list ReadBlockData) (start exodus_id df_index side_id : Z),
    contiguous start bs ->
    Forall (fun b => 0 <= numElements b) bs ->
    Forall (fun b => reading_in b = true) bs ->
    - 2 ^ 31 <= start ->
    start + total_elements bs < 2 ^ 31 ->
    (start <= exodus_id < start + total_elements bs ->
     exists b, b ∈ bs /\ owns b exodus_id
               /\ SideSets.find_side_element_type bs exodus_id df_index side_id
                  = (MB_SUCCESS, elemType b, Some b, df_index))
    /\ (~ start <= exodus_id < start + total_elements bs ->
        SideSets.find_side_element_type bs exodus_id df_index side_id
        = (MB_FAILURE, EXOII_MAX_ELEM_TYPE, None, df_index)).
Proof.
  induction bs as [| b bs IH]; intros start id df side Hcont Hsizes Hread Hlow Hfit.
  - simpl. split; [lia | reflexivity].
  - destruct Hcont as [Hstart Hcont].
    apply Forall_cons in Hsizes as [Hb Hsizes]. apply Forall_cons in Hread as [Hrb Hread].
    pose proof (total_elements_nonneg bs Hsizes) as Htotal. simpl in Hfit.
    destruct (IH (start + numElements b) id df side Hcont Hsizes Hread
                 ltac:(lia) ltac:(lia)) as [Hin Hout].
    simpl. rewrite Hstart. rewrite Hrb. simpl.
    destruct (Z.leb_spec start id) as [Hlo | Hlo];
      destruct (Z.ltb_spec id (start + numElements b)) as [Hhi | Hhi]; simpl.
    + split; [| lia]. intros _. exists b. split; [left |].
      split; [unfold owns; lia | reflexivity].
    + split.
      * intros Hrange. destruct Hin as (b' & Hb' & Howns & Hfind); [lia |].
        exists b'. split; [now right | split; [exact Howns | exact Hfind]].
      * intros Hrange. apply Hout. lia.
    + split; [lia |]. intros _. apply Hout. lia.
    + split; [lia |]. intros _. apply Hout. lia.
Qed.

End block_lookup.

Lemma find_side_element_type_covers_the_file_witness :
  (exists b, b ∈ [shell_block] /\ owns b 1
             /\ @SideSets.find_side_element_type sample_enum [shell_block] 1 0 1
                = (MB_SUCCESS, elemType b, Some b, 0))
  /\ @SideSets.find_side_element_type sample_enum [shell_block] 2 0 1
     = (MB_FAILURE, @EXOII_MAX_ELEM_TYPE sample_enum, None, 0).
Proof.
  assert (Hcont : contiguous 1 [shell_block]) by (simpl; split; reflexivity || exact I).
  assert (Hsizes : Forall (fun b => 0 <= numElements b) [shell_block])
    by (repeat constructor; simpl; lia).
  assert (Hread : Forall (fun b => reading_in b = true) [shell_block])
    by (repeat constructor).
  assert (Hlow : - 2 ^ 31 <= 1) by lia.
  assert (Hfit : 1 + total_elements [shell_block] < 2 ^ 31) by (simpl; lia).
  split.
  - apply (@find_side_element_type_covers_the_file sample_enum [shell_block] 1 1 0 1
             Hcont Hsizes Hread Hlow Hfit).
    simpl. lia.
  - apply (@find_side_element_type_covers_the_file sample_enum [shell_block] 1 2 0 1
             Hcont Hsizes Hread Hlow Hfit).
    simpl. lia.
Defined.

(** ** [read_block_headers]: which blocks are marked *)

Section every_block_read.

Context `{ExoIIEnum}.

Variables (addr_block_ids addr_new_blocks : Z).

Lemma block_loop_marks_all :
  forall block_ids new_blocks rest r seq exodus_id r',
    (forall k : nat, (k <= length new_blocks)%nat ->
                     addr_new_blocks + BlockHeaders.sizeof_int * Z.of_nat k
                     <> BlockHeaders.vec_end addr_block_ids block_ids) ->
    BlockHeaders.block_loop addr_block_ids addr_new_blocks r block_ids new_blocks
                            seq exodus_id rest = (MB_SUCCESS, r') ->
    exists bs, BlockHeaders.blocksLoading r' = BlockHeaders.blocksLoading r ++ bs
               /\ length bs = length rest
               /\ Forall (fun b => reading_in b = true) bs.
Proof.
  intros block_ids new_blocks rest. induction rest as [| id rest IH];
    intros r seq exodus_id r' Hapart; simpl.
  - intros [= <-]. exists []. rewrite app_nil_r. repeat split. constructor.
  - destruct (BlockHeaders.block_header _ _ r block_ids new_blocks seq exodus_id id)
      as [rc | [r1 e1]] eqn:Hhead.
    + intros Heq. injection Heq as Hrc Hr. subst rc.
      apply block_header_error in Hhead. discriminate.
    + intros Hloop. destruct (IH _ _ _ _ Hapart Hloop) as (bs & Hbs & Hlen & Hall).
      unfold BlockHeaders.block_header in Hhead.
      repeat (destruct (Nc.GET_DIMB _ _ _) as [? | ?] in Hhead; [discriminate |]).
      injection Hhead as <- <-. simpl in Hbs.
      eexists (_ :: bs). split; [rewrite Hbs, <- app_assoc; reflexivity |].
      split; [simpl; now rewrite Hlen |].
      constructor; [| exact Hall]. simpl.
      destruct (std_find_range new_blocks addr_new_blocks id) as (k & Hk & -> & _).
      apply negb_true_iff, Z.eqb_neq. now apply Hapart.
Qed.

(** X12.  With the two local vectors of ids stored apart, every block of the
    file is marked as read in by [read_block_headers], whatever list of
    blocks the caller passes: the search result is an iterator of
    [new_blocks] and is compared with the end of [block_ids], which it never
    equals. *)
Theorem read_block_headers_marks_every_block :
  forall (r r' : BlockHeaders.Reader) blocks_to_load num_blocks,
    let n := Z.of_nat (Z.to_nat (BlockHeaders.numberElementBlocks_loading r)) in
    addr_new_blocks + BlockHeaders.sizeof_int * n <= addr_block_ids
    \/ addr_block_ids + BlockHeaders.sizeof_int * n < addr_new_blocks ->
    BlockHeaders.read_block_headers addr_block_ids addr_new_blocks r
      blocks_to_load num_blocks = Some (MB_SUCCESS, r') ->
    exists bs, BlockHeaders.blocksLoading r' = BlockHeaders.blocksLoading r ++ bs
               /\ length bs = Z.to_nat (BlockHeaders.numberElementBlocks_loading r)
               /\ Forall (fun b => reading_in b = true) bs.
Proof.
  intros r r' btl nb n Hapart. unfold BlockHeaders.read_block_headers.
  destruct (Nc.get_var _ _) as [v |]; [| discriminate].
  destruct (negb _); [discriminate |].
  destruct (Nc.get v _) as [block_ids |] eqn:Hget; [| discriminate].
  assert (Hids : length block_ids = Z.to_nat (BlockHeaders.numberElementBlocks_loading r)).
  { unfold Nc.get in Hget. destruct (Nat.leb_spec
      (Z.to_nat (BlockHeaders.numberElementBlocks_loading r))
      (length (Nc.var_values v))); [| discriminate].
    injection Hget as <-. rewrite length_take. lia. }
  match goal with
  | |- context [(_ <=? length ?l)%nat] =>
      destruct (Nat.leb_spec (Z.to_nat (BlockHeaders.numberElementBlocks_loading r))
                             (length l)) as [Hle |]; [| discriminate]
  end.
  intros [= Hloop].
  destruct block_ids as [| id0 block_ids].
  { simpl in Hloop. injection Hloop as <-. exists []. rewrite app_nil_r.
    repeat split; [exact Hids | constructor]. }
  apply block_loop_marks_all in Hloop as (bs & Hbs & Hlen & Hall).
  - exists bs. split; [exact Hbs |]. split; [lia | exact Hall].
  - intros k Hk. rewrite length_take in Hk. unfold BlockHeaders.vec_end.
    rewrite Hids. fold n. unfold BlockHeaders.sizeof_int in *.
    assert (0 < n) by (unfold n; rewrite <- Hids; simpl; lia).
    assert (Z.of_nat k <= n) by (unfold n; lia).
    lia.
Qed.

End every_block_read.

Lemma read_block_headers_marks_every_block_witness :
  exists bs,
    BlockHeaders.blocksLoading one_block_read
    = BlockHeaders.blocksLoading one_block_file ++ bs
    /\ length bs = Z.to_nat (BlockHeaders.numberElementBlocks_loading one_block_file)
    /\ Forall (fun b => reading_in b = true) bs.
Proof.
  apply (@read_block_headers_marks_every_block sample_enum 4096 8192
           one_block_file one_block_read (Some [10]) 1).
  - right. vm_compute. reflexivity.
  - reflexivity.
Defined.

(** ** [read_elements]: what it keeps and what it marks *)



(** The marks the conversion leaves, whichever way it returns. *)
Lemma convert_connectivity_length :
  forall vertexOffset k tmp_ptr touched conn,
    length (match Elements.convert_connectivity vertexOffset k tmp_ptr touched conn with
            | inl (_, touched', _) => touched'
            | inr (touched', _) => touched'
            end) = length touched.
Proof.
  intros off. induction k as [| i IH]; intros tmp touched conn; simpl; [reflexivity |].
  destruct (_ <=? _); [reflexivity |]. rewrite IH. apply length_insert.
Qed.

Section elements_layout.

Variable Mesh : Type.
Variable static_element_name_to_type : string -> Z.
Variable VerticesPerElement : Z -> Z.
Variable ExoIIElementMBEntity : Z -> Z.
Variable get_element_connect : Mesh -> Z -> Z -> Z -> Z -> Mesh * Z.
Variable create_block_set : Mesh -> Z -> Z -> Z -> Z -> Mesh * option Z.
Variable store_block : Mesh -> ReadBlockData -> Z -> list Z -> bool -> Mesh * bool.

Lemma same_header_refl : forall b, same_header b b.
Proof. intros b. repeat split. Qed.

(** The block and the marks a turn of the loop leaves for a block that is
    read in, whether the turn ends early or not. *)
Lemma read_block_header :
  forall r touched m seq b tag,
    reading_in b = true ->
    match Elements.read_block Mesh static_element_name_to_type VerticesPerElement
            ExoIIElementMBEntity get_element_connect create_block_set store_block
            r touched m seq b tag with
    | inl (_, b', touched', _) | inr (b', touched', _) =>
        same_header b b' /\ length touched' = length touched
    end.
Proof.
  intros r touched m seq b tag Hread. unfold Elements.read_block.
  assert (Hb : forall t e, same_header b {| blockId := blockId b; startExoId := startExoId b;
                                            startMBId := t; numElements := numElements b;
                                            reading_in := reading_in b; elemType := e |}).
  { intros t e. repeat split; simpl. intros Hno. congruence. }
  destruct (Nc.get_var _ _) as [v |]; [| split; [apply same_header_refl | reflexivity]].
  destruct (negb _); [split; [apply same_header_refl | reflexivity] |].
  destruct (Elements.get_att _ _ _) as [s |]; [| split; [apply same_header_refl | reflexivity]].
  destruct (get_element_connect _ _ _ _ _) as [m1 start].
  destruct (create_block_set _ _ _ _ _) as [m2 [h |]]; [| split; [apply Hb | reflexivity]].
  destruct (Nc.get v _) as [tmp |]; [| split; [apply Hb | reflexivity]].
  match goal with
  | |- context [Elements.convert_connectivity ?o ?k ?p ?t ?c] =>
      pose proof (convert_connectivity_length o k p t c) as Hlen;
      destruct (Elements.convert_connectivity o k p t c) as [[[rc t1] c1] | [t1 c1]]
  end.
  - split; [apply Hb | exact Hlen].
  - destruct (store_block _ _ _ _ _) as [m3 []]; (split; [apply Hb | exact Hlen]).
Qed.

Lemma block_loop_layout_kept :
  forall rest r done touched m seq tag rc r' m',
    Elements.block_loop Mesh static_element_name_to_type VerticesPerElement
      ExoIIElementMBEntity get_element_connect create_block_set store_block
      r done touched m seq rest tag = (rc, r', m') ->
    exists rest', Elements.blocksLoading r' = done ++ rest'
                  /\ Forall2 same_header rest rest'
                  /\ length (Elements.nodesInLoadedBlocks r') = length touched
                  /\ Elements.numberNodes_loading r' = Elements.numberNodes_loading r
                  /\ Elements.vertexOffset r' = Elements.vertexOffset r.
Proof.
  induction rest as [| b rest IH]; intros r done touched m seq tag rc r' m'; simpl.
  - intros [= _ <- _]. exists []. simpl. rewrite app_nil_r. repeat split. constructor.
  - destruct (reading_in b) eqn:Hread; simpl.
    + pose proof (read_block_header r touched m seq b tag Hread) as Hblock.
      destruct (Elements.read_block _ _ _ _ _ _ _ _ _ _ _ _ _)
        as [[[[rc1 b1] t1] m1] | [[b1 t1] m1]]; destruct Hblock as [Hhead Hlen].
      * intros [= _ <- _]. exists (b1 :: rest). simpl.
        split; [reflexivity |]. split; [| split; [exact Hlen | split; reflexivity]].
        constructor; [exact Hhead |].
        apply Forall2_same_length_lookup. split; [reflexivity |].
        intros i x y Hx Hy. assert (x = y) as -> by congruence. apply same_header_refl.
      * intros Hloop. apply IH in Hloop as (rest' & Hbs & Hall & Ht & Hn & Hv).
        exists (b1 :: rest'). rewrite Hbs, <- app_assoc. simpl.
        split; [reflexivity |]. split; [constructor; assumption |].
        split; [lia |]. split; assumption.
    + intros Hloop. apply IH in Hloop as (rest' & Hbs & Hall & Ht & Hn & Hv).
      exists (b :: rest'). rewrite Hbs, <- app_assoc. simpl.
      split; [reflexivity |]. split; [constructor; [apply same_header_refl | assumption] |].
      split; [lia |]. split; assumption.
Qed.

(** X13.  However [read_elements] returns, with success or early with an
    error, [blocksLoading] holds the same blocks in the same order as
    before, each with its id, its place in the numbering of the file's
    elements, its size and its mark unchanged, and a block that is not read
    in untouched (the block at which the pass returned early may have got
    its type and its start handle); the node marks are a vector of
    [numberNodes_loading + 1] entries. *)
Theorem read_elements_keeps_block_layout :
  forall (r : Elements.Reader) (m : Mesh) (file_id_tag : bool) rc r' m',
    Elements.read_elements Mesh static_element_name_to_type VerticesPerElement
      ExoIIElementMBEntity get_element_connect create_block_set store_block
      r m file_id_tag = (rc, r', m') ->
    Forall2 same_header (Elements.blocksLoading r) (Elements.blocksLoading r')
    /\ length (Elements.nodesInLoadedBlocks r')
       = Z.to_nat (Elements.numberNodes_loading r + 1)
    /\ Elements.numberNodes_loading r' = Elements.numberNodes_loading r
    /\ Elements.vertexOffset r' = Elements.vertexOffset r.
Proof.
  intros r m tag rc r' m' Hrun. unfold Elements.read_elements in Hrun.
  apply block_loop_layout_kept in Hrun as (rest' & Hbs & Hall & Ht & Hn & Hv).
  simpl in Hbs. rewrite Hbs. rewrite length_replicate in Ht. repeat split; assumption.
Qed.

End elements_layout.

(** An early return: the conversion fails at the entry 9, after the block
    got its type and its start handle and the entry 3 behind it was
    converted. *)
Lemma read_elements_early_return :
  read_sample_elements quad_with_bad_node = (MB_FAILURE, quad_with_bad_node_left, []).
Proof. reflexivity. Qed.

Lemma read_elements_keeps_block_layout_witness :
  Forall2 same_header (Elements.blocksLoading quad_with_bad_node)
          (Elements.blocksLoading quad_with_bad_node_left)
  /\ length (Elements.nodesInLoadedBlocks quad_with_bad_node_left)
     = Z.to_nat (Elements.numberNodes_loading quad_with_bad_node + 1)
  /\ Elements.numberNodes_loading quad_with_bad_node_left
     = Elements.numberNodes_loading quad_with_bad_node
  /\ Elements.vertexOffset quad_with_bad_node_left
     = Elements.vertexOffset quad_with_bad_node.
Proof.
  apply (read_elements_keeps_block_layout (list (Z * list Z))
           (fun _ => 16) (fun _ => 4) (fun _ => 3)
           (fun m _ _ _ _ => (m, 1))
           (fun m _ _ _ _ => (m, Some 500))
           (fun m _ ms_handle conn _ => (m ++ [(ms_handle, conn)], true))
           quad_with_bad_node [] false MB_FAILURE quad_with_bad_node_left []).
  reflexivity.
Defined.

(** *** The marks *)

Lemma convert_connectivity_checked :
  forall vertexOffset k tmp_ptr touched conn touched' conn',
    Elements.convert_connectivity vertexOffset k tmp_ptr touched conn
    = inr (touched', conn') ->
    forall i x, (i < k)%nat -> tmp_ptr !! i = Some x ->
                (Z.of_nat (length touched) <=? Elements.to_unsigned x) = false.
Proof.
  intros off. induction k as [| i IH]; intros tmp touched conn touched' conn' Hrun j x Hj Hx;
    [lia |].
  simpl in Hrun.
  destruct (Z.leb_spec (Z.of_nat (length touched))
                       (Elements.to_unsigned (default 0 (tmp !! i)))) as [| Hpass];
    [discriminate |].
  destruct (decide (j = i)) as [-> | Hne].
  - rewrite Hx in Hpass. simpl in Hpass. apply Z.leb_gt. exact Hpass.
  - assert (Hlt : (j < i)%nat) by lia.
    specialize (IH _ _ _ _ _ Hrun j x Hlt Hx).
    now rewrite length_insert in IH.
Qed.

Lemma convert_connectivity_marks_only :
  forall vertexOffset k tmp_ptr touched conn touched' conn' j,
    (k <= length tmp_ptr)%nat ->
    Elements.convert_connectivity vertexOffset k tmp_ptr touched conn
    = inr (touched', conn') ->
    touched' !! j = Some true ->
    touched !! j = Some true
    \/ exists i x, (i < k)%nat /\ tmp_ptr !! i = Some x /\ j = Z.to_nat x.
Proof.
  intros off. induction k as [| i IH]; intros tmp touched conn touched' conn' j Hk Hrun Hj.
  - simpl in Hrun. injection Hrun as <- _. now left.
  - simpl in Hrun. destruct (_ <=? _); [discriminate |].
    assert (is_Some (tmp !! i)) as [x Hx] by (apply lookup_lt_is_Some_2; lia).
    rewrite Hx in Hrun. simpl in Hrun.
    destruct (IH tmp _ _ _ _ j ltac:(lia) Hrun Hj) as [Hold | (i' & x' & Hi' & Hx' & ->)].
    + destruct (decide (j = Z.to_nat x)) as [-> | Hne].
      * right. exists i, x. split; [lia | split; [exact Hx | reflexivity]].
      * left. rewrite list_lookup_insert_ne in Hold by congruence. exact Hold.
    + right. exists i', x'. split; [lia | split; [exact Hx' | reflexivity]].
Qed.

(** X14.  When the conversion of a block's connectivity succeeds (the entries
    being [int]s), each entry has become the handle [entry + vertexOffset], in
    place, and the marks that are set afterwards are those that were set
    before and those of the nodes the connectivity names, and no others. *)
Theorem convert_connectivity_marks_exactly :
  forall vertexOffset (tmp_ptr : list Z) (touched : list bool) (conn : list Z)
         touched' conn',
    Forall (fun x => - 2 ^ 31 <= x < 2 ^ 31) tmp_ptr ->
    Z.of_nat (length touched) <= 2 ^ 31 ->
    length conn = length tmp_ptr ->
    Elements.convert_connectivity vertexOffset (length tmp_ptr) tmp_ptr touched conn
    = inr (touched', conn') ->
    conn' = map (fun x => x + vertexOffset) tmp_ptr
    /\ length touched' = length touched
    /\ Forall (fun x => 0 <= x < Z.of_nat (length touched)) tmp_ptr
    /\ (forall j, touched' !! j = Some true
                  <-> touched !! j = Some true \/ exists x, x ∈ tmp_ptr /\ j = Z.to_nat x).
Proof.
  intros off tmp touched conn touched' conn' Hint Hsize Hconn Hrun.
  pose proof (convert_connectivity_checked _ _ _ _ _ _ _ Hrun) as Hchecked.
  assert (Hrange : forall i x, tmp !! i = Some x -> 0 <= x < Z.of_nat (length touched)).
  { intros i x Hx. rewrite Forall_lookup in Hint.
    apply (bound_check_passes_iff (length touched) x (Hint i x Hx) Hsize).
    apply (Hchecked i x); [eapply lookup_lt_Some; exact Hx | exact Hx]. }
  destruct (convert_connectivity_succeeds off tmp (length tmp) touched conn)
    as (t' & c' & Hrun' & Ht' & Hc' & Hdone & _ & Hmono); [lia | lia | |].
  { intros i x Hi Hx. split; [now apply (Hchecked i x) | now apply (Hrange i x)]. }
  rewrite Hrun in Hrun'. injection Hrun' as <- <-.
  split; [| split; [exact Ht' | split]].
  - apply list_eq. intros i. rewrite list_lookup_fmap.
    destruct (tmp !! i) as [x |] eqn:Hx; simpl.
    + apply (Hdone i x); [eapply lookup_lt_Some; eassumption | exact Hx].
    + apply lookup_ge_None. rewrite Hc', Hconn. now apply lookup_ge_None.
  - apply Forall_lookup. exact Hrange.
  - intros j. split.
    + intros Hj.
      destruct (convert_connectivity_marks_only _ _ _ _ _ _ _ j (Nat.le_refl _) Hrun Hj)
        as [Hold | (i & x & _ & Hx & ->)]; [now left |].
      right. exists x. split; [| reflexivity]. apply list_elem_of_lookup. eauto.
    + intros [Hold | (x & Hx & ->)]; [now apply Hmono |].
      apply list_elem_of_lookup in Hx as [i Hx].
      apply (Hdone i x); [eapply lookup_lt_Some; eassumption | exact Hx].
Qed.

Lemma convert_connectivity_marks_exactly_witness :
  [101; 102; 103; 104] = map (fun x => x + 100) [1; 2; 3; 4]
  /\ length [false; true; true; true; true] = length (replicate 5 false)
  /\ Forall (fun x => 0 <= x < Z.of_nat (length (replicate 5 false))) [1; 2; 3; 4]
  /\ (forall j, [false; true; true; true; true] !! j = Some true
                <-> replicate 5 false !! j = Some true
                    \/ exists x, x ∈ [1; 2; 3; 4] /\ j = Z.to_nat x).
Proof.
  apply (convert_connectivity_marks_exactly 100 [1; 2; 3; 4] (replicate 5 false)
           [0; 0; 0; 0] [false; true; true; true; true] [101; 102; 103; 104]).
  - repeat constructor; lia.
  - simpl. lia.
  - reflexivity.
  - reflexivity.
Defined.

(** ** Side sets: sides made once, sides of elements no block holds, and the
    factors of a side *)

Section sides_more.

Context `{ExoIIEnum}.

Variable D : Type.

Lemma matches_query_self : forall v0 q', matches_query (v0 :: q') (v0 :: q').
Proof.
  intros v0 q'. unfold matches_query. split; [reflexivity |]. simpl.
  split; [left |]. left. unfold aligned. simpl. now rewrite Z.eqb_refl.
Qed.

Lemma match_loop_app : forall (db : Db.Moab D) q adj more,
  SideSets.match_loop D db q (adj ++ more)
  = match SideSets.match_loop D db q adj with
    | Some e => Some e
    | None => SideSets.match_loop D db q more
    end.
Proof.
  intros db q. induction adj as [| e adj IH]; intros more; simpl; [reflexivity |].
  destruct (Db.get_connectivity e db) as [rc | c]; [apply IH |].
  destruct (SideSets.candidate_matches q c); [reflexivity | apply IH].
Qed.

Lemma match_loop_ext : forall (db db' : Db.Moab D) q adj,
  (forall e, e ∈ adj -> Db.elements db' !! e = Db.elements db !! e) ->
  SideSets.match_loop D db' q adj = SideSets.match_loop D db q adj.
Proof.
  intros db db' q. induction adj as [| e adj IH]; intros Hsame; simpl; [reflexivity |].
  unfold Db.get_connectivity. rewrite (Hsame e) by left.
  rewrite IH by (intros e' He'; apply Hsame; now right). reflexivity.
Qed.

(** X15.  Asked a second time for the same side, [create_sideset_element]
    hands back the entity it gave the first time and creates nothing: a side
    that several side sets name exists once. *)
Theorem create_sideset_element_twice :
  forall (db db1 : Db.Moab D) (connectivity : list Z) (type : Db.EntityType) (h : Z),
    well_formed db ->
    SideSets.create_sideset_element D connectivity type db = Some (db1, inr h) ->
    SideSets.create_sideset_element D connectivity type db1 = Some (db1, inr h).
Proof.
  intros db db1 q type h [_ Hbelow] Hfirst.
  destruct q as [| v0 q']; [discriminate |].
  unfold SideSets.create_sideset_element in *.
  destruct (SideSets.match_loop D db (v0 :: q')
              (Db.get_adjacencies v0 (Db.Dimension type) db)) as [e |] eqn:Hloop.
  - injection Hfirst as <- <-. rewrite Hloop. reflexivity.
  - unfold Db.create_element in Hfirst. injection Hfirst as <- <-.
    set (hn := Db.next_handle db) in *.
    assert (Hold : forall e, e ∈ Db.entities db -> e <> hn).
    { intros e He. rewrite Forall_forall in Hbelow. specialize (Hbelow e He).
      unfold hn. lia. }
    assert (Hadj : Db.get_adjacencies v0 (Db.Dimension type)
                     (Db.with_elements D db (Db.entities db ++ [hn])
                        (<[hn := (type, v0 :: q')]> (Db.elements db)) (hn + 1))
                   = Db.get_adjacencies v0 (Db.Dimension type) db ++ [hn]).
    { unfold Db.get_adjacencies. simpl. rewrite List.filter_app. f_equal.
      - apply List.filter_ext_in. intros e He. apply list_elem_of_In in He.
        rewrite lookup_insert_ne by (apply not_eq_sym, Hold; exact He). reflexivity.
      - simpl. rewrite lookup_insert_eq.
        rewrite bool_decide_eq_true_2 by reflexivity.
        rewrite bool_decide_eq_true_2 by left. reflexivity. }
    rewrite Hadj, match_loop_app.
    rewrite match_loop_ext with (db := db).
    + rewrite Hloop. simpl. unfold Db.get_connectivity. simpl.
      rewrite lookup_insert_eq.
      assert (Hself : SideSets.candidate_matches (v0 :: q') (v0 :: q') = true)
        by (apply candidate_matches_spec, matches_query_self).
      rewrite Hself. reflexivity.
    + intros e He. simpl. apply lookup_insert_ne, not_eq_sym, Hold.
      unfold Db.get_adjacencies in He. apply list_elem_of_In, List.filter_In in He.
      apply list_elem_of_In. tauto.
Qed.

Variable ExoIIElementMBEntity : Z -> Db.EntityType.
Variable SubEntityNodeIndices : Db.EntityType -> Z -> Z -> Z -> Db.EntityType * list Z.

Lemma find_side_element_type_no_owner :
  forall blocks exodus_id df_index side_id,
    Forall (fun b => ~ owns b exodus_id) blocks ->
    SideSets.find_side_element_type blocks exodus_id df_index side_id
    = (MB_FAILURE, EXOII_MAX_ELEM_TYPE, None, df_index).
Proof.
  intros blocks id df side Hnone.
  rewrite <- (app_nil_r blocks).
  rewrite find_side_element_type_passes_others by exact Hnone. reflexivity.
Qed.

(** X16.  Sides of elements that no block of the file holds are passed over
    without a word: the loop of [create_ss_elements] returns no error for
    them, adds nothing, leaves the cursor into the distribution factors where
    it was and the database as it is. *)
Theorem sides_of_unknown_elements_are_dropped :
  forall (r : SideSets.Reader D) (num_dist_factors : Z)
         (temp_dist_factor_vector : list D) (element_ids side_list : list Z)
         (s : SideSets.Sides D) (db : Db.Moab D),
    Forall (fun exodus_id =>
              Forall (fun b => ~ owns b exodus_id) (SideSets.blocksLoading r))
           element_ids ->
    SideSets.side_loop D ExoIIElementMBEntity SubEntityNodeIndices r num_dist_factors
      temp_dist_factor_vector s element_ids side_list db
    = Some (db, inr s).
Proof.
  intros r ndf tdf element_ids. induction element_ids as [| id ids IH];
    intros side_list s db Hall; [reflexivity |].
  apply Forall_cons in Hall as [Hid Hall].
  destruct side_list as [| side sides]; [reflexivity |].
  cbn [SideSets.side_loop]. unfold Exec.bind.
  assert (Hstep : SideSets.side_step D ExoIIElementMBEntity SubEntityNodeIndices r ndf tdf
                    s id side db = Some (db, inr s)).
  { unfold SideSets.side_step.
    rewrite find_side_element_type_no_owner by exact Hid.
    destruct s; reflexivity. }
  rewrite Hstep. now apply IH.
Qed.

(** X17.  The distribution factors of a side are the next [n] entries of the
    array read from the file, from the cursor on, and the cursor moves behind
    them; when fewer than [n] entries are left, or the cursor is negative, the
    code reads outside the array. *)
Theorem push_factors_takes_next :
  forall (temp_dist_factor_vector : list D) (n : nat) (s : SideSets.Sides D),
    SideSets.push_factors D temp_dist_factor_vector n s
    = if (n =? 0)%nat
         || ((0 <=? SideSets.df_index s)
             && (SideSets.df_index s + Z.of_nat n
                 <=? Z.of_nat (length temp_dist_factor_vector)))
      then Some {| SideSets.entities_to_add := SideSets.entities_to_add s;
                   SideSets.reverse_entities := SideSets.reverse_entities s;
                   SideSets.dist_factor_vector :=
                     SideSets.dist_factor_vector s
                     ++ take n (drop (Z.to_nat (SideSets.df_index s))
                                     temp_dist_factor_vector);
                   SideSets.df_index := SideSets.df_index s + Z.of_nat n |}
      else None.
Proof.
  intros tdf. induction n as [| n IH]; intros s.
  - simpl. rewrite take_0, app_nil_r, Z.add_0_r. destruct s; reflexivity.
  - cbn [SideSets.push_factors Nat.eqb orb].
    destruct (Z.ltb_spec (SideSets.df_index s) 0) as [Hneg | Hpos].
    { destruct (Z.leb_spec 0 (SideSets.df_index s)); [lia | reflexivity]. }
    destruct (Z.leb_spec 0 (SideSets.df_index s)) as [_ |]; [| lia]. cbn [andb].
    destruct (tdf !! Z.to_nat (SideSets.df_index s)) as [d |] eqn:Hd.
    + pose proof (lookup_lt_Some _ _ _ Hd) as Hlt.
      rewrite IH. cbn [SideSets.df_index SideSets.dist_factor_vector
                       SideSets.entities_to_add SideSets.reverse_entities].
      destruct (Z.leb_spec 0 (SideSets.df_index s + 1)) as [_ |]; [| lia]. cbn [andb].
      replace (SideSets.df_index s + 1 + Z.of_nat n)
        with (SideSets.df_index s + Z.of_nat (S n)) by lia.
      destruct (Z.leb_spec (SideSets.df_index s + Z.of_nat (S n)) (Z.of_nat (length tdf)))
        as [Hfit | Hover].
      * rewrite orb_true_r. do 2 f_equal.
        rewrite <- app_assoc. f_equal.
        rewrite (drop_S _ _ _ Hd). simpl. do 2 f_equal. f_equal. lia.
      * destruct n as [| n]; [lia |]. reflexivity.
    + apply lookup_ge_None in Hd.
      destruct (Z.leb_spec (SideSets.df_index s + Z.of_nat (S n)) (Z.of_nat (length tdf)));
        [lia | reflexivity].
Qed.

End sides_more.

Lemma create_sideset_element_twice_witness :
  SideSets.create_sideset_element Z [101; 102] Db.MBEDGE db_with_edge
  = Some (db_with_edge, inr 900).
Proof.
  apply (create_sideset_element_twice Z db_with_shell db_with_edge [101; 102] Db.MBEDGE 900).
  - split; [simpl; lia | repeat constructor; simpl; lia].
  - vm_compute. reflexivity.
Defined.

Lemma sides_of_unknown_elements_are_dropped_witness :
  @SideSets.side_loop sample_enum Z sample_entity_type sample_sub_entity
    quads_then_skipped_hexes 0 [] no_sides [7; 9] [1; 2] db_with_shell
  = Some (db_with_shell, inr no_sides).
Proof.
  apply (@sides_of_unknown_elements_are_dropped sample_enum Z sample_entity_type
           sample_sub_entity quads_then_skipped_hexes 0 [] [7; 9] [1; 2] no_sides
           db_with_shell).
  repeat constructor; unfold owns; simpl; lia.
Defined.

(** ** [read_nodesets]: what it does to the sets that exist *)



Section nodesets_extend.

Variable D : Type.
Variable dzero : D.
Variable CREATE_HANDLE : Db.EntityType -> Z -> Z.
Variable r : NodeSets.Reader D.

Lemma extends_sets_refl : forall db : Db.Moab D, extends_sets db db.
Proof.
  intros db Hbelow. split; [exact Hbelow |]. intros h s Hs. exists s.
  split; [exact Hs |]. split; reflexivity.
Qed.

Lemma extends_sets_trans : forall a b c : Db.Moab D,
  extends_sets a b -> extends_sets b c -> extends_sets a c.
Proof.
  intros a b c Hab Hbc Ha. destruct (Hab Ha) as [Hb Hext1].
  destruct (Hbc Hb) as [Hc Hext2]. split; [exact Hc |].
  intros h s Hs. destruct (Hext1 h s Hs) as (s1 & Hs1 & Ho1 & Hp1).
  destruct (Hext2 h s1 Hs1) as (s2 & Hs2 & Ho2 & Hp2).
  exists s2. split; [exact Hs2 |]. split; [congruence | etransitivity; eassumption].
Qed.

Lemma extends_sets_same : forall db db' : Db.Moab D,
  Db.meshsets db' = Db.meshsets db -> Db.next_handle db' = Db.next_handle db ->
  extends_sets db db'.
Proof.
  intros db db' Hsets Hnext Hbelow. split.
  - intros h Hh. rewrite Hsets in Hh. rewrite Hnext. now apply Hbelow.
  - intros h s Hs. exists s. rewrite Hsets. split; [exact Hs |]. split; reflexivity.
Qed.

Lemma add_to_set_prefix : forall s ents,
  Db.contents s `prefix_of` Db.contents (Db.add_to_set s ents).
Proof.
  intros s ents. unfold Db.add_to_set. simpl. destruct (Db.ordered s).
  - now apply prefix_app_r.
  - generalize (Db.contents s) as acc. induction ents as [| e ents IH]; intros acc; simpl;
      [reflexivity |].
    destruct (bool_decide (e ∈ acc)); [apply IH |].
    etransitivity; [| apply IH]. now apply prefix_app_r.
Qed.

Lemma create_meshset_extends : forall is_ordered (db : Db.Moab D),
  extends_sets db (fst (Db.create_meshset is_ordered db)).
Proof.
  intros is_ordered db Hbelow. unfold Db.create_meshset. simpl. split.
  - intros h Hh. simpl in *. destruct (decide (h = Db.next_handle db)) as [-> | Hne]; [lia |].
    rewrite lookup_insert_ne in Hh by congruence. specialize (Hbelow h Hh). lia.
  - intros h s Hs. exists s. simpl.
    rewrite lookup_insert_ne; [split; [exact Hs | split; reflexivity] |].
    intros <-. specialize (Hbelow _ (mk_is_Some _ _ Hs)). lia.
Qed.

Lemma add_entities_extends : forall set ents (db : Db.Moab D),
  extends_sets db (snd (Db.add_entities set ents db)).
Proof.
  intros set ents db Hbelow. unfold Db.add_entities.
  destruct (Db.meshsets db !! set) as [s0 |] eqn:Hset; simpl;
    [| now apply extends_sets_refl].
  split.
  - intros h Hh. simpl in *. destruct (decide (h = set)) as [-> | Hne].
    + apply Hbelow. eauto.
    + rewrite lookup_insert_ne in Hh by congruence. now apply Hbelow.
  - intros h s Hs. simpl. destruct (decide (h = set)) as [-> | Hne].
    + rewrite lookup_insert_eq. eexists. split; [reflexivity |].
      assert (s = s0) as -> by congruence.
      split; [reflexivity | apply add_to_set_prefix].
    + rewrite lookup_insert_ne by congruence. exists s.
      split; [exact Hs | split; reflexivity].
Qed.

Lemma commit_nodeset_extends : forall id ns_handle nodes dist_factor_vector,
  preserves extends_sets (NodeSets.commit_nodeset D id ns_handle nodes dist_factor_vector).
Proof.
  intros id ns_handle nodes dfv.
  pose proof extends_sets_refl as Hrefl. pose proof extends_sets_trans as Htrans.
  assert (Htag : forall tag ent v,
             preserves extends_sets (NodeSets.call D (Db.tag_set_data tag ent v))).
  { intros. apply preserves_call. intros db. apply extends_sets_same.
    - apply tag_set_data_same_sets.
    - unfold Db.tag_set_data. now destruct (bool_decide _). }
  assert (Hdf : forall ent v,
             preserves extends_sets (NodeSets.call D (Db.set_dist_factors ent v))).
  { intros. apply preserves_call. intros db. apply extends_sets_same.
    - apply set_dist_factors_same_sets.
    - unfold Db.set_dist_factors. now destruct (bool_decide _). }
  assert (Hfail : forall rc, preserves extends_sets (NodeSets.or_fail D rc))
    by (intros; now apply preserves_or_fail).
  assert (Hq : forall A (f : Db.Moab D -> A), preserves extends_sets (NodeSets.query D f))
    by (intros; now apply preserves_query).
  unfold NodeSets.commit_nodeset. destruct nodes as [| n0 nodes']; [now apply preserves_ret |].
  apply preserves_bind; [exact Htrans | |].
  - destruct (ns_handle =? 0).
    + apply preserves_bind; [exact Htrans | |].
      * intros s s' res. pose proof (create_meshset_extends Db.MESHSET_ORDERED s) as Hc.
        destruct (Db.create_meshset _ s) as [db1 h]. intros [= <- _]. exact Hc.
      * intros h. repeat preserves_step.
    + repeat preserves_step.
  - intros h. apply preserves_bind; [exact Htrans | | intros rc; apply Hfail].
    apply preserves_call. intros db. apply add_entities_extends.
Qed.

Lemma read_nodeset_extends : forall i id,
  preserves extends_sets (NodeSets.read_nodeset D dzero CREATE_HANDLE r i id).
Proof.
  intros i id.
  pose proof extends_sets_refl as Hrefl. pose proof extends_sets_trans as Htrans.
  pose proof (fun A f => preserves_query D extends_sets A f Hrefl) as Hq.
  pose proof (fun d v k => preserves_get_dimb D extends_sets d v k Hrefl) as Hd.
  unfold NodeSets.read_nodeset.
  apply preserves_bind; [exact Htrans | apply Hd | intros n].
  apply preserves_bind; [exact Htrans | apply Hd | intros ndf].
  apply preserves_bind; [exact Htrans | | intros temp].
  { unfold NodeSets.read_dist_factors. repeat preserves_step. }
  destruct (Nc.get_var _ _) as [temp_var |]; [| now apply preserves_exit].
  destruct (negb _); [now apply preserves_exit |].
  destruct (Nc.get temp_var n) as [node_handles |]; [| now apply preserves_exit].
  apply preserves_bind; [exact Htrans | apply Hq | intros child].
  apply preserves_bind; [exact Htrans | apply Hq | intros ns_handle].
  apply preserves_bind; [exact Htrans | | intros present].
  { destruct (ns_handle =? 0); [now apply preserves_ret |]. repeat preserves_step. }
  destruct (NodeSets.node_loop _ _ _ _ _ _ _ _ _ _ _) as [[nodes dfv] |];
    [apply commit_nodeset_extends | apply preserves_undefined].
Qed.

Lemma nodeset_loop_extends : forall ids i,
  preserves extends_sets (NodeSets.nodeset_loop D dzero CREATE_HANDLE r i ids).
Proof.
  induction ids as [| id ids IH]; intros i; simpl.
  - apply preserves_ret, extends_sets_refl.
  - apply preserves_bind;
      [apply extends_sets_trans | apply read_nodeset_extends | intros _; apply IH].
Qed.

(** X18.  Whatever [read_nodesets] returns, every entity set that was in the
    database is still there, of the same kind, with the members it had still
    in front and in their order: the pass appends to sets and makes new ones,
    it removes and reorders nothing. *)
Theorem read_nodesets_extends_sets :
  forall (db db' : Db.Moab D) rc,
    sets_below db ->
    Exec.run (NodeSets.read_nodesets D dzero CREATE_HANDLE r) db = Some (rc, db') ->
    sets_extended db db'.
Proof.
  intros db db' rc Hbelow Hrun.
  assert (Hpres : preserves extends_sets (NodeSets.read_nodesets D dzero CREATE_HANDLE r)).
  { pose proof extends_sets_refl as Hrefl. unfold NodeSets.read_nodesets.
    destruct (_ =? 0); [now apply preserves_exit |].
    destruct (Nc.get_var _ _) as [v |]; [| now apply preserves_exit].
    destruct (negb _); [now apply preserves_exit |].
    destruct (Nc.get v _) as [ids |]; [| now apply preserves_exit].
    apply nodeset_loop_extends. }
  unfold Exec.run in Hrun.
  destruct (NodeSets.read_nodesets D dzero CREATE_HANDLE r db) as [[s' res] |] eqn:Hm;
    [| discriminate].
  assert (s' = db') as -> by (destruct res; congruence).
  destruct (Hpres _ _ _ Hm Hbelow) as [_ Hext]. exact Hext.
Qed.

End nodesets_extend.

Lemma read_nodesets_extends_sets_witness :
  sets_extended db_with_nodeset db_with_longer_nodeset.
Proof.
  apply (read_nodesets_extends_sets Z 0 (fun _ id => id) nodeset_with_new_node
           db_with_nodeset db_with_longer_nodeset MB_SUCCESS).
  - intros h [s Hs]. simpl in Hs. apply lookup_singleton_Some in Hs as [<- _]. simpl. lia.
  - vm_compute. reflexivity.
Defined.

(** ** [read_nodesets]: a node and its distribution factor *)



Section node_and_factor.

Variable D : Type.
Variable dzero : D.
Variable CREATE_HANDLE : Db.EntityType -> Z -> Z.
Variable r : NodeSets.Reader D.

(** X19.  In a node set with distribution factors, the loop over its nodes
    keeps each node together with the factor listed at the node's place in
    the file: the nodes it adds and the factors it adds are the two sides of
    the same pairs, those whose node is marked and, for a set that exists, is
    not in the set yet; a node that drops out takes its factor with it. *)
Theorem node_loop_keeps_pairs :
  forall (ns_handle : Z) (nodes_of_nodeset : list Z) (number_dist_factors_in_set : Z)
         (node_handles : list Z) (temp_dist_factor_vector : list D)
         (nodes0 : list Z) (df0 : list D) nodes dist_factor_vector,
    number_dist_factors_in_set <> 0 ->
    (length node_handles <= length temp_dist_factor_vector)%nat ->
    NodeSets.node_loop D dzero CREATE_HANDLE r ns_handle nodes_of_nodeset
      number_dist_factors_in_set node_handles temp_dist_factor_vector nodes0 df0
    = Some (nodes, dist_factor_vector) ->
    let kept :=
      List.filter (fun p => node_is_added CREATE_HANDLE r ns_handle nodes_of_nodeset (fst p))
                  (zip node_handles temp_dist_factor_vector) in
    nodes = nodes0 ++ map (fun p => NodeSets.node_id_of D CREATE_HANDLE r (fst p)) kept
    /\ dist_factor_vector = df0 ++ map snd kept.
Proof.
  intros ns_handle present ndf nhs. induction nhs as [| nh nhs IH];
    intros tdf nodes0 df0 nodes dfv Hndf Hlen.
  - simpl. intros [= <- <-]. now rewrite !app_nil_r.
  - destruct tdf as [| d tdf]; [simpl in Hlen; lia |]. simpl in Hlen.
    assert (Hlen' : (length nhs <= length tdf)%nat) by lia.
    cbn [NodeSets.node_loop zip zip_with List.filter fst head tail default].
    set (added := node_is_added CREATE_HANDLE r ns_handle present nh).
    assert (Hadded : added
                     = match NodeSets.nodesInLoadedBlocks r !! Z.to_nat nh with
                       | Some true =>
                           (ns_handle =? 0)
                           || negb (bool_decide
                                      (NodeSets.node_id_of D CREATE_HANDLE r nh ∈ present))
                       | _ => false
                       end) by reflexivity.
    clearbody added. subst added.
    destruct (Z.ltb_spec nh 0) as [| Hnh]; [discriminate |].
    destruct (NodeSets.nodesInLoadedBlocks r !! Z.to_nat nh) as [[|] |] eqn:Hmark;
      [| exact (IH tdf nodes0 df0 nodes dfv Hndf Hlen') | discriminate].
    destruct ((ns_handle =? 0) || negb (bool_decide (_ ∈ present)));
      [| exact (IH tdf nodes0 df0 nodes dfv Hndf Hlen')].
    destruct (Z.eqb_spec ndf 0) as [| _]; [contradiction |].
    intros Hloop. apply (IH tdf _ _ nodes dfv Hndf Hlen') in Hloop as [-> ->].
    cbn [map snd fst]. rewrite <- !app_assoc. split; reflexivity.
Qed.

End node_and_factor.

Lemma node_loop_keeps_pairs_witness :
  let kept :=
    List.filter (fun p => node_is_added (fun _ id => id) nodeset_with_new_node 1
                                        [101; 103] (fst p))
                (zip [1; 3; 4] [11; 31; 40]) in
  [104] = [] ++ map (fun p => NodeSets.node_id_of Z (fun _ id => id)
                                nodeset_with_new_node (fst p)) kept
  /\ [40] = [] ++ map snd kept.
Proof.
  apply (node_loop_keeps_pairs Z 0 (fun _ id => id) nodeset_with_new_node 1 [101; 103] 3
           [1; 3; 4] [11; 31; 40] [] [] [104] [40]).
  - lia.
  - simpl. lia.
  - vm_compute. reflexivity.
Defined.

(** ** Dimensions of a file whose names are unique *)







(** ** [read_tag_values] and the blocks [read_block_headers] lays out *)

Section tag_values_and_blocks.

Context `{ExoIIEnum}.

Variables (NC_MAX_DIMS NC_MAX_VARS : Z).
Variables (MATERIAL_SET_TAG_NAME DIRICHLET_SET_TAG_NAME NEUMANN_SET_TAG_NAME : string).
Variables (addr_block_ids addr_new_blocks : Z).

(** X21.  The ids [read_tag_values] reports for the material-set tag are the
    ids of the blocks of the file: as many as the file has blocks, and, when
    [read_block_headers] reads the same file, the ids of the headers it
    appends, in their order. *)
Theorem read_tag_values_lists_the_blocks :
  forall (f : Header.NcFile) (id_array ids : list Z) (c c' : Header.Counts)
         (r r' : BlockHeaders.Reader) blocks_to_load num_blocks,
    Header.read_tag_values NC_MAX_DIMS NC_MAX_VARS MATERIAL_SET_TAG_NAME
      DIRICHLET_SET_TAG_NAME NEUMANN_SET_TAG_NAME f MATERIAL_SET_TAG_NAME false
      id_array c = Some (MB_SUCCESS, c', ids) ->
    Header.numberElementBlocks_loading c' <> 0 ->
    BlockHeaders.int_vars r = Header.int_vars f ->
    BlockHeaders.numberElementBlocks_loading r = Header.numberElementBlocks_loading c' ->
    BlockHeaders.read_block_headers addr_block_ids addr_new_blocks r
      blocks_to_load num_blocks = Some (MB_SUCCESS, r') ->
    length ids = Z.to_nat (Header.numberElementBlocks_loading c')
    /\ exists bs, BlockHeaders.blocksLoading r' = BlockHeaders.blocksLoading r ++ bs
                  /\ map blockId bs = ids.
Proof.
  intros f id_array ids c c' r r' btl nb Htags Hcount Hvars Hn Hheaders.
  unfold Header.read_tag_values in Htags. simpl in Htags.
  destruct (negb (Header.is_valid f)); [discriminate |].
  destruct (Exec.run _ c) as [[rval c1] |]; [| discriminate].
  destruct (decide (rval = MB_FAILURE)); [congruence |].
  unfold Header.count_and_prop in Htags. rewrite String.eqb_refl in Htags.
  destruct (Z.eqb_spec (Header.numberElementBlocks_loading c1) 0) as [Hzero | _].
  { injection Htags as <- <-. contradiction. }
  destruct (Nc.get_var (Header.int_vars f) "eb_prop1") as [nc_var |] eqn:Hvar;
    [| discriminate].
  destruct (negb (Nc.var_is_valid nc_var)); [discriminate |].
  destruct (_ <? 0); [discriminate |].
  destruct (Nc.get nc_var _) as [got |] eqn:Hget; [| discriminate].
  injection Htags as <- <-.
  unfold BlockHeaders.read_block_headers in Hheaders.
  rewrite Hvars, Hvar, Hn, Hget in Hheaders.
  destruct (negb (Nc.var_is_valid nc_var)); [discriminate |].
  destruct (_ <=? _)%nat; [| discriminate].
  injection Hheaders as Hloop.
  apply block_loop_layout in Hloop as (_ & bs & Hbs & Hids & _).
  split.
  - unfold Nc.get in Hget. destruct (Nat.leb_spec
      (Z.to_nat (Header.numberElementBlocks_loading c1))
      (length (Nc.var_values nc_var))); [| discriminate].
    injection Hget as <-. rewrite length_take. lia.
  - exists bs. split; assumption.
Qed.

End tag_values_and_blocks.

Lemma read_tag_values_lists_the_blocks_witness :
  length [20] = Z.to_nat (Header.numberElementBlocks_loading one_block_counts)
  /\ exists bs, BlockHeaders.blocksLoading one_block_read
                = BlockHeaders.blocksLoading one_block_file ++ bs
                /\ map blockId bs = [20].
Proof.
  apply (@read_tag_values_lists_the_blocks sample_enum 1024 8192
           "MATERIAL_SET" "DIRICHLET_SET" "NEUMANN_SET" 4096 8192
           one_block_header [] [20] no_counts one_block_counts
           one_block_file one_block_read None 0).
  - vm_compute. reflexivity.
  - discriminate.
  - reflexivity.
  - reflexivity.
  - reflexivity.
Defined.

(** ** [load_file]: what the passes can make it return *)



Section passes_facts.

Variable S : Type.
Variable tdata : ErrorCode * string.
Variable update : Z -> option (list Z) -> Z -> S -> option (ErrorCode * S).
Variable reset : S -> S.
Variable file_is_valid : bool.
Variables (read_exodus_header get_init_range : S -> option (ErrorCode * S)).
Variable read_nodes : S -> option (ErrorCode * S).
Variable read_block_headers : option (list Z) -> Z -> S -> option (ErrorCode * S).
Variables (read_elements read_global_ids read_nodesets read_sidesets
           : S -> option (ErrorCode * S)).
Variable read_qa_records : Z -> S -> option (ErrorCode * S).

Lemma pass_code : forall (p : S -> option (ErrorCode * S)) s s' res,
  Passes.pass S p s = Some (s', res) -> res = inl MB_FAILURE \/ res = inr tt.
Proof.
  intros p s s' res. unfold Passes.pass. destruct (p s) as [[status s1] |]; [| discriminate].
  destruct (decide (status = MB_FAILURE)) as [-> | _]; intros [= _ <-]; auto.
Qed.

Lemma bind_pass_code : forall (p : S -> option (ErrorCode * S)) (k : Exec.M S unit),
  (forall s s' res, k s = Some (s', res) -> res = inl MB_FAILURE \/ res = inr tt) ->
  forall s s' res, Exec.bind (Passes.pass S p) (fun _ => k) s = Some (s', res) ->
                   res = inl MB_FAILURE \/ res = inr tt.
Proof.
  intros p k Hk s s' res. unfold Exec.bind.
  destruct (Passes.pass S p s) as [[s1 [rc | []]] |] eqn:Hp; [| | discriminate].
  - intros [= _ <-]. apply pass_code in Hp as [Hp | Hp]; [now left | discriminate].
  - apply Hk.
Qed.

(** X22.  Unless it hands over to [update], [load_file] returns one of three
    codes once the subset list is dealt with: the file-does-not-exist error,
    [MB_FAILURE], or [MB_SUCCESS].  Any other error code a pass returns is
    dropped, and the reading goes on with the next pass. *)
Theorem load_passes_returns_three_codes :
  forall file_set blocks_to_load num_blocks (s s' : S) rc,
    fst tdata <> MB_SUCCESS \/ snd tdata = ""%string ->
    Exec.run (Passes.load_passes S tdata update reset file_is_valid read_exodus_header
                get_init_range read_nodes read_block_headers read_elements
                read_global_ids read_nodesets read_sidesets read_qa_records
                file_set blocks_to_load num_blocks) s = Some (rc, s') ->
    rc = MB_FILE_DOES_NOT_EXIST \/ rc = MB_FAILURE \/ rc = MB_SUCCESS.
Proof.
  intros file_set btl nb s s' rc Hno. unfold Exec.run, Passes.load_passes.
  destruct tdata as [rval text]. simpl in Hno.
  assert (Hcond : bool_decide (rval = MB_SUCCESS) && negb (String.eqb text "") = false).
  { destruct Hno as [Hne | ->].
    - now rewrite bool_decide_eq_false_2.
    - rewrite String.eqb_refl. apply andb_false_r. }
  rewrite Hcond. unfold Exec.bind at 1.
  destruct file_is_valid; simpl.
  - match goal with
    | |- match ?m with _ => _ end = _ -> _ =>
        destruct m as [[s1 res] |] eqn:Hrun; [| discriminate]
    end.
    assert (Hres : res = inl MB_FAILURE \/ res = inr tt).
    { revert Hrun. repeat (apply bind_pass_code; intros ? ? ?).
      destruct file_set; [apply pass_code | intros [= _ <-]; now right]. }
    destruct Hres as [-> | ->]; intros [= <- _]; auto.
  - intros [= <- _]. now left.
Qed.

(** One pass that returns, and not with [MB_FAILURE], in front of the rest
    of the function. *)
Lemma pass_goes_on :
  forall (p : S -> option (ErrorCode * S)) (k : Exec.M S unit) st rc st',
    p st = Some (rc, st') -> rc <> MB_FAILURE ->
    Exec.bind (Passes.pass S p) (fun _ => k) st = k st'.
Proof.
  intros p k st rc st' Hp Hrc. unfold Exec.bind, Passes.pass. rewrite Hp.
  destruct (decide (rc = MB_FAILURE)); [contradiction | reflexivity].
Qed.

Lemma pass_returns :
  forall (p : S -> option (ErrorCode * S)) st rc st',
    p st = Some (rc, st') -> rc <> MB_FAILURE ->
    Passes.pass S p st = Some (st', inr tt).
Proof.
  intros p st rc st' Hp Hrc. unfold Passes.pass. rewrite Hp.
  destruct (decide (rc = MB_FAILURE)); [contradiction | reflexivity].
Qed.

(** X23.  When the file opens and the passes, run one after the other in
    the order of [load_file], each on the state the one before leaves (the
    first on the state [reset] leaves), all return, and none with
    [MB_FAILURE], then [load_file] returns [MB_SUCCESS] and leaves the state
    the last pass leaves, whatever other error codes the passes return:
    every pass has run.  [read_qa_records] is among the passes when there is
    a file set. *)
Theorem load_passes_succeeds_despite_errors :
  forall file_set blocks_to_load num_blocks (s s' : S) codes,
    fst tdata <> MB_SUCCESS \/ snd tdata = ""%string ->
    file_is_valid = true ->
    passes_in_turn
      ([read_exodus_header; get_init_range; read_nodes;
        read_block_headers blocks_to_load num_blocks; read_elements; read_global_ids;
        read_nodesets; read_sidesets]
       ++ match file_set with
          | Some h => [read_qa_records h]
          | None => []
          end)
      (reset s) = Some (codes, s') ->
    MB_FAILURE ∉ codes ->
    Exec.run (Passes.load_passes S tdata update reset file_is_valid read_exodus_header
                get_init_range read_nodes read_block_headers read_elements
                read_global_ids read_nodesets read_sidesets read_qa_records
                file_set blocks_to_load num_blocks) s = Some (MB_SUCCESS, s').
Proof.
  intros file_set btl nb s s' codes Hno Hvalid Hturn Hcodes.
  unfold Exec.run, Passes.load_passes.
  destruct tdata as [rval text]. simpl in Hno.
  assert (Hcond : bool_decide (rval = MB_SUCCESS) && negb (String.eqb text "") = false).
  { destruct Hno as [Hne | ->].
    - now rewrite bool_decide_eq_false_2.
    - rewrite String.eqb_refl. apply andb_false_r. }
  rewrite Hcond, Hvalid. unfold Exec.bind at 1. cbn [negb].
  destruct file_set as [h |]; simpl in Hturn;
    repeat match type of Hturn with
           | context [?p ?st] =>
               match type of (p st) with
               | option (ErrorCode * S) =>
                   let rc := fresh "rc" in
                   let st' := fresh "st" in
                   let Hp := fresh "Hp" in
                   destruct (p st) as [[rc st'] |] eqn:Hp; simpl in Hturn; [| discriminate]
               end
           end;
    injection Hturn as <- <-;
    repeat match goal with
           | H : _ ∉ _ :: _ |- _ => apply not_elem_of_cons in H as [? H]
           end;
    repeat (erewrite pass_goes_on; [| eassumption | congruence]).
  - erewrite pass_returns; [reflexivity | eassumption | congruence].
  - reflexivity.
Qed.

End passes_facts.

Lemma load_passes_returns_three_codes_witness :
  MB_SUCCESS = MB_FILE_DOES_NOT_EXIST \/ MB_SUCCESS = MB_FAILURE \/ MB_SUCCESS = MB_SUCCESS.
Proof.
  apply (load_passes_returns_three_codes unit (MB_ENTITY_NOT_FOUND, ""%string)
           (fun _ _ _ s => Some (MB_SUCCESS, s)) (fun s => s) true
           pass_with_error pass_with_error pass_with_error
           (fun _ _ => pass_with_error) pass_with_error pass_with_error
           pass_with_error pass_with_error (fun _ => pass_with_error)
           (Some 77) None 0 tt tt MB_SUCCESS).
  - left. discriminate.
  - reflexivity.
Defined.

Lemma load_passes_succeeds_despite_errors_witness :
  load_with_log (Some 77) ["state of an earlier load"]%string
  = Some (MB_SUCCESS,
          ["read_exodus_header"; "get_init_range"; "read_nodes"; "read_block_headers";
           "read_elements"; "read_global_ids"; "read_nodesets"; "read_sidesets";
           "read_qa_records"]%string).
Proof.
  apply (load_passes_succeeds_despite_errors (list string) (MB_ENTITY_NOT_FOUND, ""%string)
           (fun _ _ _ log => Some (MB_SUCCESS, log)) (fun _ => []) true
           (logging_pass "read_exodus_header" MB_SUCCESS)
           (logging_pass "get_init_range" MB_SUCCESS)
           (logging_pass "read_nodes" MB_ENTITY_NOT_FOUND)
           (fun _ _ => logging_pass "read_block_headers" MB_SUCCESS)
           (logging_pass "read_elements" MB_TAG_NOT_FOUND)
           (logging_pass "read_global_ids" MB_SUCCESS)
           (logging_pass "read_nodesets" MB_INVALID_SIZE)
           (logging_pass "read_sidesets" MB_SUCCESS)
           (fun _ => logging_pass "read_qa_records" MB_SUCCESS)
           (Some 77) None 0 ["state of an earlier load"]%string _
           [MB_SUCCESS; MB_SUCCESS; MB_ENTITY_NOT_FOUND; MB_SUCCESS; MB_TAG_NOT_FOUND;
            MB_SUCCESS; MB_INVALID_SIZE; MB_SUCCESS; MB_SUCCESS]).
  - left. discriminate.
  - reflexivity.
  - reflexivity.
  - apply (bool_decide_unpack _). vm_compute. reflexivity.
Defined.

(** ** The QA records: what is stored, and what is reported *)



Lemma c_string_no_nul : forall data, Ascii.zero ∉ Qa.c_string data.
Proof.
  induction data as [| c data IH]; simpl; [apply not_elem_of_nil |].
  destruct (Ascii.eqb_spec c Ascii.zero) as [| Hne]; [apply not_elem_of_nil |].
  apply not_elem_of_cons. split; [congruence | exact IH].
Qed.

Lemma string_loop_no_nul : forall r i count j l rc l',
  Forall (fun record => Ascii.zero ∉ record) l ->
  Qa.string_loop r i j count l = (rc, l') ->
  Forall (fun record => Ascii.zero ∉ record) l'.
Proof.
  intros r i. induction count as [| count IH]; intros j l rc l' Hl; simpl.
  - now intros [= _ <-].
  - destruct (Qa.read_qa_string r i j) as [e | data]; [now intros [= _ <-] |].
    apply IH. apply Forall_app. split; [exact Hl |].
    constructor; [apply c_string_no_nul | constructor].
Qed.

Lemma record_loop_no_nul : forall r count i l rc l',
  Forall (fun record => Ascii.zero ∉ record) l ->
  Qa.record_loop r i count l = (rc, l') ->
  Forall (fun record => Ascii.zero ∉ record) l'.
Proof.
  intros r. induction count as [| count IH]; intros i l rc l' Hl;
    cbn [Qa.record_loop].
  - now intros [= _ <-].
  - destruct (Qa.string_loop r i 0 4 l) as [rc1 l1] eqn:Hstrings.
    pose proof (string_loop_no_nul _ _ _ _ _ _ _ Hl Hstrings) as Hl1.
    destruct rc1; try (intros [= _ <-]; exact Hl1). now apply IH.
Qed.

Lemma split_at_nul_record : forall record current bytes,
  Ascii.zero ∉ record ->
  split_at_nul current (record ++ Ascii.zero :: bytes)
  = (current ++ record) :: split_at_nul [] bytes.
Proof.
  induction record as [| c record IH]; intros current bytes Hno; simpl.
  - now rewrite app_nil_r.
  - apply not_elem_of_cons in Hno as [Hc Hno].
    destruct (Ascii.eqb_spec c Ascii.zero) as [| _]; [congruence |].
    rewrite IH by exact Hno. now rewrite <- app_assoc.
Qed.

Lemma split_at_nul_tag_bytes : forall records,
  Forall (fun record => Ascii.zero ∉ record) records ->
  split_at_nul [] (Qa.tag_bytes records) = records.
Proof.
  induction records as [| record records IH]; intros Hall; [reflexivity |].
  apply Forall_cons in Hall as [Hrecord Hall].
  unfold Qa.tag_bytes. simpl. rewrite <- app_assoc. simpl.
  rewrite split_at_nul_record by exact Hrecord. simpl. f_equal. now apply IH.
Qed.

(** X24.  What [read_qa_records] stores on the file set is every record it
    read followed by a [NUL]; no record holds a [NUL], so cutting the stored
    bytes at the [NUL]s gives the records back, empty ones included.  When no
    record was read nothing is stored. *)
Theorem read_qa_records_can_be_read_back :
  forall (r : Qa.Reader) (file_set : Z) (db db' : Qa.Store) rc qa_records,
    Qa.read_qa_information r [] = Some (rc, qa_records) ->
    Qa.read_qa_records r file_set db = Some (MB_SUCCESS, db') ->
    match qa_records with
    | [] => db' = db
    | _ :: _ =>
        exists bytes, Qa.qa_record db' !! file_set = Some bytes
                      /\ split_at_nul [] bytes = qa_records
    end.
Proof.
  intros r file_set db db' rc records Hinfo. unfold Qa.read_qa_records. rewrite Hinfo.
  assert (Hclean : Forall (fun record => Ascii.zero ∉ record) records).
  { unfold Qa.read_qa_information in Hinfo.
    destruct (Qa.GET_DIM _ _) as [[e | n] |]; [| | discriminate].
    - injection Hinfo as _ <-. constructor.
    - destruct (_ + 1 <? 0); [discriminate |].
      destruct (n <=? 0); [injection Hinfo as _ <-; constructor |].
      destruct (_ <? 0); [discriminate |]. injection Hinfo as Hloop.
      eapply record_loop_no_nul; [constructor | exact Hloop]. }
  destruct records as [| record records]; [simpl; now intros [= <-] |].
  destruct (Qa.tag_bytes (record :: records)) as [| b bytes] eqn:Hbytes.
  { exfalso. unfold Qa.tag_bytes in Hbytes. simpl in Hbytes.
    destruct record; discriminate. }
  unfold Qa.tag_set_data. destruct (bool_decide (file_set ∈ Qa.entities db)); simpl.
  - intros [= <-]. rewrite <- Hbytes. eexists.
    split; [apply lookup_insert_eq | now apply split_at_nul_tag_bytes].
  - discriminate.
Qed.

Lemma read_qa_records_can_be_read_back_witness :
  exists bytes, Qa.qa_record store_with_record !! 77 = Some bytes
                /\ split_at_nul [] bytes = qa_strings.
Proof.
  apply (read_qa_records_can_be_read_back (qa_file 1) 77 store_with_file_set
           store_with_record MB_SUCCESS qa_strings).
  - vm_compute. reflexivity.
  - vm_compute. reflexivity.
Defined.

(** X25.  [read_qa_records] does not look at what [read_qa_information]
    returns: on a file set the database knows it reports [MB_SUCCESS] also
    when the QA strings could not be read, having stored the strings read
    before the failure. *)
Theorem read_qa_records_hides_read_errors :
  forall (r : Qa.Reader) (file_set : Z) (db db' : Qa.Store) rc,
    file_set ∈ Qa.entities db ->
    Qa.read_qa_records r file_set db = Some (rc, db') ->
    rc = MB_SUCCESS
    /\ exists status qa_records,
         Qa.read_qa_information r [] = Some (status, qa_records)
         /\ (qa_records <> [] ->
             Qa.qa_record db' !! file_set = Some (Qa.tag_bytes qa_records)).
Proof.
  intros r file_set db db' rc Hknown. unfold Qa.read_qa_records.
  destruct (Qa.read_qa_information r []) as [[status records] |]; [| discriminate].
  destruct (Qa.tag_bytes records) as [| b bytes] eqn:Hbytes.
  - intros [= <- <-]. split; [reflexivity |]. exists status, records.
    split; [reflexivity |]. intros Hne. exfalso.
    destruct records as [| record records]; [contradiction |].
    unfold Qa.tag_bytes in Hbytes. simpl in Hbytes. destruct record; discriminate.
  - unfold Qa.tag_set_data. rewrite bool_decide_eq_true_2 by exact Hknown. simpl.
    intros [= <- <-]. split; [reflexivity |]. exists status, records.
    split; [reflexivity |]. intros _. simpl. now rewrite lookup_insert_eq, Hbytes.
Qed.

Lemma read_qa_records_hides_read_errors_witness :
  MB_SUCCESS = MB_SUCCESS
  /\ exists status qa_records,
       Qa.read_qa_information (qa_file 2) [] = Some (status, qa_records)
       /\ (qa_records <> [] ->
           Qa.qa_record store_with_record !! 77 = Some (Qa.tag_bytes qa_records)).
Proof.
  apply (read_qa_records_hides_read_errors (qa_file 2) 77 store_with_file_set
           store_with_record MB_SUCCESS).
  - simpl. set_solver.
  - vm_compute. reflexivity.
Defined.

(** ** [read_global_ids]: which entry of the element map an element gets *)



Section global_ids.

Variable D : Type.
Variable MB_START_ID : Z.

Lemma tag_set_range_frame :
  forall tag data first (db db' : Db.Moab D) rc,
    GlobalIds.tag_set_range D tag first data db = (rc, db') ->
    forall t h, t <> tag \/ outside first (Z.of_nat (length data)) h ->
                Db.int_tag_data db' !! (t, h) = Db.int_tag_data db !! (t, h).
Proof.
  intros tag. induction data as [| v data IH]; intros first db db' rc; simpl.
  - now intros [= _ <-].
  - unfold Db.tag_set_data at 1. destruct (bool_decide (first ∈ Db.entities db)).
    + intros Hrun t h Hout. rewrite (IH _ _ _ _ Hrun).
      * simpl. apply lookup_insert_ne. intros [= <- <-].
        destruct Hout as [Hne | Hout]; [congruence | unfold outside in Hout; lia].
      * destruct Hout as [Hne | Hout]; [now left | right; unfold outside in *; lia].
    + now intros [= _ <-].
Qed.

Lemma tag_set_range_done :
  forall tag data first (db db' : Db.Moab D),
    GlobalIds.tag_set_range D tag first data db = (MB_SUCCESS, db') ->
    forall (j : nat) v, data !! j = Some v ->
                        Db.int_tag_data db' !! (tag, first + Z.of_nat j) = Some v.
Proof.
  intros tag. induction data as [| v0 data IH]; intros first db db' Hrun j v Hj;
    [discriminate |].
  simpl in Hrun. unfold Db.tag_set_data in Hrun at 1.
  destruct (bool_decide (first ∈ Db.entities db)); [| discriminate].
  destruct j as [| j]; simpl in Hj.
  - injection Hj as ->. rewrite (tag_set_range_frame _ _ _ _ _ _ Hrun).
    + simpl. rewrite Z.add_0_r. apply lookup_insert_eq.
    + right. left. lia.
  - replace (first + Z.of_nat (S j)) with (first + 1 + Z.of_nat j) by lia.
    now apply (IH _ _ _ Hrun).
Qed.

Lemma block_loop_ids :
  forall (ptr : list Z) bs ptr_pos (db db' : Db.Moab D),
    GlobalIds.block_loop D ptr ptr_pos bs db = Some (db', inr tt) ->
    ranges_apart bs ->
    Forall (fun b => reading_in b = true -> 0 < numElements b) bs ->
    (forall h, (forall b, b ∈ bs -> reading_in b = true ->
                          outside (startMBId b) (numElements b) h) ->
               Db.int_tag_data db' !! ("mGlobalIdTag"%string, h)
               = Db.int_tag_data db !! ("mGlobalIdTag"%string, h))
    /\ forall (k : nat) b j,
         bs !! k = Some b -> reading_in b = true -> 0 <= j < numElements b ->
         exists id, ptr !! Z.to_nat (ptr_pos + read_before bs k + j) = Some id
                    /\ Db.int_tag_data db' !! ("mGlobalIdTag"%string, startMBId b + j)
                       = Some id.
Proof.
  intros ptr. induction bs as [| b bs IH]; intros pos db db' Hrun Hapart Hsizes.
  - simpl in Hrun. injection Hrun as <-. split; [reflexivity |]. intros k b j Hk. discriminate.
  - apply Forall_cons in Hsizes as [Hb Hsizes].
    assert (Hapart' : ranges_apart bs).
    { intros i k bi bk Hik Hi Hk. apply (Hapart (S i) (S k)); [lia | exact Hi | exact Hk]. }
    cbn [GlobalIds.block_loop] in Hrun.
    destruct (reading_in b) eqn:Hread.
    + specialize (Hb eq_refl).
      destruct (startMBId b =? 0); [discriminate |].
      destruct ((0 <? numElements b) && _) eqn:Hbounds; [discriminate |].
      unfold Exec.bind, NodeSets.call in Hrun.
      destruct (GlobalIds.tag_set_range D _ _ _ db) as [error db1] eqn:Hset.
      destruct (decide (error = MB_SUCCESS)) as [-> | _]; [| discriminate].
      destruct (IH _ _ _ Hrun Hapart' Hsizes) as [Hframe Hids].
      pose proof (tag_set_range_frame _ _ _ _ _ _ Hset) as Hframe1.
      assert (Hlen : 0 < numElements b ->
                     length (take (Z.to_nat (numElements b)) (drop (Z.to_nat pos) ptr))
                     = Z.to_nat (numElements b) /\ 0 <= pos).
      { intros Hpos. apply andb_false_iff in Hbounds as [Hb0 | Hb1];
          [apply Z.ltb_ge in Hb0; lia |].
        apply orb_false_iff in Hb1 as [Hp1 Hp2].
        apply Z.ltb_ge in Hp1, Hp2. rewrite length_take, length_drop. lia. }
      split.
      * intros h Hout. rewrite Hframe by (intros b' Hb' Hr'; apply Hout; [now right | exact Hr']).
        apply Hframe1. right.
        specialize (Hout b ltac:(left) Hread). unfold outside in *.
        rewrite length_take, length_drop. lia.
      * intros [| k] b' j Hk Hr' Hj; simpl in Hk.
        -- injection Hk as <-. destruct (Hlen ltac:(lia)) as [Hl Hp].
           assert (is_Some (take (Z.to_nat (numElements b)) (drop (Z.to_nat pos) ptr)
                              !! Z.to_nat j)) as [id Hid]
             by (apply lookup_lt_is_Some_2; lia).
           exists id. split.
           ++ rewrite lookup_take_lt, lookup_drop in Hid by lia.
              unfold read_before. simpl. rewrite <- Hid. f_equal. lia.
           ++ rewrite Hframe.
              ** rewrite <- (Z2Nat.id j) at 1 by lia.
                 exact (tag_set_range_done _ _ _ _ _ Hset _ _ Hid).
              ** intros b2 Hb2 Hr2. apply list_elem_of_lookup in Hb2 as [i Hi].
                 destruct (Hapart O (S i) b b2 ltac:(lia) eq_refl Hi Hread Hr2);
                   unfold outside; lia.
        -- destruct (Hids k b' j Hk Hr' Hj) as (id & Hid & Htag).
           exists id. split; [| exact Htag].
           rewrite <- Hid. f_equal. unfold read_before. simpl. rewrite Hread.
           fold (read_before bs k). lia.
    + destruct (IH _ _ _ Hrun Hapart' Hsizes) as [Hframe Hids]. split.
      * intros h Hout. apply Hframe. intros b' Hb' Hr'. apply Hout; [now right | exact Hr'].
      * intros [| k] b' j Hk Hr' Hj; simpl in Hk; [congruence |].
        destruct (Hids k b' j Hk Hr' Hj) as (id & Hid & Htag).
        exists id. split; [| exact Htag].
        rewrite <- Hid. f_equal. unfold read_before. simpl. rewrite Hread.
        fold (read_before bs k). lia.
Qed.

Lemma block_loop_exit :
  forall (ptr : list Z) bs ptr_pos (db db' : Db.Moab D) rc,
    GlobalIds.block_loop D ptr ptr_pos bs db = Some (db', inl rc) -> rc <> MB_SUCCESS.
Proof.
  intros ptr. induction bs as [| b bs IH]; intros pos db db' rc; cbn [GlobalIds.block_loop].
  - discriminate.
  - destruct (reading_in b); [| apply IH].
    destruct (startMBId b =? 0); [intros [= _ <-]; discriminate |].
    destruct (_ && _); [discriminate |].
    unfold Exec.bind, NodeSets.call.
    destruct (GlobalIds.tag_set_range D _ _ _ db) as [error db1].
    destruct (decide (error = MB_SUCCESS)) as [-> | Hne]; [apply IH |].
    intros [= _ <-]. exact Hne.
Qed.

(** X26.  When [read_global_ids] succeeds, element [j] of a block that is read
    in carries as global id the entry of [elem_map] at the position counted
    over the blocks read in before it: the map is walked block by block, and
    a block that is not read in takes no entries.  (The blocks read in are
    not empty, and their handles and those of the vertices do not overlap.) *)
Theorem read_global_ids_follows_elem_map :
  forall (r : GlobalIds.Reader) (db db' : Db.Moab D),
    ranges_apart (GlobalIds.blocksLoading r) ->
    Forall (fun b => reading_in b = true -> 0 < numElements b)
           (GlobalIds.blocksLoading r) ->
    Forall (fun b => reading_in b = true ->
                     startMBId b + numElements b <= MB_START_ID + GlobalIds.vertexOffset r
                     \/ MB_START_ID + GlobalIds.vertexOffset r
                        + Z.of_nat (Z.to_nat (GlobalIds.numberNodes_loading r))
                        <= startMBId b)
           (GlobalIds.blocksLoading r) ->
    Exec.run (GlobalIds.read_global_ids D MB_START_ID r) db = Some (MB_SUCCESS, db') ->
    exists temp_var ptr,
      Nc.get_var (GlobalIds.int_vars r) "elem_map" = Some temp_var
      /\ Nc.get temp_var (GlobalIds.numberElements_loading r) = Some ptr
      /\ forall (k : nat) b j,
           GlobalIds.blocksLoading r !! k = Some b -> reading_in b = true ->
           0 <= j < numElements b ->
           exists id,
             ptr !! Z.to_nat (read_before (GlobalIds.blocksLoading r) k + j) = Some id
             /\ Db.tag_get_data "mGlobalIdTag" (startMBId b + j) db' = inr id.
Proof.
  intros r db db' Hapart Hsizes Hverts. unfold Exec.run, GlobalIds.read_global_ids.
  destruct (GlobalIds.numberElements_loading r <? 0); [discriminate |].
  destruct (Nc.get_var _ "elem_map") as [temp_var |] eqn:Hvar; [| discriminate].
  destruct (negb _); [discriminate |].
  destruct (Nc.get temp_var _) as [ptr |] eqn:Hptr; [| discriminate].
  unfold Exec.bind.
  destruct (GlobalIds.block_loop D ptr 0 _ db) as [[db1 [rc | []]] |] eqn:Hloop;
    [| | discriminate].
  { intros [= -> _]. now apply block_loop_exit in Hloop. }
  destruct (block_loop_ids _ _ _ _ _ Hloop Hapart Hsizes) as [_ Hids].
  destruct (GlobalIds.node_map D MB_START_ID r db1) as [[db2 res] |] eqn:Hmap;
    [| discriminate].
  intros Hdb. assert (db2 = db') as -> by (destruct res; congruence). clear Hdb.
  exists temp_var, ptr. split; [reflexivity |]. split; [exact Hptr |].
  intros k b j Hk Hr Hj. destruct (Hids k b j Hk Hr Hj) as (id & Hid & Htag).
  exists id. split; [exact Hid |].
  assert (Hkeep : Db.int_tag_data db' !! ("mGlobalIdTag"%string, startMBId b + j)
                  = Db.int_tag_data db1 !! ("mGlobalIdTag"%string, startMBId b + j)).
  { unfold GlobalIds.node_map in Hmap.
    destruct (Nc.get_var _ "node_num_map") as [v |]; [| injection Hmap as <- _; reflexivity].
    destruct (Nc.get v _) as [ids |] eqn:Hget; [| injection Hmap as <- _; reflexivity].
    unfold Exec.bind, NodeSets.call in Hmap.
    destruct (GlobalIds.tag_set_range D _ _ ids db1) as [e db2] eqn:Hset.
    injection Hmap as <- _.
    apply (tag_set_range_frame _ _ _ _ _ _ Hset). right.
    rewrite Forall_lookup in Hverts. specialize (Hverts k b Hk Hr).
    assert (length ids = Z.to_nat (GlobalIds.numberNodes_loading r)).
    { unfold Nc.get in Hget. destruct (Nat.leb_spec
        (Z.to_nat (GlobalIds.numberNodes_loading r)) (length (Nc.var_values v)));
        [| discriminate].
      injection Hget as <-. rewrite length_take. lia. }
    unfold outside. lia. }
  unfold Db.tag_get_data. now rewrite Hkeep, Htag.
Qed.

End global_ids.

Lemma read_global_ids_follows_elem_map_witness :
  exists temp_var ptr,
    Nc.get_var (GlobalIds.int_vars three_elements) "elem_map" = Some temp_var
    /\ Nc.get temp_var (GlobalIds.numberElements_loading three_elements) = Some ptr
    /\ forall (k : nat) b j,
         GlobalIds.blocksLoading three_elements !! k = Some b -> reading_in b = true ->
         0 <= j < numElements b ->
         exists id,
           ptr !! Z.to_nat (read_before (GlobalIds.blocksLoading three_elements) k + j)
           = Some id
           /\ Db.tag_get_data "mGlobalIdTag" (startMBId b + j)
                (db_of_three_elements
                   {[ ("mGlobalIdTag"%string, 201) := 71; ("mGlobalIdTag"%string, 202) := 72;
                      ("mGlobalIdTag"%string, 203) := 73 ]})
              = inr id.
Proof.
  apply (read_global_ids_follows_elem_map Z 1 three_elements (db_of_three_elements ∅)).
  - intros [| i] [| k] bi bk Hik Hi Hk; simpl in Hi, Hk; congruence || discriminate.
  - constructor; [simpl; lia | constructor].
  - constructor; [simpl; intros _; right; lia | constructor].
  - vm_compute. reflexivity.
Defined.

(** ** [read_nodes]: where the nodes of the file end up *)

Section nodes_placed.

Variable D : Type.
Variables (dzero indeterminate : D).
Variable MB_START_ID : Z.
Variable ID_FROM_HANDLE : Z -> Z.

Lemma new_vertices_lookup : forall n node_handle (c : gmap Z (D * D * D)) v,
  Nodes.new_vertices D indeterminate node_handle n c !! v
  = if bool_decide (node_handle <= v < node_handle + Z.of_nat n)
    then Some (indeterminate, indeterminate, indeterminate)
    else c !! v.
Proof.
  induction n as [| n IH]; intros h c v; simpl.
  - rewrite bool_decide_eq_false_2 by lia. reflexivity.
  - rewrite IH. destruct (decide (h + 1 <= v < h + 1 + Z.of_nat n)) as [Hin | Hout].
    + rewrite !bool_decide_eq_true_2 by lia. reflexivity.
    + rewrite (bool_decide_eq_false_2 _ Hout).
      destruct (decide (v = h)) as [-> | Hne].
      * rewrite lookup_insert_eq, bool_decide_eq_true_2 by lia. reflexivity.
      * rewrite lookup_insert_ne by congruence.
        rewrite bool_decide_eq_false_2 by lia. reflexivity.
Qed.

Lemma write_array_lookup : forall a values node_handle (m : Nodes.Mesh D) (i : nat) x,
  values !! i = Some x ->
  Nodes.coords (Nodes.write_array D a node_handle values m) !! (node_handle + Z.of_nat i)
  = Nodes.put D a x <$> Nodes.coords m !! (node_handle + Z.of_nat i).
Proof.
  intros a. induction values as [| v values IH]; intros h m i x Hi; [discriminate |].
  simpl. destruct i as [| i]; simpl in Hi.
  - injection Hi as ->. rewrite Z.add_0_r.
    assert (Hrest : forall vs h' (m' : Nodes.Mesh D), h < h' ->
               Nodes.coords (Nodes.write_array D a h' vs m') !! h = Nodes.coords m' !! h).
    { induction vs as [| w vs IHvs]; intros h' m' Hlt; simpl; [reflexivity |].
      rewrite IHvs by lia. simpl. apply lookup_alter_ne. lia. }
    rewrite Hrest by lia. simpl. apply lookup_alter_eq.
  - replace (h + Z.of_nat (S i)) with (h + 1 + Z.of_nat i) by lia.
    rewrite (IH _ _ _ _ Hi). simpl. f_equal. apply lookup_alter_ne. lia.
Qed.

Lemma write_array_frame : forall a values node_handle (m : Nodes.Mesh D) v,
  v < node_handle \/ node_handle + Z.of_nat (length values) <= v ->
  Nodes.coords (Nodes.write_array D a node_handle values m) !! v = Nodes.coords m !! v.
Proof.
  intros a. induction values as [| w values IH]; intros h m v Hout; simpl; [reflexivity |].
  simpl in Hout. rewrite IH by lia. simpl. apply lookup_alter_ne. lia.
Qed.

Lemma get_row_length : forall (v : Nc.NcVar (list D)) t n row,
  Update.get_row D v t n = Some row -> length row = Z.to_nat n.
Proof.
  intros v t n row. unfold Update.get_row. destruct (t <? 0); [discriminate |].
  destruct (Nc.var_values v !! _) as [l |]; [| discriminate].
  destruct (Nat.leb_spec (Z.to_nat n) (length l)); [| discriminate].
  intros [= <-]. rewrite length_take. lia.
Qed.

(** X27.  When [read_nodes] succeeds on a file that has nodes, the nodes are
    the vertices of one new sequence, node [i + 1] being the vertex [i] places
    behind its start; the vertex lies at the node's entries of the rows of
    [coord], with 0 for the third coordinate in a file of two dimensions;
    [vertexOffset] is set from the start of the sequence, and no other vertex
    is touched. *)
Theorem read_nodes_places_the_nodes :
  forall (r r' : Nodes.Reader D) (file_id_tag : bool) (m m' : Nodes.Mesh D),
    0 < Nodes.numberNodes_loading r ->
    Nodes.read_nodes D dzero indeterminate MB_START_ID ID_FROM_HANDLE r file_id_tag m
    = (MB_SUCCESS, r', m') ->
    let n := Z.to_nat (Nodes.numberNodes_loading r) in
    let node_handle := Nodes.next_vertex m in
    Nodes.vertexOffset r' = ID_FROM_HANDLE node_handle - MB_START_ID
    /\ (forall v, v < node_handle \/ node_handle + Z.of_nat n <= v ->
                  Nodes.coords m' !! v = Nodes.coords m !! v)
    /\ exists coords_var xs ys zs,
         Update.valid_var (Nodes.double_vars r) "coord" = Some coords_var
         /\ Update.get_row D coords_var 0 (Nodes.numberNodes_loading r) = Some xs
         /\ Update.get_row D coords_var 1 (Nodes.numberNodes_loading r) = Some ys
         /\ (if Nodes.numberDimensions_loading r =? 2
             then zs = replicate n dzero
             else Update.get_row D coords_var 2 (Nodes.numberNodes_loading r) = Some zs)
         /\ forall (i : nat) x y z,
              xs !! i = Some x -> ys !! i = Some y -> zs !! i = Some z ->
              Nodes.coords m' !! (node_handle + Z.of_nat i) = Some (x, y, z).
Proof.
  intros r r' tag m m' _. unfold Nodes.read_nodes, Nodes.get_node_coords. simpl.
  destruct (Update.valid_var (Nodes.double_vars r) "coord") as [cv |] eqn:Hcv;
    [| discriminate].
  destruct (Update.get_row D cv 0 _) as [xs |] eqn:Hx; [| discriminate].
  destruct (Update.get_row D cv 1 _) as [ys |] eqn:Hy; [| discriminate].
  set (h := Nodes.next_vertex m). set (n := Z.to_nat (Nodes.numberNodes_loading r)).
  destruct (match Nodes.numberDimensions_loading r =? 2 with
            | true => Some (replicate n dzero)
            | false => Update.get_row D cv 2 (Nodes.numberNodes_loading r)
            end) as [zs |] eqn:Hz; [| discriminate].
  pose proof (get_row_length _ _ _ _ Hx) as Hlx. pose proof (get_row_length _ _ _ _ Hy) as Hly.
  assert (Hlz : length zs = n).
  { destruct (Nodes.numberDimensions_loading r =? 2).
    - injection Hz as <-. apply length_replicate.
    - exact (get_row_length _ _ _ _ Hz). }
  fold n in Hlx, Hly.
  intros Hrun.
  assert (Hcoords : Nodes.coords m'
                    = Nodes.coords
                        (Nodes.write_array D Nodes.Z_axis h zs
                           (Nodes.write_array D Nodes.Y_axis h ys
                              (Nodes.write_array D Nodes.X_axis h xs
                                 {| Nodes.coords :=
                                      Nodes.new_vertices D indeterminate h n (Nodes.coords m);
                                    Nodes.file_ids := Nodes.file_ids m;
                                    Nodes.next_vertex := h + Z.of_nat n |})))).
  { injection Hrun as _ <-. destruct tag; reflexivity. }
  split; [injection Hrun as <- _; reflexivity |]. split.
  - intros v Hout. rewrite Hcoords.
    rewrite !write_array_frame by lia. simpl. rewrite new_vertices_lookup.
    rewrite bool_decide_eq_false_2 by lia. reflexivity.
  - exists cv, xs, ys, zs. split; [reflexivity |]. split; [exact Hx |].
    split; [exact Hy |]. split.
    + destruct (Nodes.numberDimensions_loading r =? 2); [congruence | exact Hz].
    + intros i x y z Hxi Hyi Hzi. rewrite Hcoords.
      rewrite (write_array_lookup _ _ _ _ _ _ Hzi), (write_array_lookup _ _ _ _ _ _ Hyi),
        (write_array_lookup _ _ _ _ _ _ Hxi).
      simpl. rewrite new_vertices_lookup.
      apply lookup_lt_Some in Hxi.
      rewrite bool_decide_eq_true_2 by lia. reflexivity.
Qed.

End nodes_placed.

Lemma read_nodes_places_the_nodes_witness :
  let n := Z.to_nat (Nodes.numberNodes_loading (two_nodes 7)) in
  let node_handle := Nodes.next_vertex no_vertices in
  Nodes.vertexOffset (two_nodes 0) = (fun h => h) node_handle - 1
  /\ (forall v, v < node_handle \/ node_handle + Z.of_nat n <= v ->
                Nodes.coords two_vertices !! v = Nodes.coords no_vertices !! v)
  /\ exists coords_var xs ys zs,
       Update.valid_var (Nodes.double_vars (two_nodes 7)) "coord" = Some coords_var
       /\ Update.get_row Z coords_var 0 (Nodes.numberNodes_loading (two_nodes 7)) = Some xs
       /\ Update.get_row Z coords_var 1 (Nodes.numberNodes_loading (two_nodes 7)) = Some ys
       /\ (if Nodes.numberDimensions_loading (two_nodes 7) =? 2
           then zs = replicate n 0
           else Update.get_row Z coords_var 2 (Nodes.numberNodes_loading (two_nodes 7))
                = Some zs)
       /\ forall (i : nat) x y z,
            xs !! i = Some x -> ys !! i = Some y -> zs !! i = Some z ->
            Nodes.coords two_vertices !! (node_handle + Z.of_nat i) = Some (x, y, z).
Proof.
  apply (read_nodes_places_the_nodes Z 0 (-1) 1 (fun h => h) (two_nodes 7) (two_nodes 0)
           true no_vertices two_vertices).
  - simpl. lia.
  - vm_compute. reflexivity.
Defined.

(** ** [read_exodus_header]: the counts it leaves *)





(** ** [read_sidesets]: what it does to the sets that exist *)

Section sidesets_extend.

Context `{ExoIIEnum}.

Variable D : Type.
Variable ExoIIElementMBEntity : Z -> Db.EntityType.
Variable SubEntityNodeIndices : Db.EntityType -> Z -> Z -> Z -> Db.EntityType * list Z.
Variable r : SideSets.Reader D.

Lemma extends_sets_later : forall db db' : Db.Moab D,
  Db.meshsets db' = Db.meshsets db -> Db.next_handle db <= Db.next_handle db' ->
  extends_sets db db'.
Proof.
  intros db db' Hsets Hnext Hbelow. split.
  - intros h Hh. rewrite Hsets in Hh. specialize (Hbelow h Hh). lia.
  - intros h s Hs. exists s. rewrite Hsets. split; [exact Hs |]. split; reflexivity.
Qed.

Lemma side_query : forall A (f : Db.Moab D -> A), preserves extends_sets (SideSets.query D f).
Proof. intros A f s s' res [= <- _]. apply extends_sets_refl. Qed.

Lemma side_call : forall f : Db.Moab D -> ErrorCode * Db.Moab D,
  (forall db, extends_sets db (snd (f db))) -> preserves extends_sets (SideSets.call D f).
Proof.
  intros f Hf s s' res. unfold SideSets.call. specialize (Hf s).
  destruct (f s) as [rc db']. intros [= <- _]. exact Hf.
Qed.

Lemma side_or_fail : forall rc, preserves extends_sets (SideSets.or_fail D rc).
Proof.
  intros rc. unfold SideSets.or_fail.
  destruct (decide _); [apply preserves_ret | apply preserves_exit];
    apply extends_sets_refl.
Qed.

Lemma side_or_result : forall rc, preserves extends_sets (SideSets.or_result D rc).
Proof.
  intros rc. unfold SideSets.or_result.
  destruct (decide _); [apply preserves_ret | apply preserves_exit];
    apply extends_sets_refl.
Qed.

Lemma side_new_meshset : forall is_ordered,
  preserves extends_sets (SideSets.new_meshset D is_ordered).
Proof.
  intros o s s' res. unfold SideSets.new_meshset.
  pose proof (create_meshset_extends D o s) as Hc.
  destruct (Db.create_meshset o s) as [db1 h]. intros [= <- _]. exact Hc.
Qed.

Lemma side_tag : forall tag ent v,
  preserves extends_sets (SideSets.call D (Db.tag_set_data tag ent v)).
Proof.
  intros. apply side_call. intros db. apply extends_sets_same.
  - apply tag_set_data_same_sets.
  - unfold Db.tag_set_data. now destruct (bool_decide _).
Qed.

Lemma side_factors : forall ent v,
  preserves extends_sets (SideSets.call D (Db.set_dist_factors ent v)).
Proof.
  intros. apply side_call. intros db. apply extends_sets_same.
  - apply set_dist_factors_same_sets.
  - unfold Db.set_dist_factors. now destruct (bool_decide _).
Qed.

Lemma side_add : forall set ents,
  preserves extends_sets (SideSets.call D (Db.add_entities set ents)).
Proof. intros. apply side_call. intros db. apply add_entities_extends. Qed.

Lemma side_tag_create : forall name dflt,
  preserves extends_sets (SideSets.call D (Db.tag_create name dflt)).
Proof. intros. apply side_call. intros db. now apply extends_sets_same. Qed.

Lemma side_or_return : forall A rc (m : Exec.M (Db.Moab D) A),
  preserves extends_sets m -> preserves extends_sets (SideSets.or_return D rc m).
Proof.
  intros A rc m Hm s s' res. unfold SideSets.or_return.
  destruct (m s) as [[s1 [e | a]] |] eqn:Hrun; [| | discriminate];
    intros [= <- _]; eapply Hm; exact Hrun.
Qed.

Lemma side_element : forall connectivity type,
  preserves extends_sets (SideSets.create_sideset_element D connectivity type).
Proof.
  intros q type. unfold SideSets.create_sideset_element.
  destruct q as [| v0 q']; [apply preserves_undefined |].
  intros s s' res. destruct (SideSets.match_loop D s _ _) as [e |].
  - intros [= <- _]. apply extends_sets_refl.
  - unfold Db.create_element. intros [= <- _].
    apply extends_sets_later; simpl; [reflexivity | lia].
Qed.

Lemma side_make : forall type ent_handle side_dim side_index,
  preserves extends_sets
            (SideSets.make_side D SubEntityNodeIndices type ent_handle side_dim side_index).
Proof.
  intros type ent dim idx.
  pose proof (extends_sets_refl D) as Hrefl. pose proof (extends_sets_trans D) as Htrans.
  pose proof side_element as Helement.
  unfold SideSets.make_side.
  apply preserves_bind; [exact Htrans | |].
  - intros s s' res [= <- _]. apply Hrefl.
  - intros got. repeat preserves_step.
Qed.

Lemma side_read_factors : forall ndf tdf n s,
  preserves extends_sets (SideSets.read_factors D ndf tdf n s).
Proof.
  intros ndf tdf n s. pose proof (extends_sets_refl D) as Hrefl.
  unfold SideSets.read_factors. repeat preserves_step.
Qed.

Lemma side_step_extends : forall ndf tdf s element_id side,
  preserves extends_sets
            (SideSets.side_step D ExoIIElementMBEntity SubEntityNodeIndices r ndf tdf
               s element_id side).
Proof.
  intros ndf tdf s id side.
  pose proof (extends_sets_refl D) as Hrefl. pose proof (extends_sets_trans D) as Htrans.
  pose proof side_make as Hmake. pose proof side_read_factors as Hfactors.
  unfold SideSets.side_step.
  destruct (SideSets.find_side_element_type _ _ _ _) as [[[rc t] found] df].
  repeat preserves_step.
Qed.

Lemma side_loop_extends : forall ndf tdf element_ids side_list s,
  preserves extends_sets
            (SideSets.side_loop D ExoIIElementMBEntity SubEntityNodeIndices r ndf tdf
               s element_ids side_list).
Proof.
  intros ndf tdf. induction element_ids as [| id ids IH]; intros side_list s;
    [apply preserves_ret, extends_sets_refl |].
  destruct side_list as [| side sides]; [apply preserves_ret, extends_sets_refl |].
  cbn [SideSets.side_loop].
  apply preserves_bind;
    [apply extends_sets_trans | apply side_step_extends | intros s'; apply IH].
Qed.

Lemma create_ss_elements_extends : forall element_ids side_list ndf seq,
  preserves extends_sets
            (SideSets.create_ss_elements D ExoIIElementMBEntity SubEntityNodeIndices r
               element_ids side_list ndf seq).
Proof.
  intros ids sides ndf seq.
  pose proof (extends_sets_refl D) as Hrefl. pose proof side_loop_extends as Hloop.
  unfold SideSets.create_ss_elements. repeat preserves_step.
Qed.

Lemma make_reverse_set_extends : forall ss_handle reverse_entities,
  preserves extends_sets (SideSets.make_reverse_set D ss_handle reverse_entities).
Proof.
  intros ss rev.
  pose proof (extends_sets_refl D) as Hrefl. pose proof (extends_sets_trans D) as Htrans.
  pose proof side_new_meshset as Hnew. pose proof side_add as Hadd.
  pose proof side_or_result as Hres. pose proof side_query as Hq.
  pose proof side_tag_create as Hcreate. pose proof side_tag as Htag.
  unfold SideSets.make_reverse_set. repeat preserves_step.
Qed.

Lemma commit_sideset_extends : forall id child_meshsets ndf s,
  preserves extends_sets (SideSets.commit_sideset D id child_meshsets ndf s).
Proof.
  intros id child ndf s.
  pose proof (extends_sets_refl D) as Hrefl. pose proof (extends_sets_trans D) as Htrans.
  pose proof side_new_meshset as Hnew. pose proof side_add as Hadd.
  pose proof side_or_fail as Hfail. pose proof side_query as Hq.
  pose proof side_tag as Htag. pose proof side_factors as Hdf.
  pose proof make_reverse_set_extends as Hrev.
  unfold SideSets.commit_sideset. repeat preserves_step.
Qed.

Lemma sideset_loop_extends : forall child_meshsets ids i,
  preserves extends_sets
            (SideSets.sideset_loop D ExoIIElementMBEntity SubEntityNodeIndices r
               child_meshsets i ids).
Proof.
  intros child.
  pose proof (extends_sets_refl D) as Hrefl. pose proof (extends_sets_trans D) as Htrans.
  induction ids as [| id ids IH]; intros i; simpl; [now apply preserves_ret |].
  apply preserves_bind; [exact Htrans | | intros _; apply IH].
  unfold SideSets.read_sideset.
  apply preserves_bind; [exact Htrans | now apply preserves_get_dimb | intros n].
  apply preserves_bind; [exact Htrans | now apply preserves_get_dimb | intros ndf].
  destruct (Nc.get_var _ _) as [sv |]; [| now apply preserves_exit].
  destruct (negb _); [now apply preserves_exit |].
  destruct (Nc.get sv n) as [side_list |]; [| now apply preserves_exit].
  destruct (Nc.get_var _ _) as [ev |]; [| now apply preserves_exit].
  destruct (negb _); [now apply preserves_exit |].
  destruct (Nc.get ev n) as [element_list |]; [| now apply preserves_exit].
  apply preserves_bind; [exact Htrans | | intros s; apply commit_sideset_extends].
  apply side_or_return, create_ss_elements_extends.
Qed.

(** X29.  Whatever [read_sidesets] returns, every entity set that was in the
    database is still there, of the same kind, with the members it had still
    in front and in their order: side sets and their reverse sets are
    appended to or made anew, nothing is taken out of a set. *)
Theorem read_sidesets_extends_sets :
  forall (db db' : Db.Moab D) rc,
    sets_below db ->
    Exec.run (SideSets.read_sidesets D ExoIIElementMBEntity SubEntityNodeIndices r) db
    = Some (rc, db') ->
    sets_extended db db'.
Proof.
  intros db db' rc Hbelow Hrun.
  assert (Hpres : preserves extends_sets
                    (SideSets.read_sidesets D ExoIIElementMBEntity SubEntityNodeIndices r)).
  { pose proof (extends_sets_refl D) as Hrefl.
    unfold SideSets.read_sidesets.
    destruct (_ =? 0); [now apply preserves_exit |].
    destruct (Nc.get_var _ _) as [v |]; [| now apply preserves_exit].
    destruct (negb _); [now apply preserves_exit |].
    destruct (Nc.get v _) as [ids |]; [| now apply preserves_exit].
    apply preserves_bind;
      [apply extends_sets_trans | apply side_query | intros child].
    apply sideset_loop_extends. }
  unfold Exec.run in Hrun.
  destruct (SideSets.read_sidesets D _ _ r db) as [[s' res] |] eqn:Hm; [| discriminate].
  assert (s' = db') as -> by (destruct res; congruence).
  destruct (Hpres _ _ _ Hm Hbelow) as [_ Hext]. exact Hext.
Qed.

End sidesets_extend.

Lemma read_sidesets_extends_sets_witness :
  sets_extended db_with_sideset db_with_longer_sideset.
Proof.
  apply (@read_sidesets_extends_sets sample_enum Z sample_entity_type sample_sub_entity
           (shell_sideset [1; 2]) db_with_sideset db_with_longer_sideset MB_SUCCESS).
  - intros h [s Hs]. simpl in Hs. apply lookup_singleton_Some in Hs as [<- _]. simpl. lia.
  - vm_compute. reflexivity.
Defined.
